(** * A shallow embedding of langsci.bib.bibtools, langsci.bib.bibpatterns
      and langsci.latex.delatex

    The Python program normalizes bibliographies: [Record] parses one entry
    (BibTeX or free text), [Record.conform] runs the field checks, and
    [normalize] drives a whole document.

    Modelling conventions.
    - A Python [str] is a list of code points ([pystr := list N]).
    - A Python [dict] is an association list in insertion order, since
      [checkquestionmarks] iterates over the dict and the order of the
      diagnostics depends on it.
    - A regular expression is parsed from the text of the Python pattern by
      [compile] and run by a backtracking matcher with the priorities of
      Python's [re] (leftmost, greedy/lazy, ordered alternation).
    - Character classes [\d], [\w], case folding, [str.lower], [str.upper],
      [str.isdigit] and [int] are modelled on the ASCII range: a code point
      above 127 is neither a digit nor a word character and has no case.
      [\s] and [str.strip] use Python's full list of whitespace code points.
    - The module [langsci.bib.bibnouns] (lists of proper nouns) is not part of
      the sources at hand; the list of nouns is a parameter [nouns] of
      [checkdecapitalization] and of everything that calls it.
    - The process-wide dictionary [keys] is threaded explicitly.
    - A Python exception is a value of type [exn]; the only raising path of
      the modelled code is [get_hyphen(None)] in [parse_natural]. *)

From Stdlib Require Import List NArith ZArith Bool String Ascii Lia Arith.
From Stdlib Require Import Permutation Sorted.
Import ListNotations.

Local Open Scope N_scope.
Local Open Scope list_scope.

(** ** Strings *)

Module Str.

Definition pystr := list N.

(** [U "text"] is the Python string whose code points are the bytes of an
    ASCII literal. *)
Fixpoint U (s : string) : pystr :=
  match s with
  | EmptyString => []
  | String a s' => N_of_ascii a :: U s'
  end.

Definition ch (a : ascii) : N := N_of_ascii a.

(** Code points that cannot be written inside a literal. *)
Definition QUOTE : N := 34.
Definition NL : N := 10.
Definition TAB : N := 9.
Definition FIGDASH : N := 8210.   (* U+2012 *)
Definition ENDASH : N := 8211.    (* U+2013 *)
Definition EMDASH : N := 8212.    (* U+2014 *)
Definition MINUS : N := 8722.     (* U+2212 *)

Fixpoint eqb (a b : pystr) : bool :=
  match a, b with
  | [], [] => true
  | x :: a', y :: b' => (x =? y) && eqb a' b'
  | _, _ => false
  end.

(** Python's [<] on strings: lexicographic on code points. *)
Fixpoint ltb (a b : pystr) : bool :=
  match a, b with
  | _, [] => false
  | [], _ :: _ => true
  | x :: a', y :: b' => (x <? y) || ((x =? y) && ltb a' b')
  end.

Definition leb (a b : pystr) : bool := negb (ltb b a).

Fixpoint startswith (p s : pystr) : bool :=
  match p, s with
  | [], _ => true
  | x :: p', y :: s' => (x =? y) && startswith p' s'
  | _ :: _, [] => false
  end.

Definition endswith (p s : pystr) : bool := startswith (rev p) (rev s).

(** [sub in s] *)
Fixpoint contains (sub s : pystr) : bool :=
  startswith sub s ||
  match s with
  | [] => false
  | _ :: s' => contains sub s'
  end.

Fixpoint drop (n : nat) (s : pystr) : pystr :=
  match n, s with
  | O, _ => s
  | S n', _ :: s' => drop n' s'
  | S _, [] => []
  end.

Fixpoint take (n : nat) (s : pystr) : pystr :=
  match n, s with
  | S n', x :: s' => x :: take n' s'
  | _, _ => []
  end.

(** [s[a:b]] for [0 <= a <= b]. *)
Definition slice (a b : N) (s : pystr) : pystr :=
  take (N.to_nat (b - a)) (drop (N.to_nat a) s).

(** [s[:-1]] *)
Definition drop_last (s : pystr) : pystr := removelast s.

(** [str.replace(old, new)]: non-overlapping occurrences, left to right.  For
    an empty [old], Python inserts [new] before every code point and at the
    end. *)
Fixpoint replace_ne (fuel : nat) (old new s : pystr) : pystr :=
  match fuel with
  | O => s
  | S f =>
    match s with
    | [] => []
    | x :: s' =>
      if startswith old s
      then new ++ replace_ne f old new (drop (List.length old) s)
      else x :: replace_ne f old new s'
    end
  end.

Fixpoint intersperse_all (new s : pystr) : pystr :=
  match s with
  | [] => new
  | x :: s' => new ++ x :: intersperse_all new s'
  end.

Definition replace (old new s : pystr) : pystr :=
  match old with
  | [] => intersperse_all new s
  | _ :: _ => replace_ne (S (List.length s)) old new s
  end.

(** [str.count(sub)] for a non-empty [sub]; for an empty one Python returns
    [len(s) + 1]. *)
Fixpoint count_ne (fuel : nat) (sub s : pystr) : nat :=
  match fuel with
  | O => O
  | S f =>
    match s with
    | [] => O
    | _ :: s' =>
      if startswith sub s
      then S (count_ne f sub (drop (List.length sub) s))
      else count_ne f sub s'
    end
  end.

Definition count (sub s : pystr) : nat :=
  match sub with
  | [] => S (List.length s)
  | _ :: _ => count_ne (S (List.length s)) sub s
  end.

(** [str.split(sep)] for a non-empty separator. *)
Fixpoint split_on_aux (fuel : nat) (sep cur s : pystr) : list pystr :=
  match fuel with
  | O => [rev cur]
  | S f =>
    match s with
    | [] => [rev cur]
    | x :: s' =>
      if startswith sep s
      then rev cur :: split_on_aux f sep [] (drop (List.length sep) s)
      else split_on_aux f sep (x :: cur) s'
    end
  end.

Definition split_on (sep s : pystr) : list pystr :=
  split_on_aux (S (List.length s)) sep [] s.

(** Python's [str.isspace] code points; also the class [\s] of [re]. *)
Definition is_space (c : N) : bool :=
  ((9 <=? c) && (c <=? 13)) || ((28 <=? c) && (c <=? 32)) ||
  (c =? 133) || (c =? 160) || (c =? 5760) ||
  ((8192 <=? c) && (c <=? 8202)) || (c =? 8232) || (c =? 8233) ||
  (c =? 8239) || (c =? 8287) || (c =? 12288).

Definition is_digit (c : N) : bool := (48 <=? c) && (c <=? 57).
Definition is_upper (c : N) : bool := (65 <=? c) && (c <=? 90).
Definition is_lower (c : N) : bool := (97 <=? c) && (c <=? 122).
Definition is_word (c : N) : bool :=
  is_digit c || is_upper c || is_lower c || (c =? 95).

Definition lower_c (c : N) : N := if is_upper c then c + 32 else c.
Definition upper_c (c : N) : N := if is_lower c then c - 32 else c.
Definition lower (s : pystr) : pystr := map lower_c s.
Definition upper (s : pystr) : pystr := map upper_c s.

(** [str.isdigit()] *)
Definition isdigit (s : pystr) : bool :=
  match s with
  | [] => false
  | _ => forallb is_digit s
  end.

Fixpoint lstrip_by (p : N -> bool) (s : pystr) : pystr :=
  match s with
  | [] => []
  | x :: s' => if p x then lstrip_by p s' else s
  end.

Definition rstrip_by (p : N -> bool) (s : pystr) : pystr :=
  rev (lstrip_by p (rev s)).

Definition strip_by (p : N -> bool) (s : pystr) : pystr :=
  rstrip_by p (lstrip_by p s).

Definition mem_c (cs : pystr) (c : N) : bool := existsb (N.eqb c) cs.

Definition strip (s : pystr) : pystr := strip_by is_space s.
Definition lstrip (s : pystr) : pystr := lstrip_by is_space s.
Definition strip_chars (cs s : pystr) : pystr := strip_by (mem_c cs) s.
Definition rstrip_chars (cs s : pystr) : pystr := rstrip_by (mem_c cs) s.
Definition lstrip_chars (cs s : pystr) : pystr := lstrip_by (mem_c cs) s.

(** [str.split()] with no argument: runs of whitespace separate the words,
    and no empty word is produced. *)
Fixpoint split_ws_aux (cur : pystr) (s : pystr) : list pystr :=
  match s with
  | [] => match cur with [] => [] | _ => [rev cur] end
  | x :: s' =>
    if is_space x
    then match cur with
         | [] => split_ws_aux [] s'
         | _ => rev cur :: split_ws_aux [] s'
         end
    else split_ws_aux (x :: cur) s'
  end.

Definition split_ws (s : pystr) : list pystr := split_ws_aux [] s.

(** [sep.join(parts)] *)
Fixpoint join (sep : pystr) (parts : list pystr) : pystr :=
  match parts with
  | [] => []
  | [p] => p
  | p :: ps => p ++ sep ++ join sep ps
  end.

(** [str.splitlines()]: the line boundaries of Python. *)
Definition is_linebreak (c : N) : bool :=
  (c =? 10) || (c =? 11) || (c =? 12) || (c =? 13) ||
  (c =? 28) || (c =? 29) || (c =? 30) || (c =? 133) ||
  (c =? 8232) || (c =? 8233).

Fixpoint splitlines_aux (cur : pystr) (s : pystr) : list pystr :=
  match s with
  | [] => match cur with [] => [] | _ => [rev cur] end
  | x :: s' =>
    if is_linebreak x
    then match x, s' with
         | 13, 10 :: s'' => rev cur :: splitlines_aux [] s''
         | _, _ => rev cur :: splitlines_aux [] s'
         end
    else splitlines_aux (x :: cur) s'
  end.

Definition splitlines (s : pystr) : list pystr := splitlines_aux [] s.

(** [int(s)] on ASCII input: optional surrounding whitespace, an optional
    sign, digits, single underscores between digits. *)
Fixpoint digits_val (acc : N) (prev_digit : bool) (s : pystr) : option N :=
  match s with
  | [] => if prev_digit then Some acc else None
  | c :: s' =>
    if is_digit c then digits_val (10 * acc + (c - 48)) true s'
    else if (c =? 95) && prev_digit
         then match s' with
              | d :: _ => if is_digit d then digits_val acc false s' else None
              | [] => None
              end
         else None
  end.

Definition py_int (s : pystr) : option Z :=
  match strip s with
  | [] => None
  | c :: s' =>
    if c =? 45 then option_map (fun n => (- Z.of_N n)%Z) (digits_val 0 false s')
    else if c =? 43 then option_map Z.of_N (digits_val 0 false s')
    else option_map Z.of_N (digits_val 0 false (c :: s'))
  end.

(** [str(n)] for a natural number. *)
Fixpoint str_of_N_aux (fuel : nat) (n : N) (acc : pystr) : pystr :=
  match fuel with
  | O => acc
  | S f =>
    let acc' := (48 + n mod 10) :: acc in
    if n <? 10 then acc' else str_of_N_aux f (n / 10) acc'
  end.

Definition str_of_N (n : N) : pystr := str_of_N_aux (S (N.to_nat (N.log2 n))) n [].

End Str.

Import Str.

(** ** Regular expressions: syntax, parser of Python's pattern language *)

Module Re.

Inductive citem : Type :=
| CRange (lo hi : N)
| CDigit | CNotDigit
| CSpace | CNotSpace
| CWord | CNotWord.

Inductive re : Type :=
| REps
| RSet (neg : bool) (items : list citem)
| RSeq (a b : re)
| RAlt (a b : re)
| RRep (r : re) (mn : nat) (mx : option nat) (greedy : bool)
| RGroup (n : nat) (r : re)
| RBol
| REol
| RWordB
| RLookahead (neg : bool) (r : re)
| RLookbehind (neg : bool) (setneg : bool) (items : list citem).

(** A compiled pattern: the syntax tree, the flag [re.IGNORECASE], and the
    table of named groups. *)
Record regex : Type := mkRegex {
  rx_ast : re;
  rx_icase : bool;
  rx_names : list (pystr * nat)
}.

Definition lit (c : N) : re := RSet false [CRange c c].
Definition anychar : re := RSet true [CRange NL NL].

Definition mkseq (a b : re) : re :=
  match b with
  | REps => a
  | _ => RSeq a b
  end.

(** Parser state: number of groups opened so far and the names seen. *)
Definition pst : Type := (nat * list (pystr * nat))%type.

Definition is_alnum (c : N) : bool := is_digit c || is_upper c || is_lower c.

(** A class escape or an escaped literal, inside or outside brackets. *)
Definition esc_item (c : N) : option citem :=
  if c =? ch "d" then Some CDigit
  else if c =? ch "D" then Some CNotDigit
  else if c =? ch "s" then Some CSpace
  else if c =? ch "S" then Some CNotSpace
  else if c =? ch "w" then Some CWord
  else if c =? ch "W" then Some CNotWord
  else if c =? ch "n" then Some (CRange NL NL)
  else if c =? ch "t" then Some (CRange TAB TAB)
  else if is_alnum c then None
  else Some (CRange c c).

(** The inside of [[...]], after the optional [^]. *)
Fixpoint p_class (s : pystr) (acc : list citem) : option (list citem * pystr) :=
  match s with
  | [] => None
  | c :: s1 =>
    if c =? ch "]" then Some (rev acc, s1)
    else if c =? ch "\" then
      match s1 with
      | e :: s2 =>
        match esc_item e with
        | Some it => p_class s2 (it :: acc)
        | None => None
        end
      | [] => None
      end
    else
      match s1 with
      | d :: hi :: s3 =>
        if (d =? ch "-") && negb (hi =? ch "]") && negb (hi =? ch "\")
        then p_class s3 (CRange c hi :: acc)
        else p_class s1 (CRange c c :: acc)
      | _ => p_class s1 (CRange c c :: acc)
      end
  end.

Fixpoint p_nat (s : pystr) (acc : option nat) : option nat * pystr :=
  match s with
  | c :: s' =>
    if is_digit c
    then p_nat s' (Some (10 * match acc with Some a => a | None => O end
                         + N.to_nat (c - 48))%nat)
    else (acc, s)
  | [] => (acc, s)
  end.

(** [{m}], [{m,}], [{m,n}], [{,n}] after the opening brace. *)
Definition p_braces (s : pystr) : option (nat * option nat * pystr) :=
  let '(m, s1) := p_nat s None in
  match s1 with
  | c :: s2 =>
    if c =? ch "}" then
      match m with
      | Some m' => Some (m', Some m', s2)
      | None => None
      end
    else if c =? ch "," then
      let '(n, s3) := p_nat s2 None in
      match s3 with
      | c' :: s4 =>
        if c' =? ch "}"
        then match m, n with
             | None, None => None
             | _, _ => Some (match m with Some m' => m' | None => O end, n, s4)
             end
        else None
      | [] => None
      end
    else None
  | [] => None
  end.

Definition p_lazy (s : pystr) : bool * pystr :=
  match s with
  | c :: s' => if c =? ch "?" then (false, s') else (true, s)
  | [] => (true, s)
  end.

(** An optional quantifier after the atom [a]. *)
Definition p_quant (a : re) (s : pystr) : re * pystr :=
  match s with
  | c :: s1 =>
    if c =? ch "*" then let '(g, s2) := p_lazy s1 in (RRep a 0 None g, s2)
    else if c =? ch "+" then let '(g, s2) := p_lazy s1 in (RRep a 1 None g, s2)
    else if c =? ch "?" then let '(g, s2) := p_lazy s1 in (RRep a 0 (Some 1%nat) g, s2)
    else if c =? ch "{" then
      match p_braces s1 with
      | Some (m, n, s2) => let '(g, s3) := p_lazy s2 in (RRep a m n g, s3)
      | None => (a, s)
      end
    else (a, s)
  | [] => (a, s)
  end.

Fixpoint p_name (s : pystr) (acc : pystr) : option (pystr * pystr) :=
  match s with
  | c :: s' =>
    if c =? ch ">" then Some (rev acc, s')
    else if is_word c then p_name s' (c :: acc) else None
  | [] => None
  end.

Definition expect_close (x : option (re * pystr * pst)) (f : re -> option re)
  : option (re * pystr * pst) :=
  match x with
  | Some (r, c :: s', g) =>
    if c =? ch ")" then
      match f r with
      | Some r' => Some (r', s', g)
      | None => None
      end
    else None
  | _ => None
  end.

Fixpoint p_alt (fuel : nat) (s : pystr) (g : pst) : option (re * pystr * pst) :=
  match fuel with
  | O => None
  | S f =>
    match p_seq f s g with
    | Some (r, c :: s1, g1) =>
      if c =? ch "|" then
        match p_alt f s1 g1 with
        | Some (r2, s2, g2) => Some (RAlt r r2, s2, g2)
        | None => None
        end
      else Some (r, c :: s1, g1)
    | other => other
    end
  end
with p_seq (fuel : nat) (s : pystr) (g : pst) : option (re * pystr * pst) :=
  match fuel with
  | O => None
  | S f =>
    match s with
    | [] => Some (REps, [], g)
    | c :: _ =>
      if (c =? ch "|") || (c =? ch ")") then Some (REps, s, g)
      else
        match p_atom f s g with
        | Some (a, s1, g1) =>
          let '(q, s2) := p_quant a s1 in
          match p_seq f s2 g1 with
          | Some (r, s3, g3) => Some (mkseq q r, s3, g3)
          | None => None
          end
        | None => None
        end
    end
  end
with p_atom (fuel : nat) (s : pystr) (g : pst) : option (re * pystr * pst) :=
  match fuel with
  | O => None
  | S f =>
    match s with
    | [] => None
    | c :: s1 =>
      if c =? ch "." then Some (anychar, s1, g)
      else if c =? ch "^" then Some (RBol, s1, g)
      else if c =? ch "$" then Some (REol, s1, g)
      else if c =? ch "\" then
        match s1 with
        | e :: s2 =>
          if e =? ch "b" then Some (RWordB, s2, g)
          else match esc_item e with
               | Some it => Some (RSet false [it], s2, g)
               | None => None
               end
        | [] => None
        end
      else if c =? ch "[" then
        match s1 with
        | n :: s2 =>
          if n =? ch "^"
          then match p_class s2 [] with
               | Some (items, s3) => Some (RSet true items, s3, g)
               | None => None
               end
          else match p_class s1 [] with
               | Some (items, s3) => Some (RSet false items, s3, g)
               | None => None
               end
        | [] => None
        end
      else if c =? ch "(" then
        match s1 with
        | q :: s2 =>
          if q =? ch "?" then
            match s2 with
            | k :: s3 =>
              if k =? ch ":" then expect_close (p_alt f s3 g) Some
              else if k =? ch "=" then
                expect_close (p_alt f s3 g) (fun r => Some (RLookahead false r))
              else if k =? ch "!" then
                expect_close (p_alt f s3 g) (fun r => Some (RLookahead true r))
              else if k =? ch "<" then
                match s3 with
                | b :: s4 =>
                  if (b =? ch "=") || (b =? ch "!") then
                    expect_close (p_alt f s4 g)
                      (fun r => match r with
                                | RSet sn items => Some (RLookbehind (b =? ch "!") sn items)
                                | _ => None
                                end)
                  else None
                | [] => None
                end
              else if k =? ch "P" then
                match s3 with
                | lt :: s4 =>
                  if lt =? ch "<" then
                    match p_name s4 [] with
                    | Some (name, s5) =>
                      let idx := S (fst g) in
                      expect_close (p_alt f s5 (idx, (name, idx) :: snd g))
                        (fun r => Some (RGroup idx r))
                    | None => None
                    end
                  else None
                | [] => None
                end
              else None
            | [] => None
            end
          else
            let idx := S (fst g) in
            expect_close (p_alt f s1 (idx, snd g)) (fun r => Some (RGroup idx r))
        | [] => None
        end
      else if (c =? ch "*") || (c =? ch "+") || (c =? ch "?") then None
      else Some (lit c, s1, g)
    end
  end.

(** A pattern whose repetitions all have a body that consumes at least one
    code point.  The matcher is defined for these patterns; every pattern of
    the program is one. *)
Fixpoint nullable (r : re) : bool :=
  match r with
  | REps => true
  | RSet _ _ => false
  | RSeq a b => nullable a && nullable b
  | RAlt a b => nullable a || nullable b
  | RRep r0 mn _ _ => Nat.eqb mn 0 || nullable r0
  | RGroup _ r0 => nullable r0
  | RBol | REol | RWordB => true
  | RLookahead _ _ => true
  | RLookbehind _ _ _ => true
  end.

Fixpoint consuming_loops (r : re) : bool :=
  match r with
  | RSeq a b | RAlt a b => consuming_loops a && consuming_loops b
  | RRep r0 _ _ _ => negb (nullable r0) && consuming_loops r0
  | RGroup _ r0 | RLookahead _ r0 => consuming_loops r0
  | _ => true
  end.

(** [re.compile(pattern, flags)]; a leading [(?i)] sets IGNORECASE. *)
Definition compile (icase : bool) (p : pystr) : option regex :=
  let '(ic, body) :=
    if startswith (U "(?i)") p then (true, drop 4 p) else (icase, p) in
  match p_alt (3 * List.length body + 3) body (O, []) with
  | Some (r, [], g) =>
    if consuming_loops r then Some (mkRegex r ic (snd g)) else None
  | _ => None
  end.

(** [the o] is the content of [o]; it has type [A] only when [o] reduces to
    [Some _], so a pattern that does not parse is rejected by the type
    checker. *)
Definition the {A : Type} (o : option A)
  : match o with Some _ => A | None => unit end :=
  match o with
  | Some a => a
  | None => tt
  end.

End Re.

Import Re.

(** ** The backtracking matcher *)

Module Matcher.

(** Group number to the last span it matched. *)
Definition caps : Type := list (nat * (N * N)).

(** A match object: span of the whole match, groups, and the subject. *)
Record rmatch : Type := mkMatch {
  m_start : N;
  m_end : N;
  m_caps : caps;
  m_subject : pystr
}.

Fixpoint cap_find (n : nat) (cs : caps) : option (N * N) :=
  match cs with
  | [] => None
  | (i, span) :: cs' => if Nat.eqb i n then Some span else cap_find n cs'
  end.

(** [m.group(n)]; [None] for a group that did not take part in the match. *)
Definition group (m : rmatch) (n : nat) : option pystr :=
  match n with
  | O => Some (slice (m_start m) (m_end m) (m_subject m))
  | _ =>
    match cap_find n (m_caps m) with
    | Some (a, b) => Some (slice a b (m_subject m))
    | None => None
    end
  end.

Fixpoint name_find (name : pystr) (names : list (pystr * nat)) : nat :=
  match names with
  | [] => O
  | (x, i) :: names' => if Str.eqb x name then i else name_find name names'
  end.

(** [m.group("name")] *)
Definition gname (rx : regex) (m : rmatch) (name : string) : option pystr :=
  group m (name_find (U name) (rx_names rx)).

(** A group known to take part in every match. *)
Definition group_s (m : rmatch) (n : nat) : pystr :=
  match group m n with
  | Some s => s
  | None => []
  end.

Definition item_match (it : citem) (c : N) : bool :=
  match it with
  | CRange lo hi => (lo <=? c) && (c <=? hi)
  | CDigit => is_digit c
  | CNotDigit => negb (is_digit c)
  | CSpace => is_space c
  | CNotSpace => negb (is_space c)
  | CWord => is_word c
  | CNotWord => negb (is_word c)
  end.

Definition set_match (icase neg : bool) (items : list citem) (c : N) : bool :=
  xorb neg
    (existsb (fun it =>
                item_match it c ||
                (icase && (item_match it (lower_c c) || item_match it (upper_c c))))
             items).

Definition is_word_o (c : option N) : bool :=
  match c with
  | Some x => is_word x
  | None => false
  end.

(** The state at the end of a successful match. *)
Definition result : Type := (N * option N * pystr * caps)%type.

(** Position, previous code point, rest of the subject, groups so far. *)
Definition cont : Type := N -> option N -> pystr -> caps -> option result.

(** The loop of a repetition with body [body]: at least [mn] and at most
    [mx] rounds, the longest first when [greedy].  The body consumes at least
    one code point in each round, so [fuel] above the number of code points
    left, plus [mn], is never used up. *)
Definition rep_loop
           (body : N -> option N -> pystr -> caps -> cont -> option result)
           (greedy : bool) (k : cont)
  : nat -> nat -> option nat -> N -> option N -> pystr -> caps -> option result :=
  fix rep (fuel : nat) (mn : nat) (mx : option nat)
          (pos : N) (prev : option N) (s : pystr) (cs : caps)
          {struct fuel} : option result :=
    match fuel with
    | O => None
    | S f =>
      let more := fun _ : unit =>
        match mx with
        | Some O => None
        | _ => body pos prev s cs (rep f (Nat.pred mn) (option_map Nat.pred mx))
        end in
      match mn with
      | S _ => more tt
      | O =>
        if greedy
        then match more tt with
             | Some x => Some x
             | None => k pos prev s cs
             end
        else match k pos prev s cs with
             | Some x => Some x
             | None => more tt
             end
      end
    end.

Section Run.

Variable icase : bool.
(** An upper bound of the number of code points left, used as the fuel of
    the repetitions. *)
Variable bound : nat.

Fixpoint run (r : re) (pos : N) (prev : option N) (s : pystr) (cs : caps)
         (k : cont) {struct r} : option result :=
  match r with
  | REps => k pos prev s cs
  | RSet neg items =>
    match s with
    | [] => None
    | c :: s' =>
      if set_match icase neg items c then k (pos + 1) (Some c) s' cs else None
    end
  | RSeq a b =>
    run a pos prev s cs (fun pos' prev' s' cs' => run b pos' prev' s' cs' k)
  | RAlt a b =>
    match run a pos prev s cs k with
    | Some x => Some x
    | None => run b pos prev s cs k
    end
  | RRep r0 mn mx greedy =>
    rep_loop (run r0) greedy k (S (mn + bound)) mn mx pos prev s cs
  | RGroup n r0 =>
    run r0 pos prev s cs
        (fun pos' prev' s' cs' => k pos' prev' s' ((n, (pos, pos')) :: cs'))
  | RBol => if pos =? 0 then k pos prev s cs else None
  | REol =>
    match s with
    | [] => k pos prev s cs
    | [c] => if c =? NL then k pos prev s cs else None
    | _ => None
    end
  | RWordB =>
    if xorb (is_word_o prev) (is_word_o (hd_error s))
    then k pos prev s cs else None
  | RLookahead neg r0 =>
    match run r0 pos prev s cs (fun p q t c => Some (p, q, t, c)) with
    | Some (_, _, _, cs') => if neg then None else k pos prev s cs'
    | None => if neg then k pos prev s cs else None
    end
  | RLookbehind neg setneg items =>
    let hit := match prev with
               | Some c => set_match icase setneg items c
               | None => false
               end in
    if xorb neg hit then k pos prev s cs else None
  end.

End Run.

Definition accept : cont := fun p q t c => Some (p, q, t, c).

Definition accept_end : cont :=
  fun p q t c => match t with [] => Some (p, q, t, c) | _ => None end.

(** [pattern.match(s)] *)
Definition rmatch_at (rx : regex) (s : pystr) : option rmatch :=
  match run (rx_icase rx) (List.length s) (rx_ast rx) 0 None s [] accept with
  | Some (e, _, _, cs) => Some (mkMatch 0 e cs s)
  | None => None
  end.

(** [pattern.fullmatch(s)] *)
Definition fullmatch (rx : regex) (s : pystr) : option rmatch :=
  match run (rx_icase rx) (List.length s) (rx_ast rx) 0 None s [] accept_end with
  | Some (e, _, _, cs) => Some (mkMatch 0 e cs s)
  | None => None
  end.

(** The scan of [pattern.search]: the first position from [pos] on where the
    pattern matches. *)
Fixpoint scan (rx : regex) (bound : nat) (subject : pystr)
         (pos : N) (prev : option N) (s : pystr) : option rmatch :=
  match run (rx_icase rx) bound (rx_ast rx) pos prev s [] accept with
  | Some (e, _, _, cs) => Some (mkMatch pos e cs subject)
  | None =>
    match s with
    | [] => None
    | c :: s' => scan rx bound subject (pos + 1) (Some c) s'
    end
  end.

(** [pattern.search(s)] *)
Definition search (rx : regex) (s : pystr) : option rmatch :=
  scan rx (List.length s) s 0 None s.

(** All non-overlapping matches, as [finditer], [sub] and [split] see them.
    After an empty match the next one must not be empty at the same place. *)
Fixpoint find_all (fuel : nat) (rx : regex) (bound : nat) (subject : pystr)
         (pos : N) (prev : option N) (s : pystr) (must_advance : bool)
  : list rmatch :=
  match fuel with
  | O => []
  | S f =>
    let k : cont := fun p q t c =>
      if must_advance && (p =? pos) then None else Some (p, q, t, c) in
    match run (rx_icase rx) bound (rx_ast rx) pos prev s [] k with
    | Some (e, prev', s', cs) =>
      mkMatch pos e cs subject
      :: find_all f rx bound subject e prev' s' (e =? pos)
    | None =>
      match s with
      | [] => []
      | c :: s' => find_all f rx bound subject (pos + 1) (Some c) s' false
      end
    end
  end.

Definition finditer (rx : regex) (s : pystr) : list rmatch :=
  find_all (2 * List.length s + 2) rx (List.length s) s 0 None s false.

(** [pattern.sub(repl, s)], the replacement given as a function of the
    match. *)
Fixpoint sub_build (subject : pystr) (cur : N) (ms : list rmatch)
         (repl : rmatch -> pystr) : pystr :=
  match ms with
  | [] => drop (N.to_nat cur) subject
  | m :: ms' =>
    slice cur (m_start m) subject ++ repl m
    ++ sub_build subject (m_end m) ms' repl
  end.

Definition sub (rx : regex) (repl : rmatch -> pystr) (s : pystr) : pystr :=
  sub_build s 0 (finditer rx s) repl.

(** [pattern.split(s)] for a pattern without groups. *)
Fixpoint split_build (subject : pystr) (cur : N) (ms : list rmatch)
  : list pystr :=
  match ms with
  | [] => [drop (N.to_nat cur) subject]
  | m :: ms' =>
    slice cur (m_start m) subject :: split_build subject (m_end m) ms'
  end.

Definition split (rx : regex) (s : pystr) : list pystr :=
  split_build s 0 (finditer rx s).

End Matcher.

Import Matcher.

(** ** langsci.bib.bibpatterns *)

Module bibpatterns.

Local Abbreviation rx p := (the (compile false p)) (only parsing).
Local Abbreviation rxi p := (the (compile true p)) (only parsing).

(** [PRESERVATIONPATTERN]: [\b(n1|n2|...)\b] over the proper nouns of
    [langsci.bib.bibnouns].  The nouns are plain words, so each of them is a
    literal of the pattern. *)
Fixpoint lits (s : pystr) : re :=
  match s with
  | [] => REps
  | [c] => lit c
  | c :: s' => RSeq (lit c) (lits s')
  end.

Fixpoint alts (l : list pystr) : re :=
  match l with
  | [] => REps
  | [n] => lits n
  | n :: l' => RAlt (lits n) (alts l')
  end.

Definition PRESERVATIONPATTERN (nouns : list pystr) : regex :=
  mkRegex (RSeq RWordB (RSeq (RGroup 1 (alts nouns)) RWordB)) false [].

Definition CAMELCASE_RE : regex :=
  Eval vm_compute in rx (U "([A-Z][A-Za-z0-9\-']*[A-Z][A-Za-z0-9\-']+)").

Definition PROCEEDINGS_RE : regex :=
  Eval vm_compute in rx (U "\b(Proceedings|Workshop|Conference|Symposium)\b").

Definition PROCEEDINGS_LC_RE : regex :=
  Eval vm_compute in rx (U "\b(proceedings|workshop|conference|symposium)\b").

Definition PROCEEDINGS_FUZZY_RE : regex :=
  Eval vm_compute in rxi (U "(roceedings|orkshop|onference|ymposium)").

Definition TITLEVOLUME_RE : regex :=
  Eval vm_compute in
    rx (U "(, )?([Vv]olume|[Vv]ol.?|Band|[Tt]ome) *([0-9IVXivx]+)").

Definition THESIS_RE : regex :=
  Eval vm_compute in rxi (U "(thesis(es)?|dissertation|proquest)").

(** Full date patterns *)
Definition yyyy : pystr := U "[12][0-9][0-9][0-9]".
Definition mm : pystr := U "[10]?[0-9]".
Definition dd : pystr := U "[0123]?[0-9]".
Definition iso_date : pystr := yyyy ++ U "-" ++ mm ++ U "-" ++ dd.
Definition euro_date : pystr := dd ++ U "\." ++ mm ++ U "\." ++ yyyy.
Definition slash_date_1 : pystr := dd ++ U "/" ++ mm ++ U "/" ++ yyyy.
Definition slash_date_2 : pystr := mm ++ U "/" ++ dd ++ U "/" ++ yyyy.

Definition url_pattern : pystr := U "https?://\S+".

Definition URL_URLDATE_RE : regex :=
  Eval vm_compute in
    rx (url_pattern ++ U " .*?(" ++ iso_date ++ U "|" ++ euro_date ++ U ")").

Definition ISO_DATE_RE : regex :=
  Eval vm_compute in rx (U "\b" ++ iso_date ++ U "\b").

Definition URL_RE : regex :=
  Eval vm_compute in rxi (U "(https?://[^ \(\)]+)").

Definition DOMAIN_RE : regex :=
  Eval vm_compute in rxi (U "^https?://([^/]+)").

Definition AMP_RE : regex :=
  Eval vm_compute in rx (U "(?<!\\)&").

Definition ARTICLE_ID_RE : regex :=
  Eval vm_compute in
    rx (U "(?i)^(?:article|art\.?|id\.?|number|no\.?){1,3} *([A-Za-z0-9]+)").

Definition TYPKEYFIELDS : regex :=
  Eval vm_compute in
    rx (U "^\s*([^\{\s]+)\s*\{\s*([^,\s]+)\s*,\s*((?:.|\n)*)\}").

Definition MAINTITLE_RE : regex :=
  Eval vm_compute in rx (U "([:\?!]) +([a-zA-Z])").

Definition doi_pattern : pystr := U "(10\.\d{4,9}/[-._;()/:A-Z0-9]+)".

Definition DOI_RE : regex := Eval vm_compute in rxi doi_pattern.

(** [DOI_WHITELIST_RE], a dict from domain to pattern, in source order. *)
Definition DOI_WHITELIST_RE : list (pystr * regex) :=
  Eval vm_compute in
  [ (U "www.degruyter.com", rxi (U "/" ++ doi_pattern ++ U "(?:/html|/pdf)?"));
    (U "academic.oup.com", rxi (U "/doi/" ++ doi_pattern));
    (U "www.tandfonline.com", rxi (U "/doi/(?:full|abs|pdf)?/" ++ doi_pattern));
    (U "doi.org", rxi (U "doi\.org/" ++ doi_pattern));
    (U "dx.doi.org", rxi (U "dx\.doi\.org/" ++ doi_pattern));
    (U "doi.acm.org", rxi (U "doi\.acm\.org/" ++ doi_pattern));
    (U "journals.sagepub.com", rxi (U "/doi/" ++ doi_pattern));
    (U "asa.scitation.org", rxi (U "/doi/" ++ doi_pattern));
    (U "doi.wiley.com", rxi (U "doi\.wiley\.com/" ++ doi_pattern));
    (U "link.springer.com", rxi (U "/" ++ doi_pattern));
    (U "jbe-platform.com", rxi (U "/" ++ doi_pattern));
    (U "pubs.asha.org", rxi (U "/doi/" ++ doi_pattern));
    (U "dx.plos.org", rxi (U "/(10\.1371/journal\.pone\.\d+)"));
    (U "frontiersin.org",
     rxi (U "/articles/" ++ doi_pattern ++ U "(?:/full|/abstract)?")) ].

Definition GENERIC_DOI_RE : regex :=
  Eval vm_compute in
    rxi (U "doi/.*?(" ++ doi_pattern
         ++ U ")(?:[/.](?:full|abstract|abs|html|pdf))?$").

Definition handle_pattern : pystr := U "(\d{4,5}\.\d{4,5}/[-._;()/:A-Z0-9]+)".

Definition HANDLE_RE : regex := Eval vm_compute in rxi handle_pattern.

(** Patterns to normalize school, address, publisher.  Code points 252, 246
    and 8217 are u-umlaut, o-umlaut and the right single quotation mark. *)
Definition SCHOOL_FULL : list (pystr * pystr) :=
  [ (U "{MIT}", U "{Massachusetts Institute of Technology}");
    (U "{Ohio State University}", U "{The Ohio State University}");
    (U "{UC Berkeley}", U "{University of California, Berkeley}");
    (U "{UCLA}", U "{University of California, Los Angeles}");
    (U "{University of Texas at Austin}", U "{The University of Texas at Austin}");
    (U "{University of Texas at Arlington}",
     U "{The University of Texas at Arlington}");
    (U "{University of Massachusetts Amherst}",
     U "{University of Massachusetts, Amherst}") ].

Definition SCHOOL_ADDRESS : list (pystr * pystr) :=
  [ (U "{Australian National University}", U "{Canberra}");
    (U "{Cornell University}", U "{Ithaca}");
    (U "{Harvard University}", U "{Cambridge}");
    (U "{Indiana University}", U "{Bloomington}");
    (U "{Leiden University}", U "{Leiden}");
    (U "{Massachusetts Institute of Technology}", U "{Cambridge}");
    (U "{Rice University}", U "{Houston}");
    (U "{Stanford University}", U "{Stanford}");
    (U "{The Ohio State University}", U "{Columbus}");
    (U "{The University of Texas at Arlington}", U "{Arlington}");
    (U "{The University of Texas at Austin}", U "{Austin}");
    (U "{Universidade Estadual de Campinas}", U "{Campinas}");
    (U "{University of California, Berkeley}", U "{Berkeley}");
    (U "{University of California, Los Angeles}", U "{Los Angeles}");
    (U "{University of Cambridge}", U "{Cambridge}");
    (U "{University of Chicago}", U "{Chicago}");
    (U "{University of Connecticut}", U "{Storrs}");
    (U "{University of Illinois at Urbana-Champaign}", U "{Urbana-Champaign}");
    (U "{University of Kansas}", U "{Lawrence}");
    (U "{University of Massachusetts, Amherst}", U "{Amherst}");
    (U "{University of Pennsylvania}", U "{Philadelphia}");
    (U "{University of Sydney}", U "{Sydney}");
    (U "{Yale University}", U "{New Haven}") ].

Definition PUBLISHER_ADDRESS : list (list pystr * pystr) :=
  [ ([U "benjamins"], U "{Amsterdam}");
    ([U "cambridge"; U "cup"], U "{Cambridge}");
    ([U "oxford"; U "oup"], U "{Oxford}");
    ([U "blackwell"; U "routledge"], U "{London}");
    ([U "gruyter"; U "mouton"], U "{Berlin}");
    ([U "wiley"], U "{Hoboken}");
    ([U "brill"], U "{Leiden}");
    ([U "lincom"], U "{M" ++ [252] ++ U "nchen}");
    ([U "foris"], U "{Dordrecht}");
    ([U "mit press"], U "{Cambridge}") ].

Definition PUBLISHER_FULL : list (pystr * pystr) :=
  [ (U "{Ablex Publishing Co}", U "{Ablex}");
    (U "{Ablex Publishing Corporation}", U "{Ablex}");
    (U "{Association for Computational Linguistics (ACL)}",
     U "{Association for Computational Linguistics}");
    (U "{The Association for Computational Linguistics}",
     U "{Association for Computational Linguistics}");
    (U "{The Association for Computational Linguistics (ACL)}",
     U "{Association for Computational Linguistics}");
    (U "{ACL}", U "{Association for Computational Linguistics}");
    (U "{CUP}", U "{Cambridge University Press}");
    (U "{Chicago Linguistics Society}", U "{Chicago Linguistic Society}");
    (U "{CSLI}", U "{CSLI Publications}");
    (U "{de Gruyter}", U "{De Gruyter}");
    (U "{de Gruyter Mouton}", U "{De Gruyter Mouton}");
    (U "{Elsevier Science Ltd}", U "{Elsevier Science}");
    (U "{Elsevier Science Ltd.}", U "{Elsevier Science}");
    (U "{Elsevier B.V}", U "{Elsevier Science}");
    (U "{Elsevier Inc}", U "{Elsevier Science}");
    (U "{Foris Publications}", U "{Foris}");
    (U "{IEEE COMPUTER SOC}", U "{IEEE}");
    (U "{John Benjamins Publishing Company}", U "{John Benjamins}");
    (U "{Benjamins}", U "{John Benjamins}");
    (U "{J. Benjamins}", U "{John Benjamins}");
    (U "{John Wiley \& Sons, Ltd}", U "{John Wiley \& Sons");
    (U "{John Wiley \& Sons Ltd}", U "{John Wiley \& Sons");
    (U "{John Wiley and Sons, Ltd}", U "{John Wiley \& Sons");
    (U "{John Wiley and Sons Ltd}", U "{John Wiley \& Sons");
    (U "{John Wiley and Sons}", U "{John Wiley \& Sons");
    (U "{Editions L" ++ [8217] ++ U "Harmattan}", U "{L'Harmattan}");
    (U "{Editions L'Harmattan}", U "{L'Harmattan}");
    (U "{l'Harmattan}", U "{L'Harmattan}");
    (U "{LINCOM}", U "{Lincom Europa}");
    (U "{The MIT Press}", U "{MIT Press}");
    (U "{MIT press}", U "{MIT Press}");
    (U "{Multilingual matters}", U "{Multilingual Matters}");
    (U "{North Holland}", U "{North-Holland}");
    (U "{North-Holland Publishing Company}", U "{North-Holland}");
    (U "{OUP}", U "{Oxford University Press}");
    (U "{Pergamon}", U "{Pergamon Press}");
    (U "{Routeledge}", U "{Routledge}");
    (U "{R" ++ [252] ++ U "diger K" ++ [246] ++ U "ppe Verlag}",
     U "{R" ++ [252] ++ U "diger K" ++ [246] ++ U "ppe}");
    (U "{K" ++ [246] ++ U "ppe}",
     U "{R" ++ [252] ++ U "diger K" ++ [246] ++ U "ppe}");
    (U "{Sage Publications}", U "{SAGE}");
    (U "{SAGE Publications}", U "{SAGE}");
    (U "{Sage}", U "{SAGE}");
    (U "{Springer Verlag}", U "{Springer}");
    (U "{Springer Berlin Heidelberg}", U "{Springer}");
    (U "{Springer Netherlands}", U "{Springer}");
    (U "{University of Chicago Press}", U "{The University of Chicago Press}");
    (U "{Walter de Gruyter GmbH \& Co. KG}", U "{Walter de Gruyter}");
    (U "{World Scientific Publishing}", U "{World Scientific}") ].

(** Pattern definitions, mostly for [parse_natural] *)
Definition author : pystr := U "(?P<author>.*?)".
Definition year : pystr :=
  U "\(? *(?P<year>[12][0-9]{3})(?P<extrayear>[a-z]?) *\)?".
Definition dashes : pystr := [ENDASH; EMDASH].
Definition pages : pystr :=
  U "(?P<pages>[A-Za-z]?[0-9ivxlcIXVLC]+(?: *[-" ++ dashes
  ++ U "]+ *[A-Za-z]?[0-9ivxlcIVXLC]+)?)".
Definition pppages : pystr := U "(?:pp?\.? *)?" ++ pages.
Definition title : pystr := U "(?P<title>.*?)".
Definition title_ne : pystr := U "(?P<title>.+?)".
Definition title_g : pystr := U "(?P<title>.+)".
Definition endmark_strict : pystr := U "(?P<endmark>[.!?])".
Definition endmark : pystr := U "(?P<endmark>[.!?,])".
Definition endmark1 : pystr := U "(?P<endmark1>[.!?,])".
Definition endmark2 : pystr := U "(?P<endmark2>[.!?])".
Definition editor : pystr := U "(?P<editor>.+)".
Definition ed : pystr := U "\([Ee]ds?\.?\)".
Definition ed_flag : pystr := U "(?P<ed>" ++ ed ++ U ")?".
Definition booktitle : pystr := U "(?P<booktitle>.+)".
Definition journal : pystr := U "(?P<journal>[^a-z].+?)".
Definition note : pystr := U "(?P<note>.*)".
Definition mathesis : pystr :=
  U "\(?(MA|Master's|Masters|Master|M\. ?A\.) [Tt]hesis\)?".
Definition phdthesis : pystr :=
  U "\(?([Dd]octoral|PhD|Ph\.D\.)? ?([Tt]hesis|[Dd]issertation)\)?".
Definition pubaddr : pystr :=
  U "(?P<address>.+) *:(?!/) *(?P<publisher>[^:]\.?[^.]+)".
Definition pubaddrng : pystr :=
  U "(?:(?P<address>.+?) *:(?!//|doi:|handle:) *)?(?P<publisher>.+)".
Definition pword : pystr := U "(?:pp\.?|p\.?|pages|Page[s]?)\s*".
Definition roman : pystr := U "[ivxlcdmIVXLCDM]+".
Definition arabic : pystr := U "[A-Za-z]{0,2}[0-9]+".
Definition joint : pystr :=
  U "(?:" ++ arabic ++ U "|" ++ roman ++ U ")(?:[-" ++ dashes ++ U "/]"
  ++ arabic ++ U "|" ++ roman ++ U ")?".
Definition volumenumber : pystr :=
  U "(?:"
  ++ U "(?P<volume_paren>" ++ joint ++ U ") *\((?P<number_paren>" ++ joint ++ U ")\)"
  ++ U "|"
  ++ U "(?P<volume_sep>" ++ joint ++ U ")[ ,:;]+(?:no\.|number|num\.|#)? *(?P<number_sep>"
  ++ joint ++ U ")"
  ++ U "|"
  ++ U "(?P<volume_only>" ++ joint ++ U ")"
  ++ U ")".

Definition BOOK : regex :=
  Eval vm_compute in
    rx (author ++ U "[., ]* " ++ ed_flag ++ U "[., ]*" ++ year ++ U "[\., ]*"
        ++ title_g).

Definition ARTICLE : regex :=
  Eval vm_compute in
    rx (author ++ U "[., ]*" ++ year ++ U "[., ]*" ++ title_ne ++ endmark
        ++ U " +" ++ journal ++ U "[.,]? " ++ volumenumber
        ++ U "(?: *[.:,] *| +)?(?:" ++ pages ++ U ")?\. *" ++ note).

Definition INCOLLECTION : regex :=
  Eval vm_compute in
    rx (author ++ U "[., ]*" ++ year ++ U "[., ]*" ++ title ++ endmark
        ++ U " In:? " ++ editor ++ U " " ++ ed ++ U "[.,]? " ++ booktitle
        ++ endmark1 ++ U " \(?" ++ pages ++ U "\)?\. +" ++ pubaddrng).

Definition INCOLLECTIONPARENS : regex :=
  Eval vm_compute in
    rx (author ++ U "[., ]*" ++ year ++ U "[., ]*" ++ title ++ endmark
        ++ U " In:? " ++ editor ++ U " " ++ ed ++ U "[.,]? " ++ booktitle
        ++ U "[.,]? \((?:" ++ pword ++ U ")?" ++ pages ++ U "\)\. +"
        ++ pubaddrng).

Definition INCOLLECTIONMISSING : regex :=
  Eval vm_compute in
    rx (author ++ U "[., ]*" ++ year ++ U "[., ]*" ++ title ++ endmark
        ++ U " *In:? *" ++ editor ++ U " *" ++ ed ++ U "[.,]? " ++ booktitle).

Definition MASTERSTHESIS : regex :=
  Eval vm_compute in
    rx (author ++ U "[., ]*" ++ year ++ U "[., ]*" ++ title ++ endmark
        ++ U " +" ++ pubaddrng ++ U "\. *" ++ mathesis ++ note).

Definition PHDTHESIS : regex :=
  Eval vm_compute in
    rx (author ++ U "[., ]*" ++ year ++ U "[., ]*" ++ title ++ endmark
        ++ U " +" ++ pubaddrng ++ U "\. *" ++ phdthesis ++ note).

Definition MISC : regex :=
  Eval vm_compute in
    rx (author ++ U "[., ]*" ++ year ++ U "[., ]*" ++ title_g ++ endmark
        ++ U " *" ++ note).

(** Year, then an editor marker: the gate of the in-collection grammars. *)
Definition EDITOR : regex :=
  Eval vm_compute in rx (year ++ U ".*" ++ ed).

Definition PUBADDR : regex := Eval vm_compute in rx pubaddr.

End bibpatterns.

(** ** Python dictionaries with string keys, in insertion order *)

Module Dict.

Section WithValue.

Context {V : Type}.

Definition dict : Type := list (pystr * V).

(** [d.get(k)] *)
Fixpoint get (k : pystr) (d : dict) : option V :=
  match d with
  | [] => None
  | (k', v) :: d' => if Str.eqb k' k then Some v else get k d'
  end.

(** [k in d] *)
Definition mem (k : pystr) (d : dict) : bool :=
  match get k d with
  | Some _ => true
  | None => false
  end.

(** [d[k] = v]: an existing key keeps its place, a new one goes last. *)
Fixpoint set (k : pystr) (v : V) (d : dict) : dict :=
  match d with
  | [] => [(k, v)]
  | (k', v') :: d' =>
    if Str.eqb k' k then (k', v) :: d' else (k', v') :: set k v d'
  end.

(** [del d[k]], also [d.pop(k, None)]: the binding of [k] goes away.  A
    Python dict binds a key at most once; on a list with several bindings of
    [k] all of them go. *)
Fixpoint del (k : pystr) (d : dict) : dict :=
  match d with
  | [] => []
  | (k', v') :: d' =>
    if Str.eqb k' k then del k d' else (k', v') :: del k d'
  end.

(** [d.update(e)] *)
Definition update (d e : dict) : dict :=
  fold_left (fun acc kv => set (fst kv) (snd kv) acc) e d.

End WithValue.

Arguments dict : clear implicits.

End Dict.

(** ** langsci.latex.delatex *)

Module delatex.

Local Abbreviation rx p := (the (compile false p)) (only parsing).

Definition LATEXDIACRITICS : pystr := U "'`^~" ++ [QUOTE] ++ U "=.vdHukcrb".

(** LaTeX diacritics like [{\'{e}}] *)
Definition braced_command_re : regex :=
  Eval vm_compute in rx (U "{\\[" ++ LATEXDIACRITICS ++ U "]{([A-Za-z])}}").

(** LaTeX diacritics like [\'{e}] *)
Definition command_braced_re : regex :=
  Eval vm_compute in rx (U "\\[" ++ LATEXDIACRITICS ++ U "]{([A-Za-z])}").

(** LaTeX diacritics like [\'e] *)
Definition command_re : regex :=
  Eval vm_compute in rx (U "\\[" ++ LATEXDIACRITICS ++ U "]([A-Za-z])").

Definition dediacriticize (s : pystr) (stripbraces : bool) : pystr :=
  let tmpstring := s in
  let tmpstring :=
    if stripbraces
    then sub braced_command_re (fun m => group_s m 1) tmpstring
    else tmpstring in
  let tmpstring := sub command_braced_re (fun m => group_s m 1) tmpstring in
  sub command_re (fun m => group_s m 1) tmpstring.

End delatex.

Import delatex.

(** ** langsci.bib.bibtools *)

Module bibtools.

Import bibpatterns.

Local Abbreviation rx p := (the (compile false p)) (only parsing).
Local Abbreviation rxi p := (the (compile true p)) (only parsing).

(** Truth value of an optional string: [None] and the empty string are
    false. *)
Definition truthy (o : option pystr) : bool :=
  match o with
  | Some (_ :: _) => true
  | _ => false
  end.

Definition nonempty (s : pystr) : bool :=
  match s with
  | [] => false
  | _ => true
  end.

(** Fields to exclude from the output *)
Definition excludefields : list pystr :=
  [ U "abstract"; U "language"; U "date-added"; U "date-modified";
    U "rating"; U "keywords"; U "issn"; U "timestamp"; U "owner";
    U "optannote"; U "optkey"; U "optmonth"; U "optnumber"; U "url_checked";
    U "optaddress"; U "eprinttype"; U "bdsk-file-1"; U "bdsk-file-2";
    U "bdsk-file-3"; U "bdsk-url-1"; U "bdsk-url-2"; U "bdsk-url-3" ].

Definition name_fields : list string :=
  [ "author"; "editor"; "bookauthor"; "translator" ]%string.

Definition trim_braces (s : pystr) : pystr :=
  if startswith (U "{") s && endswith (U "}") s
  then drop_last (drop 1 s)
  else s.

Definition add_braces (s : pystr) : pystr := U "{" ++ s ++ U "}".

(** [clean_and_brace_natural]: values that are [None] or empty are dropped,
    the others have their whitespace collapsed and are braced. *)
Fixpoint clean_and_brace_natural (d : Dict.dict (option pystr))
  : Dict.dict pystr :=
  match d with
  | [] => []
  | (k, v) :: d' =>
    match v with
    | Some (c :: v') =>
      let cleaned := join (U " ") (split_ws (strip (c :: v'))) in
      match cleaned with
      | [] => clean_and_brace_natural d'
      | _ => (k, add_braces cleaned) :: clean_and_brace_natural d'
      end
    | _ => clean_and_brace_natural d'
    end
  end.

Definition is_real_value (x : option pystr) : bool :=
  match x with
  | None => false
  | Some s =>
    if Str.eqb s [] then false
    else if Str.eqb s (U "{}") then false
    else if startswith (U "{\biberror{") s then false
    else true
  end.

Definition extract_url_re : regex :=
  Eval vm_compute in rx (U "(https?://[^ ]+)\.?$").

Definition extract_url (tail : pystr) : pystr * option pystr :=
  match search extract_url_re tail with
  | Some m =>
    (rstrip_chars (U " .,") (slice 0 (m_start m) tail), group m 1)
  | None => (tail, None)
  end.

Definition extract_doi_re : regex :=
  Eval vm_compute in
    rxi (U "(?:doi(?::| )\s*)?(10\.\d{4,9}/[-._;()/:A-Za-z0-9]+)\.?$").

Definition extract_doi (tail : pystr) : pystr * option pystr :=
  match search extract_doi_re tail with
  | Some m =>
    (rstrip_chars (U " .,") (slice 0 (m_start m) tail), group m 1)
  | None => (tail, None)
  end.

Definition extract_pubaddr_re : regex :=
  Eval vm_compute in rx (U "^(.+?)([.!?]) ([^:]+?): ([^:]+?)\.?$").

(** Returns the cleaned tail and the pairs to add to the dictionary. *)
Definition extract_pubaddr (tail : pystr)
  : pystr * Dict.dict (option pystr) :=
  match search extract_pubaddr_re tail with
  | Some m =>
    let cleaned_tail := group_s m 1 in
    let endmark := group_s m 2 in
    let cleaned_tail :=
      if contains endmark (U "!?") then cleaned_tail ++ endmark
      else cleaned_tail in
    (strip cleaned_tail,
     [ (U "address", Some (strip (group_s m 3)));
       (U "publisher", Some (strip (group_s m 4))) ])
  | None => (tail, [])
  end.

Definition extract_seriesnumber_re : regex :=
  Eval vm_compute in
    rx (U "^(?P<newtitle>.*?)\s*\((?P<series>.+?)\s+(?P<number>[-.0-9/]+)\)\s*$").

Definition extract_seriesnumber (tail : pystr)
  : pystr * option (Dict.dict (option pystr)) :=
  match search extract_seriesnumber_re tail with
  | Some m =>
    (strip_chars (U " .") (group_s m 1),
     Some [ (U "series", Some (strip (group_s m 2)));
            (U "number", Some (strip (group_s m 3))) ])
  | None => (tail, None)
  end.

Definition extract_pages_from_note_re : regex :=
  Eval vm_compute in rx (U "^ *" ++ pages ++ U "[ .,;:]*").

Definition extract_pages_from_note (note : option pystr)
  : option pystr * option pystr :=
  if negb (truthy note) then (None, note)
  else
    let n := match note with Some n => n | None => [] end in
    match rmatch_at extract_pages_from_note_re n with
    | Some m =>
      (Some (strip (group_s m 1)),
       Some (lstrip (drop (N.to_nat (m_end m)) n)))
    | None => (None, note)
    end.

Definition clean_booktitle_re : regex :=
  Eval vm_compute in rx (U "[.,]?\s*\(?\b(pp\.?|p\.)\b.*$").

Definition clean_booktitle (booktitle : pystr) : pystr :=
  strip (sub clean_booktitle_re (fun _ => []) booktitle).

Inductive exn : Type :=
| TypeError.

(** [get_hyphen(value)]; [value] is [None] when the article grammar matched
    a bare volume, and [h in None] raises [TypeError]. *)
Definition get_hyphen (value : option pystr) : exn + option pystr :=
  match value with
  | None => inl TypeError
  | Some v =>
    inr (if contains [ENDASH] v then Some [ENDASH]
         else if contains [EMDASH] v then Some [EMDASH]
         else if contains (U "-") v then Some (U "-")
         else None)
  end.

Definition is_joint_issue (value hyphen : pystr) : bool :=
  match split_on hyphen value with
  | [a; b] =>
    match py_int (strip a), py_int (strip b) with
    | Some first, Some second =>
      ((0 <? second - first) && (second - first <=? 3))%Z
    | _, _ => false
    end
  | _ => false
  end.

(** The attributes of a [Record].  [typ] is the empty string and [key] is
    [None] as long as the attribute is not set; both are set whenever
    [parsing_failed] is false.  The attribute [reporting] only drives
    printing and is left out. *)
Record record : Type := mkRecord {
  raw_entry : pystr;
  parsing_failed : bool;
  typ : pystr;
  key : option pystr;
  fields : Dict.dict pystr;
  errors : list pystr;
  restrict : bool;
  inkeysd : list pystr
}.

Definition set_failed (b : bool) (r : record) : record :=
  mkRecord (raw_entry r) b (typ r) (key r) (fields r) (errors r)
           (restrict r) (inkeysd r).

Definition set_typ (t : pystr) (r : record) : record :=
  mkRecord (raw_entry r) (parsing_failed r) t (key r) (fields r) (errors r)
           (restrict r) (inkeysd r).

Definition set_key (k : option pystr) (r : record) : record :=
  mkRecord (raw_entry r) (parsing_failed r) (typ r) k (fields r) (errors r)
           (restrict r) (inkeysd r).

Definition set_fields (d : Dict.dict pystr) (r : record) : record :=
  mkRecord (raw_entry r) (parsing_failed r) (typ r) (key r) d (errors r)
           (restrict r) (inkeysd r).

(** [self.errors.append(e)] *)
Definition err (e : pystr) (r : record) : record :=
  mkRecord (raw_entry r) (parsing_failed r) (typ r) (key r) (fields r)
           (errors r ++ [e]) (restrict r) (inkeysd r).

(** [self.fields.get(k)] *)
Definition getf (k : string) (r : record) : option pystr :=
  Dict.get (U k) (fields r).

(** [self.fields[k] = v] *)
Definition setf (k : string) (v : pystr) (r : record) : record :=
  set_fields (Dict.set (U k) v (fields r)) r.

(** [del self.fields[k]] *)
Definition delf (k : string) (r : record) : record :=
  set_fields (Dict.del (U k) (fields r)) r.

(** [k in self.fields] *)
Definition hasf (k : string) (r : record) : bool :=
  Dict.mem (U k) (fields r).

(** *** [Record.parse_bibtex] *)

Definition trailing_comma_re : regex :=
  Eval vm_compute in rx (U "\s*,\s*}$").

Definition line_split_re : regex :=
  Eval vm_compute in rx (U "(?<=\})[ \t]*,[ \t]*\n\s*").

Definition whitespace_re : regex := Eval vm_compute in rx (U "\s+").

Definition braced_value_re : regex :=
  Eval vm_compute in rx (U "^\s*(\w+)\s*=\s*\{\s*(.*?)\s*\}\s*,?\s*$").

Definition quoted_value_re : regex :=
  Eval vm_compute in
    rx (U "^\s*(\w+)\s*=\s*" ++ [QUOTE] ++ U "\s*([^" ++ [QUOTE] ++ U "]*?)\s*"
        ++ [QUOTE] ++ U "\s*,?\s*(.*)$").

Definition unbraced_value_re : regex :=
  Eval vm_compute in
    rx (U "^\s*(\w+)\s*=\s*([^,{}" ++ [QUOTE] ++ U "]*)\s*,?\s*(.*)$").

(** One pass of the [while line:] loop for a quoted or an unbraced value:
    [wrap] braces the quoted value and leaves the unbraced one as it is.
    The result is the new field map and the rest of the line, if the loop
    goes on. *)
Definition take_value (wrap : pystr -> pystr) (m : rmatch)
           (fs : Dict.dict pystr) : Dict.dict pystr * option pystr :=
  let field := lower (group_s m 1) in
  let value := group_s m 2 in
  let remainder := group_s m 3 in
  if nonempty value then
    if nonempty remainder
    then (Dict.set field (wrap value) fs, Some remainder)
    else (Dict.set field (wrap value) fs, None)
  else
    if nonempty remainder then (fs, Some remainder) else (fs, None).

(** The [while line:] loop of one line. *)
Fixpoint parse_line (fuel : nat) (line : pystr) (fs : Dict.dict pystr)
  : Dict.dict pystr :=
  match fuel with
  | O => fs
  | S f =>
    if negb (nonempty line) then fs
    else
      match rmatch_at braced_value_re line with
      | Some m =>
        let field := group_s m 1 in
        let value := group_s m 2 in
        if Str.eqb value [] then fs
        else Dict.set (lower field) (add_braces value) fs
      | None =>
        match rmatch_at quoted_value_re line with
        | Some m =>
          match take_value add_braces m fs with
          | (fs', Some remainder) => parse_line f remainder fs'
          | (fs', None) => fs'
          end
        | None =>
          match rmatch_at unbraced_value_re line with
          | Some m =>
            match take_value (fun v => v) m fs with
            | (fs', Some remainder) => parse_line f remainder fs'
            | (fs', None) => fs'
            end
          | None => fs
          end
        end
      end
  end.

Definition parse_lines (lines : list pystr) : Dict.dict pystr :=
  fold_left (fun fs line => parse_line (S (List.length line)) line fs) lines [].

(** The batch registry [keys]. *)
Definition registry : Type := Dict.dict bool.

(** The field/value lines of the body of an entry. *)
Definition entry_lines (body : pystr) : list pystr :=
  let remainder := strip body in
  let remainder := sub trailing_comma_re (fun _ => U "}") remainder in
  let lines := split line_split_re remainder in
  map (fun line => sub whitespace_re (fun _ => U " ") (strip line)) lines.

Definition parse_bibtex (s : pystr) (r : record) (keys : registry)
  : record * registry :=
  match rmatch_at TYPKEYFIELDS s with
  | None => (set_failed true r, keys)
  | Some m =>
    let r := set_typ (lower (group_s m 1)) r in
    let r := set_key (Some (group_s m 2)) r in
    let lines := entry_lines (group_s m 3) in
    if negb (existsb nonempty lines)
    then (set_failed true (err (U "No valid field/value lines found") r), keys)
    else
      let r := set_fields (parse_lines lines) r in
      let r :=
        match fields r with
        | [] => set_failed true (err (U "No fields parsed from BibTeX entry") r)
        | _ => r
        end in
      let r :=
        if Dict.mem (group_s m 2) keys
        then err (U "duplicate key " ++ group_s m 2) r
        else r in
      (r, Dict.set (group_s m 2) true keys)
  end.

(** *** [Record.parse_natural] *)

Definition ndict : Type := Dict.dict (option pystr).

Definition put (k : string) (v : option pystr) (d : ndict) : ndict :=
  Dict.set (U k) v d.

(** [d.get(k)] where the stored value may be [None]. *)
Definition nget (k : string) (d : ndict) : option pystr :=
  match Dict.get (U k) d with
  | Some v => v
  | None => None
  end.

(** [a or b] *)
Definition por (a b : option pystr) : option pystr :=
  if truthy a then a else b.

(** [tail if tail.strip() else None] *)
Definition unless_blank (tail : pystr) : option pystr :=
  if nonempty (strip tail) then Some tail else None.

(** URL, then DOI, taken from the end of [tail]. *)
Definition take_url_doi (tail : pystr) (d : ndict) : pystr * ndict :=
  let '(tail, url) := extract_url tail in
  let d := if truthy url then put "url" url d else d in
  let '(tail, doi) := extract_doi tail in
  let d := if truthy doi then put "doi" doi d else d in
  (tail, d).

Definition thesis_fields (rx : regex) (m : rmatch) : ndict :=
  let g := gname rx m in
  put "note" (g "note"%string)
  (put "school" (g "publisher"%string)
  (put "address" (g "address"%string)
  (put "extrayear" (g "extrayear"%string)
  (put "year" (g "year"%string)
  (put "endmark" (g "endmark"%string)
  (put "title" (g "title"%string)
  (put "author" (g "author"%string) []))))))).

Definition incollection_fields (rx : regex) (m : rmatch) (with_endmark1 : bool)
  : ndict :=
  let g := gname rx m in
  let d := put "author" (g "author"%string) [] in
  let d := put "editor" (g "editor"%string) d in
  let d := put "year" (g "year"%string) d in
  let d := put "extrayear" (g "extrayear"%string) d in
  let d := put "title" (g "title"%string) d in
  let d := put "endmark" (g "endmark"%string) d in
  let d := put "booktitle"
               (option_map clean_booktitle (g "booktitle"%string)) d in
  let d := if with_endmark1 then put "endmark1" (g "endmark1"%string) d else d in
  let d := put "pages" (g "pages"%string) d in
  let d := put "address" (g "address"%string) d in
  let d := put "publisher" (g "publisher"%string) d in
  let tail := match g "publisher"%string with Some t => t | None => [] end in
  let '(tail, d) := take_url_doi tail d in
  put "publisher"
      (if nonempty (strip tail) then Some (rstrip_chars (U " .") tail) else None)
      d.

Definition incollectionmissing_fields (m : rmatch) : ndict :=
  let g := gname INCOLLECTIONMISSING m in
  let d := put "author" (g "author"%string) [] in
  let d := put "editor" (g "editor"%string) d in
  let d := put "year" (g "year"%string) d in
  let d := put "extrayear" (g "extrayear"%string) d in
  let d := put "title" (g "title"%string) d in
  let d := put "endmark" (g "endmark"%string) d in
  let d := put "booktitle" (g "booktitle"%string) d in
  let tail := match g "booktitle"%string with Some t => t | None => [] end in
  let '(tail, d) := take_url_doi tail d in
  let '(tail, pubaddr) := extract_pubaddr tail in
  let d := Dict.update d pubaddr in
  put "booktitle" (unless_blank tail) d.

Definition article_fields (m : rmatch) : exn + ndict :=
  let g := gname ARTICLE m in
  let d := put "author" (g "author"%string) [] in
  let d := put "year" (g "year"%string) d in
  let d := put "extrayear" (g "extrayear"%string) d in
  let d := put "title" (g "title"%string) d in
  let d := put "endmark" (g "endmark"%string) d in
  let d := put "journal" (g "journal"%string) d in
  let volume := por (g "volume_paren"%string)
                    (por (g "volume_sep"%string) (g "volume_only"%string)) in
  let number := por (g "number_paren"%string) (g "number_sep"%string) in
  let pages := g "pages"%string in
  let note := g "note"%string in
  let d := put "volume" volume d in
  let d := if truthy number then put "number" number d else d in
  if truthy pages then inr (put "note" note (put "pages" pages d))
  else
    match get_hyphen number with
    | inl e => inl e
    | inr hyphen =>
      if truthy hyphen then
        let num := match number with Some n => n | None => [] end in
        let hy := match hyphen with Some h => h | None => [] end in
        let '(extracted_pages, cleaned_note) := extract_pages_from_note note in
        let is_joint := is_joint_issue num hy in
        if is_joint && truthy extracted_pages then
          inr (put "note" cleaned_note
                   (put "pages" extracted_pages (put "number" number d)))
        else if is_joint && negb (truthy extracted_pages) then
          inr (put "note" note (put "number" None (put "pages" number d)))
        else if negb is_joint && truthy extracted_pages then
          inr (put "note" cleaned_note
                   (put "pages"
                        (Some (num ++ U ", "
                               ++ match extracted_pages with
                                  | Some p => p
                                  | None => []
                                  end)) d))
        else
          inr (put "note" note (put "number" None (put "pages" number d)))
      else inr (put "note" note d)
    end.

Definition book_fields (m : rmatch) (editor_flag : bool) (has_pubaddr : bool)
  : ndict :=
  let g := gname BOOK m in
  let d := put "author" (g "author"%string) [] in
  let d := if editor_flag
           then put "author" None (put "editor" (g "author"%string) d)
           else d in
  let d := put "year" (g "year"%string) d in
  let d := put "extrayear" (g "extrayear"%string) d in
  let d := put "title" (g "title"%string) d in
  let tail := match g "title"%string with Some t => t | None => [] end in
  let '(tail, d) := take_url_doi tail d in
  let '(tail, d) :=
    if has_pubaddr
    then let '(tail, pubaddr) := extract_pubaddr tail in
         (tail, Dict.update d pubaddr)
    else (tail, d) in
  let '(tail, seriesnumber) := extract_seriesnumber tail in
  let d := match seriesnumber with
           | Some sn => Dict.update d sn
           | None => d
           end in
  put "title" (unless_blank tail) d.

Definition misc_fields (m : rmatch) : ndict :=
  let g := gname MISC m in
  put "note" (g "note"%string)
  (put "endmark" (g "endmark"%string)
  (put "title" (g "title"%string)
  (put "extrayear" (g "extrayear"%string)
  (put "year" (g "year"%string)
  (put "author" (g "author"%string) []))))).

Definition is_some {A : Type} (o : option A) : bool :=
  match o with
  | Some _ => true
  | None => false
  end.

(** The cascade of grammars: the type tag and the captured fields of the
    first grammar that takes the text.  When no branch is taken, or when the
    book grammar matches without an editor marker and without an
    [address: publisher] pair, the type stays [misc] and the dictionary stays
    empty. *)
Definition grammars (s : pystr) : exn + (pystr * ndict) :=
  match search MASTERSTHESIS s with
  | Some m => inr (U "mastersthesis", thesis_fields MASTERSTHESIS m)
  | None =>
  match search PHDTHESIS s with
  | Some m => inr (U "phdthesis", thesis_fields PHDTHESIS m)
  | None =>
  match (if is_some (search EDITOR s) then search INCOLLECTION s else None) with
  | Some m => inr (U "incollection", incollection_fields INCOLLECTION m true)
  | None =>
  match (if is_some (search EDITOR s) then search INCOLLECTIONPARENS s
         else None) with
  | Some m =>
    inr (U "incollection", incollection_fields INCOLLECTIONPARENS m false)
  | None =>
  match (if is_some (search EDITOR s) then search INCOLLECTIONMISSING s
         else None) with
  | Some m => inr (U "incollection", incollectionmissing_fields m)
  | None =>
  match search ARTICLE s with
  | Some m =>
    match article_fields m with
    | inl e => inl e
    | inr d => inr (U "article", d)
    end
  | None =>
  match rmatch_at BOOK s with
  | Some m =>
    let editor_flag := truthy (gname BOOK m "ed") in
    let has_pubaddr := is_some (search PUBADDR s) in
    if editor_flag || has_pubaddr
    then inr (U "book", book_fields m editor_flag has_pubaddr)
    else inr (U "misc", [])
  | None =>
  match search MISC s with
  | Some m => inr (U "misc", misc_fields m)
  | None => inr (U "misc", [])
  end end end end end end end end.

(** Find doi and url in note; clean note *)
Definition post_note (d : ndict) : ndict :=
  match nget "note" d with
  | Some note =>
    if nonempty (strip note) then
      let '(note, d) := take_url_doi note d in
      put "note"
          (if nonempty (strip_chars (U " .") note)
           then Some (strip_chars (U " .") note) else None) d
    else d
  | None => d
  end.

(** Restore the end mark [mark] to the field [target]. *)
Definition post_endmark (mark target : string) (d : ndict) : ndict :=
  if truthy (nget mark d) then
    let e := match nget mark d with Some e => e | None => [] end in
    let d :=
      if (Str.eqb e (U "!") || Str.eqb e (U "?")) && truthy (nget target d)
      then put target
               (Some (match nget target d with Some t => t | None => [] end
                      ++ e)) d
      else d in
    Dict.del (U mark) d
  else d.

(** Replace ampersand in author or editor *)
Definition post_amp (k : string) (d : ndict) : ndict :=
  match nget k d with
  | Some (c :: v) => put k (Some (replace (U " &") (U " and ") (c :: v))) d
  | _ => d
  end.

(** Find series and number in booktitle *)
Definition post_series (d : ndict) : ndict :=
  match nget "booktitle" d with
  | Some (c :: b) =>
    match extract_seriesnumber (c :: b) with
    | (tail, Some sn) => put "booktitle" (unless_blank tail) (Dict.update d sn)
    | (_, None) => d
    end
  | _ => d
  end.

(** Set key from author/editor, year, extrayear *)
Definition make_key (d : ndict) : pystr :=
  let author := nget "author" d in
  let editor := nget "editor" d in
  let '(creator, creatorpart) :=
    match author, editor with
    | Some (c :: a), _ =>
      (c :: a, replace (U " ") [] (hd [] (split_on (U ",") (c :: a))))
    | _, Some (c :: e) =>
      (c :: e, hd [] (split_on (U " ") (hd [] (split_on (U ",") (c :: e)))))
    | _, _ => ([], U "Anonymous")
    end in
  let yearpart :=
    match nget "year" d with
    | Some (c :: y) =>
      match Dict.get (U "extrayear") d with
      | None => take 4 (c :: y)
      | Some (Some e) => take 4 (c :: y) ++ e
      | Some None => U "9999"
      end
    | _ => U "9999"
    end in
  let andcount := count (U " and ") creator in
  let ampcount := count (U "&") creator in
  let authorcount := (1 + andcount + ampcount)%nat in
  let creatorpart :=
    if Nat.ltb 2 authorcount then creatorpart ++ U "EtAl" else creatorpart in
  let creatorpart :=
    if Nat.eqb authorcount 2 then
      let secondcreator := strip (last (split_on (U " and ") creator) []) in
      if contains (U ",") secondcreator
      then creatorpart ++ hd [] (split_on (U ",") secondcreator)
      else if contains (U " ") secondcreator
           then creatorpart ++ last (split_on (U " ") secondcreator) []
           else creatorpart ++ secondcreator
    else creatorpart in
  creatorpart ++ yearpart.

Definition parse_natural (s : pystr) (r : record) : exn + record :=
  let s := strip s in
  let r := set_key None (set_typ (U "misc") (set_failed false r)) in
  if negb (nonempty s) then inr (set_failed true r)
  else
    match grammars s with
    | inl e => inl e
    | inr (t, d) =>
      let r := set_typ t r in
      if parsing_failed r then inr r
      else
        let d := post_note d in
        let d := post_endmark "endmark" "title" d in
        let d := post_endmark "endmark1" "booktitle" d in
        let d := post_amp "author" d in
        let d := post_amp "editor" d in
        let d := post_series d in
        let k := make_key d in
        let d := Dict.del (U "extrayear") d in
        inr (set_fields (clean_and_brace_natural d) (set_key (Some k) r))
    end.

(** *** The serial field checks of [Record.conform] *)

(** [for x in xs: ...] over the record. *)
Definition for_each {A : Type} (xs : list A) (body : A -> record -> record)
           (r : record) : record :=
  fold_left (fun r x => body x r) xs r.

Definition or_empty (o : option pystr) : pystr :=
  match o with
  | Some s => s
  | None => []
  end.

Definition remap_alias (old new : string) (r : record) : record :=
  let old_val := getf old r in
  let new_val := getf new r in
  if is_real_value old_val then
    if negb (is_real_value new_val) then
      delf old
           (err (U "Remapped '" ++ U old ++ U "' to '" ++ U new ++ U "'")
                (setf new (or_empty old_val) r))
    else
      err (U "Both '" ++ U old ++ U "' and '" ++ U new
           ++ U "' present; no remap applied") r
  else r.

Definition remap_fields (r : record) : record :=
  let r := remap_alias "location" "address" r in
  let r := remap_alias "date" "year" r in
  let r := remap_alias "journaltitle" "journal" r in
  if Str.eqb (typ r) (U "inproceedings") then
    let eventtitle := getf "eventtitle" r in
    let booktitle := getf "booktitle" r in
    if is_real_value eventtitle && negb (is_real_value booktitle)
    then err (U "Remapped 'eventtitle' to 'booktitle'")
             (setf "booktitle" (or_empty eventtitle) r)
    else r
  else r.

Definition page_count_re : regex :=
  Eval vm_compute in rxi (U "^\d+\s*(pp\.?|pages)$").

Definition dash_re : regex :=
  Eval vm_compute in
    rx (U "\s*(?:-+|" ++ [FIGDASH] ++ U "|" ++ [ENDASH] ++ U "|" ++ [EMDASH]
        ++ U "|" ++ [MINUS] ++ U ")+\s*").

Definition semicolon_re : regex := Eval vm_compute in rx (U "\s*[;,]\s*").

Definition unit : pystr := U "(?:[a-zA-Z]?\d+|[ivxlcdm]+)".
Definition range_ : pystr := unit ++ U "--" ++ unit.
Definition entry : pystr := U "(?:" ++ unit ++ U "|" ++ range_ ++ U ")".

Definition pages_pattern : regex :=
  Eval vm_compute in rx (U "^" ++ entry ++ U "(?:, " ++ entry ++ U ")*$").

Definition range_Roman : regex :=
  Eval vm_compute in rx (U "^[IVXLCDM]+--[IVXLCDM]+$").

Definition range_capture : regex :=
  Eval vm_compute in rx (U "(" ++ unit ++ U ")--(" ++ unit ++ U ")").

(** The body of [checkpages] once the field [pages] is known to hold the
    non-blank value [braced]. *)
Definition checkpages_value (braced : pystr) (r : record) : record :=
  let pages := trim_braces braced in
  if Str.eqb pages [] then delf "pages" r
  else if Str.eqb (lower pages) (U "none") then delf "pages" r
  else if is_some (rmatch_at page_count_re pages) then delf "pages" r
  else
    let pages := sub dash_re (fun _ => U "--") pages in
    let pages := sub semicolon_re (fun _ => U ", ") pages in
    let pages := match rmatch_at ARTICLE_ID_RE pages with
                 | Some m => group_s m 1
                 | None => pages
                 end in
    let r := if negb (is_some (rmatch_at pages_pattern pages))
             then err (U "non-standard pages: " ++ pages) r
             else r in
    let r := if is_some (rmatch_at range_Roman pages)
             then err (U "capital Roman numerals in pages: " ++ pages) r
             else r in
    let r := match fullmatch range_capture pages with
             | Some m =>
               if Str.eqb (group_s m 1) (group_s m 2)
               then err (U "weird range: " ++ pages) r
               else r
             | None => r
             end in
    setf "pages" (add_braces pages) r.

Definition checkpages (r : record) : record :=
  let r := if hasf "page" r && negb (hasf "pages" r)
           then delf "page" (setf "pages" (or_empty (getf "page" r)) r)
           else r in
  match getf "pages" r with
  | None => r
  | Some braced =>
    if negb (nonempty (strip braced)) then r
    else checkpages_value braced r
  end.

Definition title_fields : list string :=
  [ "title"; "booktitle"; "subtitle"; "maintitle"; "mainsubtitle";
    "booksubtitle" ]%string.

Definition lone_capital_re : regex := Eval vm_compute in rx (U " ([A-Z]) ").

(** The proper-noun loop: [finditer] runs over the string as it is when the
    loop starts, and every match rewrites all occurrences of its text. *)
Definition protect_nouns (nouns : list pystr) (protected : pystr) : pystr :=
  fold_left
    (fun p m => let g := group_s m 1 in replace g (U "{" ++ g ++ U "}") p)
    (finditer (PRESERVATIONPATTERN nouns) protected)
    protected.

Definition protect_title (nouns : list pystr) (original : pystr) : pystr :=
  let protected := original in
  let protected :=
    sub MAINTITLE_RE
        (fun m => group_s m 1 ++ U " " ++ add_braces (upper (group_s m 2)))
        protected in
  let protected :=
    sub CAMELCASE_RE (fun m => U "{" ++ group_s m 1 ++ U "}") protected in
  let protected :=
    sub lone_capital_re (fun m => U " {{" ++ group_s m 1 ++ U "}} ") protected in
  let protected := protect_nouns nouns protected in
  if is_some (search PROCEEDINGS_RE protected)
  then add_braces protected
  else protected.

Definition decap_field (nouns : list pystr) (field : string) (r : record)
  : record :=
  match getf field r with
  | Some (c :: v) =>
    let original := trim_braces (c :: v) in
    let protected := protect_title nouns original in
    let r :=
      if is_some (search PROCEEDINGS_LC_RE protected)
      then err (U "Proper name of proceedings/conference not capitalized/protected?: "
                ++ protected) r
      else r in
    if negb (Str.eqb original protected)
    then setf field (add_braces protected) r
    else r
  | _ => r
  end.

Definition checkdecapitalization (nouns : list pystr) (r : record) : record :=
  let german :=
    match getf "langid" r with
    | Some langid =>
      let langid := trim_braces langid in
      Str.eqb langid (U "german") || Str.eqb langid (U "ngerman")
      || Str.eqb langid (U "de")
    | None => false
    end in
  if german then r
  else for_each title_fields (decap_field nouns) r.

Definition in_collection_like (t : pystr) : bool :=
  Str.eqb t (U "inproceedings") || Str.eqb t (U "incollection")
  || Str.eqb t (U "inbook").

Definition checkbooktitle (r : record) : record :=
  let title := getf "title" r in
  let booktitle := getf "booktitle" r in
  if negb (in_collection_like (typ r)) then
    if negb (is_real_value title) && is_real_value booktitle
    then delf "booktitle"
              (err (U "moved booktitle to title")
                   (setf "title" (or_empty booktitle) r))
    else r
  else r.

Definition trailing_re : regex :=
  Eval vm_compute in rx (U "^\{(.*?)[,:;. ]+\}$").

Definition leading_re : regex :=
  Eval vm_compute in rx (U "^\{[,:;. ]+(.*?)\}$").

Definition move_volume (fieldname : string) (r : record) : record :=
  match getf fieldname r with
  | None => r
  | Some value =>
    if negb (is_real_value (Some value)) then r
    else
      match search TITLEVOLUME_RE value with
      | None => r
      | Some m =>
        let volume_match := group_s m 3 in
        let volumepattern_match := group_s m 0 in
        let titlelike := replace volumepattern_match [] value in
        let titlelike := match search trailing_re titlelike with
                         | Some t => add_braces (group_s t 1)
                         | None => titlelike
                         end in
        let titlelike := match search leading_re titlelike with
                         | Some t => add_braces (group_s t 1)
                         | None => titlelike
                         end in
        if Str.eqb titlelike (U "{}")
        then err (U fieldname ++ U " is just " ++ value) r
        else
          match getf "volume" r with
          | Some volume =>
            let volume_old := trim_braces volume in
            if Str.eqb volume_old volume_match
            then err (U "deleted redundant volume in " ++ U fieldname)
                     (setf fieldname titlelike r)
            else err (U "mismatch: volume " ++ volume_old ++ U " but " ++ value) r
          | None =>
            err (U "Moved volume " ++ volume_match ++ U " from " ++ U fieldname)
                (setf "volume" (add_braces volume_match)
                      (setf fieldname titlelike r))
          end
      end
  end.

Definition checkvolumenumber (r : record) : record :=
  let r := if Str.eqb (typ r) (U "book") then move_volume "title" r else r in
  if Str.eqb (typ r) (U "incollection") || Str.eqb (typ r) (U "inproceedings")
     || Str.eqb (typ r) (U "inbook")
  then move_volume "booktitle" r
  else r.

Definition capcap_re : regex := Eval vm_compute in rx (U " [A-Z][A-Z] ").
Definition finalcapcap_re : regex := Eval vm_compute in rx (U " [A-Z][A-Z]}$").
Definition initials_dot_re : regex :=
  Eval vm_compute in rx (U "([A-Z])\.([A-Z])").
Definition initial_space_re : regex :=
  Eval vm_compute in rx (U " ([A-Z])(?= )").
Definition initial_final_re : regex := Eval vm_compute in rx (U " ([A-Z])}$").

Definition checkinitials_field (t : string) (r : record) : record :=
  let value := getf t r in
  if is_real_value value then
    let old := or_empty value in
    let value := sub initials_dot_re
                     (fun m => group_s m 1 ++ U ". " ++ group_s m 2) old in
    let value := sub initial_space_re
                     (fun m => U " " ++ group_s m 1 ++ U ".") value in
    let value := sub initial_final_re
                     (fun m => U " " ++ group_s m 1 ++ U ".}") value in
    let r := if is_some (search capcap_re value)
                || is_some (search finalcapcap_re value)
             then err (U "possible double initials: " ++ old) r
             else r in
    setf t value r
  else r.

Definition checkinitials (r : record) : record :=
  for_each name_fields checkinitials_field r.

Definition checkampersand_name (t : string) (r : record) : record :=
  let value := getf t r in
  if is_real_value value then
    let value := replace (U " & ") (U " and ") (or_empty value) in
    let value := replace (U " \& ") (U " and ") value in
    let r := setf t value r in
    if is_some (search AMP_RE value)
    then err (U "unescaped ampersand " ++ U t ++ U ": " ++ value) r
    else r
  else r.

Definition checkampersand_other (t : string) (r : record) : record :=
  let value := getf t r in
  if is_real_value value then
    let value := replace (U " & ") (U " \& ") (or_empty value) in
    let r := setf t value r in
    if is_some (search AMP_RE value)
    then err (U "unescaped ampersand " ++ U t ++ U ": " ++ value) r
    else r
  else r.

Definition ampersand_fields : list string :=
  [ "address"; "publisher"; "school"; "institution"; "journal"; "series";
    "title"; "booktitle"; "maintitle"; "subtitle";
    "volume"; "number"; "note"; "howpublished"; "addendum" ]%string.

Definition checkampersand (r : record) : record :=
  for_each ampersand_fields checkampersand_other
           (for_each name_fields checkampersand_name r).

Definition checkand_field (t : string) (r : record) : record :=
  let value := getf t r in
  if is_real_value value then
    let ands := count (U " and ") (or_empty value) in
    let commas := count (U ",") (or_empty value) in
    if Nat.ltb (ands + 1) commas
    then err (U "problem with commas in " ++ U t ++ U ": " ++ or_empty value) r
    else r
  else r.

Definition checkand (r : record) : record :=
  for_each name_fields checkand_field r.

Definition etal_re : regex := Eval vm_compute in rx (U " et\.? al").

Definition checketal_field (t : string) (r : record) : record :=
  let name := getf t r in
  if truthy name then
    if is_some (search etal_re (or_empty name)) then
      let value := sub etal_re (fun _ => U " \biberror{et al}") (or_empty name) in
      err (U "literal et al " ++ U t ++ U ": " ++ value) (setf t value r)
    else r
  else r.

Definition checketal (r : record) : record :=
  for_each name_fields checketal_field r.

Definition ordinal_map : list (pystr * pystr) :=
  [ (U "first", U "1"); (U "1st", U "1");
    (U "second", U "2"); (U "2nd", U "2");
    (U "third", U "3"); (U "3rd", U "3");
    (U "fourth", U "4"); (U "4th", U "4");
    (U "fifth", U "5"); (U "5th", U "5");
    (U "sixth", U "6"); (U "6th", U "6");
    (U "seventh", U "7"); (U "7th", U "7");
    (U "eighth", U "8"); (U "8th", U "8");
    (U "ninth", U "9"); (U "9th", U "9");
    (U "tenth", U "10"); (U "10th", U "10") ].

Definition edition_keywords : list pystr :=
  [ U "ed"; U "ed."; U "edn"; U "edn."; U "edition" ].

Definition checkedition (r : record) : record :=
  match getf "edition" r with
  | Some (c :: e) =>
    let raw := c :: e in
    let edn := lower (trim_braces raw) in
    let parts := split_ws edn in
    let candidate :=
      match parts with
      | [p] => Some p
      | [p; q] => if existsb (Str.eqb q) edition_keywords then Some p else None
      | _ => None
      end in
    let edn :=
      match candidate with
      | Some (x :: cand) =>
        if isdigit (x :: cand) then x :: cand
        else match Dict.get (x :: cand) ordinal_map with
             | Some n => n
             | None => edn
             end
      | _ => edn
      end in
    match py_int edn with
    | Some _ => setf "edition" (add_braces edn) r
    | None => err (U "incorrect format for edition: " ++ raw) r
    end
  | _ => r
  end.

Definition month_map : list (pystr * N) :=
  [ (U "jan", 1); (U "feb", 2); (U "mar", 3); (U "apr", 4); (U "may", 5);
    (U "jun", 6); (U "jul", 7); (U "aug", 8); (U "sep", 9); (U "oct", 10);
    (U "nov", 11); (U "dec", 12);
    (U "january", 1); (U "february", 2); (U "march", 3); (U "april", 4);
    (U "june", 6); (U "july", 7); (U "august", 8); (U "september", 9);
    (U "october", 10); (U "november", 11); (U "december", 12) ].

Definition checkmonth (r : record) : record :=
  match getf "month" r with
  | Some (c :: v) =>
    let raw := c :: v in
    if Str.eqb raw (U "{}") then delf "month" r
    else
      let cleaned := if contains (U "{") raw then trim_braces raw else raw in
      let cleaned := lower cleaned in
      let cleaned :=
        if startswith (U "0") cleaned && Nat.eqb (List.length cleaned) 2
        then drop 1 cleaned else cleaned in
      let cleaned := match Dict.get cleaned month_map with
                     | Some n => str_of_N n
                     | None => cleaned
                     end in
      match py_int cleaned with
      | Some n =>
        if ((1 <=? n) && (n <=? 12))%Z
        then setf "month" (add_braces cleaned) r
        else delf "month" (err (U "incorrect format for month: " ++ raw) r)
      | None => delf "month" (err (U "incorrect format for month: " ++ raw) r)
      end
  | _ => r
  end.

(** [match.lastindex]: the highest group that took part in the match. *)
Definition lastindex (m : rmatch) : nat :=
  fold_left (fun acc c => Nat.max acc (fst c)) (m_caps m) O.

Definition http_re : regex := Eval vm_compute in rx (U "http").

(** The part of [checkurl] under [if not braced_url]: [inl] is an early
    [return], [inr] goes on. *)
Definition checkurl_find (r : record) : record + record :=
  let from_handle :=
    match getf "handle" r with
    | Some braced_handle =>
      let handle := trim_braces braced_handle in
      match fullmatch HANDLE_RE handle with
      | Some m =>
        Some (delf "handle"
                   (setf "url"
                         (add_braces (U "http://hdl.handle.net/" ++ group_s m 1))
                         r))
      | None => None
      end
    | None => None
    end in
  match from_handle with
  | Some r' => inl r'
  | None =>
    let r :=
      match getf "stableurl" r with
      | Some braced_url => delf "stableurl" (setf "url" braced_url r)
      | None =>
        match getf "opturl" r with
        | Some braced_url => delf "opturl" (setf "url" braced_url r)
        | None => r
        end
      end in
    inr (for_each [ "note"; "addendum"; "annote" ]%string
           (fun note_field r =>
              match getf note_field r with
              | Some v =>
                if is_some (search http_re v)
                then err (U "URL found in " ++ U note_field ++ U ": " ++ v) r
                else r
              | None => r
              end) r)
  end.

(** The part of [checkurl] under [if url.count(" ") > 0]: [inl] is the early
    [return], [inr] carries the new [url].  The pattern [URL_URLDATE_RE] has
    a single group, so [lastindex] is at most 1 and the first branch is never
    taken. *)
Definition checkurl_space (url : pystr) (r : record)
  : record + (pystr * record) :=
  if Nat.ltb 0 (count (U " ") url) then
    let r := err (U "space in url") r in
    match search URL_URLDATE_RE url with
    | Some m =>
      if Nat.leb 2 (lastindex m) then
        let matched_url := group_s m 1 in
        let matched_urldate := group_s m 2 in
        match getf "urldate" r with
        | Some _ => inr (matched_url, r)
        | None => inr (matched_url, setf "urldate" (add_braces matched_urldate) r)
        end
      else
        match search URL_RE url with
        | Some m' => inr (group_s m' 1, r)
        | None =>
          inl (setf "url" (U "{\biberror{remove space and check url: " ++ url
                           ++ U "}}")
                    (err (U "url has space and nothing url-like: " ++ url) r))
        end
    | None =>
      match search URL_RE url with
      | Some m' => inr (group_s m' 1, r)
      | None =>
        inl (setf "url" (U "{\biberror{remove space and check url: " ++ url
                         ++ U "}}")
                  (err (U "url has space and nothing url-like: " ++ url) r))
      end
    end
  else inr (url, r).

(** The DOI of a URL by the whitelist of publishers or the generic pattern:
    [inl] is the early [return]. *)
Definition checkurl_whitelist (url : pystr) (r : record) : record + record :=
  let url_domain :=
    match rmatch_at DOMAIN_RE url with
    | Some dm => group dm 1
    | None => None
    end in
  if truthy url_domain then
    let doi_pattern := Dict.get (or_empty url_domain) DOI_WHITELIST_RE in
    let doi_match :=
      match doi_pattern with
      | Some p => search p url
      | None => search GENERIC_DOI_RE url
      end in
    match doi_match with
    | Some dm =>
      let doi := group_s dm 1 in
      let braced_doi := add_braces doi in
      match doi_pattern with
      | Some _ =>
        match getf "doi" r with
        | Some old =>
          if negb (Str.eqb (lower old) (lower braced_doi))
          then inr (err (U "DOI mismatch: extracted from URL (" ++ doi
                         ++ U ") differs from existing DOI (" ++ old ++ U ")") r)
          else inr (delf "url" r)
        | None =>
          inl (delf "url"
                 (err (U "DOI set from trusted URL: " ++ doi ++ U " via "
                       ++ or_empty url_domain)
                      (setf "doi" braced_doi r)))
        end
      | None =>
        inr (err (U "DOI-like string found in generic URL: " ++ doi
                  ++ U " from " ++ or_empty url_domain) r)
      end
    | None => inr r
    end
  else inr r.

Definition nonsites : list pystr :=
  [ U "ebrary"; U "degruyter"; U "myilibrary"; U "academia"; U "ebscohost";
    U "researchgate" ].

(** The end of [checkurl], from [# check if url *is* doi] on. *)
Definition checkurl_tail (url : pystr) (r : record) : record :=
  match fullmatch DOI_RE url with
  | Some m =>
    let extracted_doi := group_s m 1 in
    match getf "doi" r with
    | Some (c :: d) =>
      let existing_doi := trim_braces (c :: d) in
      if negb (Str.eqb (lower existing_doi) (lower extracted_doi))
      then err (U "DOI mismatch: extracted from URL field (" ++ extracted_doi
                ++ U ") differs from existing DOI field (" ++ existing_doi
                ++ U ")") r
      else delf "url" r
    | _ =>
      delf "url"
           (err (U "DOI set from URL field: " ++ extracted_doi)
                (setf "doi" (add_braces extracted_doi) r))
    end
  | None =>
    let r :=
      for_each nonsites
        (fun n r =>
           if contains n url
           then err (U "use url only for for true repositories or for material not available elsewhere: "
                     ++ url) r
           else r) r in
    if nonempty url then setf "url" (add_braces url) r else r
  end.

(** The body of [checkurl] once the field [url] is known to hold the
    non-empty value [braced_url]. *)
Definition checkurl_value (braced_url : pystr) (r : record) : record :=
  let url := trim_braces braced_url in
  let url := if endswith (U ".") url then drop_last url else url in
  if negb (nonempty url) then delf "url" r
  else if startswith (U "file:") url then delf "url" r
  else
    let r := if negb (startswith (U "http") url)
             then err (U "url does not start with http") r
             else r in
    match checkurl_space url r with
    | inl r' => r'
    | inr (url, r) =>
      let r := if Nat.ltb 0 (count (U ",") url)
               then err (U "comma in url: " ++ url) r
               else r in
      match checkurl_whitelist url r with
      | inl r' => r'
      | inr r => checkurl_tail url r
      end
    end.

Definition checkurl_main (r : record) : record :=
  match getf "url" r with
  | Some (c :: b) => checkurl_value (c :: b) r
  | _ => r
  end.

Definition checkurl (r : record) : record :=
  if truthy (getf "url" r) then checkurl_main r
  else
    match checkurl_find r with
    | inl r' => r'
    | inr r' => checkurl_main r'
    end.

(** [datetime.strptime(s, "%Y-%m-%d")] followed by
    [strftime("%Y-%m-%d")]: the directive patterns of [_strptime], the
    check for unconverted data, and the validity of the date.  The year is
    printed with four digits. *)
Definition strptime_re : regex :=
  Eval vm_compute in
    rxi (U "(?P<Y>\d\d\d\d)-(?P<m>1[0-2]|0[1-9]|[1-9])-(?P<d>3[0-1]|[1-2]\d|0[1-9]|[1-9]| [1-9])").

Definition is_leap (y : Z) : bool :=
  ((y mod 4 =? 0) && (negb (y mod 100 =? 0) || (y mod 400 =? 0)))%Z.

Definition days_in_month (y m : Z) : Z :=
  (if m =? 2 then (if is_leap y then 29 else 28)
   else if (m =? 4) || (m =? 6) || (m =? 9) || (m =? 11) then 30
   else 31)%Z.

Definition pad (width : nat) (s : pystr) : pystr :=
  repeat (ch "0") (width - List.length s) ++ s.

Definition reformat_date (s : pystr) : option pystr :=
  match rmatch_at strptime_re s with
  | Some m =>
    if negb (m_end m =? N.of_nat (List.length s)) then None
    else
      match py_int (group_s m 1), py_int (group_s m 2), py_int (group_s m 3) with
      | Some y, Some mo, Some d =>
        if ((1 <=? y) && (1 <=? d) && (d <=? days_in_month y mo))%Z
        then Some (pad 4 (str_of_N (Z.to_N y)) ++ U "-"
                   ++ pad 2 (str_of_N (Z.to_N mo)) ++ U "-"
                   ++ pad 2 (str_of_N (Z.to_N d)))
        else None
      | _, _, _ => None
      end
  | None => None
  end.

(** Scan a note-like field for ISO-like dates *)
Definition iso_date_in (field : string) (r : record) : record :=
  match getf field r with
  | Some (c :: v) =>
    let clean_text := trim_braces (c :: v) in
    if is_some (search ISO_DATE_RE clean_text)
    then err (U "ISO-like date found in " ++ U field ++ U ": " ++ clean_text) r
    else r
  | _ => r
  end.

Definition checkurldate (r : record) : record :=
  let url := getf "url" r in
  let urldate := getf "urldate" r in
  let r := if truthy urldate && negb (truthy url)
           then err (U "urldate exists but url is missing") r
           else r in
  let r :=
    if truthy urldate then
      let clean_date := trim_braces (or_empty urldate) in
      match reformat_date clean_date with
      | Some d => setf "urldate" (add_braces d) r
      | None => err (U "invalid urldate format: " ++ clean_date) r
      end
    else r in
  if Str.eqb (typ r) (U "misc") && truthy url && negb (truthy urldate)
  then for_each [ "note"; "addendum"; "annote" ]%string iso_date_in r
  else r.

Definition doi_label_re : regex := Eval vm_compute in rxi (U "\bdoi:\s*").
Definition doi_url_re : regex :=
  Eval vm_compute in rxi (U "\bhttps?://(?:dx\.)?doi\.org/").
Definition doi_org_re : regex := Eval vm_compute in rxi (U "\bdoi\.org/").

(** The part of [checkdoi] for a handle stored as a DOI: [inl] is an early
    [return]. *)
Definition checkdoi_handle (raw : pystr) (r : record) : record + record :=
  match fullmatch HANDLE_RE raw with
  | Some hm =>
    let handle := group_s hm 1 in
    let url := add_braces (U "https://hdl.handle.net/" ++ handle) in
    match getf "url" r with
    | Some old =>
      if Str.eqb old url
      then inl (err (U "Deleted handle in doi; keep matching url: " ++ url)
                    (delf "doi" r))
      else inr (err (U "Possible handle in doi doesn't match url; check both: doi = "
                     ++ raw ++ U ", url = " ++ url) r)
    | None =>
      inl (err (U "Handle detected in doi and converted to URL: " ++ handle)
               (setf "url" url (delf "doi" r)))
    end
  | None => inr r
  end.

(** The body of [checkdoi] once the field [doi] is known to hold the
    non-empty value [braced]. *)
Definition checkdoi_value (braced : pystr) (r : record) : record :=
  let raw := trim_braces braced in
  let original := raw in
  let raw := if endswith (U ".") raw then drop_last raw else raw in
  let raw := replace (U "\_") (U "_") raw in
  let raw := sub doi_label_re (fun _ => []) raw in
  let raw := sub doi_url_re (fun _ => []) raw in
  let raw := sub doi_org_re (fun _ => []) raw in
  match fullmatch DOI_RE raw with
  | Some m =>
    let doi := group_s m 1 in
    let r := setf "doi" (add_braces doi) r in
    if negb (Str.eqb doi original)
    then err (U "DOI extracted and normalized: " ++ doi) r
    else r
  | None =>
    match checkdoi_handle raw r with
    | inl r' => r'
    | inr r =>
      if startswith (U "http") (lower raw) then
        match search DOI_RE raw with
        | Some dm =>
          let doi := group_s dm 1 in
          let braced_doi := add_braces doi in
          match getf "url" r with
          | Some url =>
            if contains doi url
            then err (U "fix doi, delete similar: " ++ doi)
                     (delf "url" (setf "doi" braced_doi r))
            else err (U "fix doi, keep url: check both: url = " ++ url
                      ++ U ", doi = " ++ raw)
                     (setf "doi" braced_doi r)
          | None =>
            err (U "DOI extracted from URL-like string: " ++ doi)
                (setf "doi" braced_doi r)
          end
        | None =>
          err (U "delete url-like doi that doesnt' have a DOI: " ++ raw)
              (delf "doi" r)
        end
      else err (U "Invalid DOI: " ++ raw) (delf "doi" r)
    end
  end.

Definition checkdoi (r : record) : record :=
  match getf "doi" r with
  | Some (c :: v) => checkdoi_value (c :: v) r
  | _ => r
  end.

Definition checkbookisthesis (r : record) : record :=
  if negb (Str.eqb (typ r) (U "book")) then r
  else
    (fix loop (fs : list string) : record :=
       match fs with
       | [] => r
       | field :: fs' =>
         let value := getf field r in
         if is_real_value value && is_some (search THESIS_RE (or_empty value))
         then err (U "possible thesis indicator in " ++ U field ++ U ": "
                   ++ or_empty value) r
         else loop fs'
       end) [ "publisher"; "url"; "note" ]%string.

Definition checkquestionmarks (r : record) : record :=
  fold_left
    (fun r fv =>
       if nonempty (snd fv) && contains (U "??") (snd fv)
       then err (U "?? in " ++ fst fv) r
       else r)
    (fields r) r.

(** *** The entry checks by type *)

Definition handleerror (m : string) (r : record) : record :=
  if negb (truthy (getf m r))
  then err (U "missing " ++ U m) (setf m (U "{\biberror{no " ++ U m ++ U "}}") r)
  else r.

(** [addsortname] is paused in the source and changes nothing. *)
Definition addsortname (r : record) : record := r.

Definition requirepages (r : record) : record :=
  if negb (truthy (getf "pages" r)) then
    if negb (truthy (getf "url" r)) && negb (truthy (getf "doi" r))
    then handleerror "pages" r
    else err (U "no pages") r
  else r.

Definition thesis_type_re : regex :=
  Eval vm_compute in rx (U "\s.*?(Thesis|Dissertation)").

Definition is_thesis_type (t : pystr) : bool :=
  Str.eqb t (U "phdthesis") || Str.eqb t (U "mastersthesis")
  || Str.eqb t (U "thesis").

Definition checkthesis (r : record) : record :=
  if negb (is_thesis_type (typ r)) then r
  else
    let r :=
      match getf "school" r, getf "institution" r with
      | None, Some inst => delf "institution" (setf "school" inst r)
      | _, _ => r
      end in
    let r :=
      match getf "school" r with
      | Some school =>
        match Dict.get school SCHOOL_FULL with
        | Some full => setf "school" full r
        | None => r
        end
      | None => r
      end in
    let r :=
      match getf "address" r, getf "school" r with
      | None, Some school =>
        match Dict.get school SCHOOL_ADDRESS with
        | Some address => setf "address" address r
        | None => r
        end
      | _, _ => r
      end in
    let r := for_each [ "author"; "title"; "address"; "school"; "year" ]%string
                      handleerror r in
    let r := addsortname r in
    let r := if Str.eqb (typ r) (U "thesis") then handleerror "type" r else r in
    match getf "type" r with
    | Some (c :: t) =>
      if is_some (search thesis_type_re (c :: t))
      then err (U "type field may be in Title Case: " ++ (c :: t)) r
      else r
    | _ => r
    end.

Definition checkpublisheraddress (r : record) : record :=
  let address := match getf "address" r with Some a => a | None => [] end in
  let publisher := match getf "publisher" r with Some p => p | None => [] end in
  let '(publisher, r) :=
    if nonempty publisher then
      let r := if contains (U ": ") publisher
               then err (U "separate address from publisher: " ++ publisher) r
               else r in
      match Dict.get publisher PUBLISHER_FULL with
      | Some full => (full, setf "publisher" full r)
      | None => (publisher, r)
      end
    else (publisher, r) in
  if nonempty address then
    if contains (U ", ") address
    then err (U "use one place only: " ++ address) r
    else r
  else
    let publisher_lower := lower publisher in
    match find (fun sa => existsb (fun sub => contains sub publisher_lower)
                                  (fst sa))
               PUBLISHER_ADDRESS with
    | Some (_, addr) => setf "address" addr r
    | None => r
    end.

Definition checkbook (r : record) : record :=
  if negb (Str.eqb (typ r) (U "book")) then r
  else
    let r := checkpublisheraddress r in
    let r := for_each [ "year"; "title"; "address"; "publisher" ]%string
                      handleerror r in
    let r :=
      match getf "series" r with
      | Some _ =>
        match getf "volume" r, getf "number" r with
        | Some volume, None => delf "volume" (setf "number" volume r)
        | _, _ => r
        end
      | None => r
      end in
    let author := getf "author" r in
    let editor := getf "editor" r in
    let r :=
      if truthy author && truthy editor
      then addsortname (err (U "both author and editor") r)
      else if truthy author || truthy editor then addsortname r
      else handleerror "author" (err (U "no author or editor") r) in
    if is_real_value (getf "pages" r)
    then err (U "book shouldn't have pages") r
    else r.

Definition checkarticle (r : record) : record :=
  if negb (Str.eqb (typ r) (U "article")) then r
  else
    let r :=
      match getf "volume" r, getf "number" r with
      | None, Some number => delf "number" (setf "volume" number r)
      | _, _ => r
      end in
    let r := for_each [ "author"; "year"; "title"; "journal"; "volume" ]%string
                      handleerror r in
    let r := addsortname r in
    requirepages r.

Definition checkincollection (r : record) : record :=
  if negb (Str.eqb (typ r) (U "incollection")) then r
  else
    let r := checkpublisheraddress r in
    let r := handleerror "author" r in
    let r := addsortname r in
    let r := handleerror "title" r in
    let r := requirepages r in
    let has_crossref := hasf "crossref" r in
    let booktitle := match getf "booktitle" r with Some b => b | None => [] end in
    let is_proceedings := is_some (search PROCEEDINGS_FUZZY_RE booktitle) in
    let r :=
      if is_proceedings
      then err (U "booktitle suggests proceedings: use @inproceedings for proceedings") r
      else r in
    if has_crossref then r
    else
      let r := handleerror "year" r in
      if nonempty booktitle then
        if negb is_proceedings
        then for_each [ "editor"; "publisher"; "address" ]%string handleerror r
        else r
      else
        for_each [ "booktitle"; "editor"; "publisher"; "address" ]%string
                 handleerror r.

Definition checkinproceedings (r : record) : record :=
  if negb (Str.eqb (typ r) (U "inproceedings")) then r
  else
    let r := checkpublisheraddress r in
    let r := handleerror "author" r in
    let r := addsortname r in
    let r := handleerror "title" r in
    let r := requirepages r in
    if negb (hasf "crossref" r)
    then handleerror "year" (handleerror "booktitle" r)
    else r.

(** [f"{x}"] for a value that may be [None]. *)
Definition fmt (o : option pystr) : pystr :=
  match o with
  | Some s => s
  | None => U "None"
  end.

Definition checkinbook (r : record) : record :=
  if negb (Str.eqb (typ r) (U "inbook")) then r
  else
    let r := checkpublisheraddress r in
    let r := handleerror "author" r in
    let r := addsortname r in
    let r := handleerror "title" r in
    let r :=
      if negb (truthy (getf "chapter" r)) && negb (truthy (getf "pages" r))
      then handleerror "pages"
             (handleerror "chapter"
                (err (U "@inbook entry must have either 'chapter' or 'pages'") r))
      else r in
    if hasf "crossref" r then r
    else
      let r := handleerror "year" r in
      let r := handleerror "booktitle" r in
      let editor := getf "editor" r in
      let bookauthor := getf "bookauthor" r in
      let author := getf "author" r in
      let r :=
        if truthy editor && truthy bookauthor then
          err (U "@inbook has bookauthor and editor. Is the entry really @incollection for a chapter by "
               ++ fmt author ++ U " in book edited by " ++ fmt editor ++ U ", "
               ++ U "or @inbook for a contribution by " ++ fmt author
               ++ U " in a book authored by " ++ fmt bookauthor ++ U "?") r
        else if truthy editor && negb (truthy bookauthor) then
          err (U "If " ++ fmt editor
               ++ U " is really the editor of the book, then use @incollection instead of @inbook. "
               ++ U "If " ++ fmt editor
               ++ U " is actually the author of the book, then use the 'bookauthor' field instead.")
              r
        else if negb (truthy editor) && negb (truthy bookauthor) then
          handleerror "bookauthor" (err (U "Who is the author of the book?") r)
        else r in
      for_each [ "publisher"; "address" ]%string handleerror r.

Definition checkmisc (r : record) : record :=
  if negb (Str.eqb (typ r) (U "misc")) then r
  else
    let r := for_each [ "author"; "title"; "year" ]%string handleerror r in
    match getf "note" r, getf "howpublished" r with
    | None, None => err (U "no note or howpublished") r
    | _, _ => r
    end.

Definition known_types : list pystr :=
  [ U "article"; U "book"; U "inbook"; U "incollection"; U "inproceedings";
    U "thesis"; U "phdthesis"; U "mastersthesis"; U "misc" ].

Definition checkothertype (r : record) : record :=
  if existsb (Str.eqb (typ r)) known_types then r
  else
    let r := for_each [ "author"; "title"; "year" ]%string handleerror r in
    let r := addsortname r in
    checkpublisheraddress r.

(** *** [Record.conform] *)

(** Field checks, serially *)
Definition serial_checks (nouns : list pystr) (r : record) : record :=
  let r := remap_fields r in
  let r := checkpages r in
  let r := checkbooktitle r in
  let r := checkvolumenumber r in
  let r := checkinitials r in
  let r := checkampersand r in
  let r := checketal r in
  let r := checkand r in
  let r := checkedition r in
  let r := checkurl r in
  let r := checkurldate r in
  let r := checkdoi r in
  let r := checkquestionmarks r in
  let r := checkbookisthesis r in
  let r := checkmonth r in
  checkdecapitalization nouns r.

(** Entry checks by BibTeX type *)
Definition type_checks (r : record) : record :=
  let r := checkarticle r in
  let r := checkthesis r in
  let r := checkbook r in
  let r := checkincollection r in
  let r := checkinproceedings r in
  let r := checkinbook r in
  let r := checkmisc r in
  checkothertype r.

Definition conform (nouns : list pystr) (r : record) : record :=
  type_checks (serial_checks nouns r).

(** *** [Record.bibtex] *)

(** A stable sort: [x] goes in front of the first element that is not
    strictly before it. *)
Fixpoint insert_by {A : Type} (before : A -> A -> bool) (x : A) (l : list A)
  : list A :=
  match l with
  | [] => [x]
  | y :: l' => if before y x then y :: insert_by before x l' else x :: y :: l'
  end.

Definition sorted_by {A : Type} (before : A -> A -> bool) (l : list A)
  : list A :=
  fold_right (insert_by before) [] l.

(** The fields that are written, in the order of the output. *)
Definition rendered_fields (r : record) : list (pystr * pystr) :=
  filter (fun fv => negb (existsb (Str.eqb (fst fv)) excludefields))
         (sorted_by (fun a b => Str.ltb (fst a) (fst b)) (fields r)).

Definition bibtex (r : record) : pystr :=
  if parsing_failed r then []
  else if restrict r
          && negb (match key r with
                   | Some k => existsb (Str.eqb k) (inkeysd r)
                   | None => false
                   end)
  then []
  else
    let s :=
      U "@" ++ typ r ++ U "{" ++ fmt (key r) ++ U "," ++ [NL; TAB]
      ++ join (U "," ++ [NL; TAB])
              (map (fun fv => fst fv ++ U " = " ++ snd fv) (rendered_fields r))
      ++ [NL] ++ U "}" in
    replace (U ",,") (U ",") s.

(** *** [Record.__init__] *)

Definition new_record (s : pystr) (inkeysd : list pystr) (restrict : bool)
  : record :=
  mkRecord s false [] None [] [] restrict inkeysd.

Definition Record (nouns : list pystr) (s : pystr) (bibtexformat : bool)
           (inkeysd : list pystr) (restrict : bool) (keys : registry)
  : (exn + record) * registry :=
  let r0 := new_record s inkeysd restrict in
  if bibtexformat then
    let '(r, keys) := parse_bibtex s r0 keys in
    (inr (if parsing_failed r then r else conform nouns r), keys)
  else
    match parse_natural s r0 with
    | inl e => (inl e, keys)
    | inr r => (inr (if parsing_failed r then r else conform nouns r), keys)
    end.

(** *** [normalize] *)

Definition entry_split_re : regex := Eval vm_compute in rx (U "\n\s*@").

(** The candidate entries of a document and its preamble. *)
Definition input_entries (s : pystr) (bibtexformat : bool)
  : list pystr * pystr :=
  if bibtexformat then
    let bibtex_entries := split entry_split_re s in
    if startswith (U "@") s then
      (match bibtex_entries with
       | [] => []
       | e :: es => lstrip_chars (U "@") e :: es
       end, [])
    else
      (tl bibtex_entries, strip (hd [] bibtex_entries))
  else
    (map (fun line => strip (sub whitespace_re (fun _ => U " ") line))
         (filter (fun line => nonempty (strip line)) (splitlines s)), []).

(** The loop over the entries: an exception of [Record] is reported and
    raised again, which ends the loop and [normalize]. *)
Fixpoint process_entries (nouns : list pystr) (entries : list pystr)
         (bibtexformat : bool) (inkeysd : list pystr) (restrict : bool)
         (keys : registry) : (exn + list record) * registry :=
  match entries with
  | [] => (inr [], keys)
  | e :: es =>
    match Record nouns e bibtexformat inkeysd restrict keys with
    | (inl x, keys') => (inl x, keys')
    | (inr r, keys') =>
      match process_entries nouns es bibtexformat inkeysd restrict keys' with
      | (inl x, keys'') => (inl x, keys'')
      | (inr rs, keys'') => (inr (r :: rs), keys'')
      end
    end
  end.

Definition key_or_empty (r : record) : pystr := or_empty (key r).

(** Reverse order by type, then alphabetical order by key *)
Definition sort_records (parsed_records : list record) : list record :=
  let records_by_key :=
    sorted_by (fun a b => Str.ltb (key_or_empty a) (key_or_empty b))
              parsed_records in
  sorted_by (fun a b => Str.ltb (typ b) (typ a)) records_by_key.

Definition assemble (processed_records : list record) (preamble : pystr)
           (bibtexformat : bool) : pystr :=
  let nonparsed := filter parsing_failed processed_records in
  let parsing_failure :=
    join [NL; NL]
         (map (fun r => if bibtexformat then U "@" ++ raw_entry r
                        else raw_entry r) nonparsed) in
  let parsed_records :=
    filter (fun r => negb (parsing_failed r)) processed_records in
  let sorted_records := sort_records parsed_records in
  let output :=
    join [NL; NL] (filter nonempty (map bibtex sorted_records)) in
  let output :=
    if nonempty preamble then preamble ++ [NL; NL] ++ output else output in
  match nonparsed with
  | [] => output
  | _ => parsing_failure ++ [NL; NL] ++ output
  end.

Definition normalize (nouns : list pystr) (s : pystr) (inkeysd : list pystr)
           (restrict : bool) (bibtexformat : bool) (keys : registry)
  : (exn + pystr) * registry :=
  let s := strip s in
  let '(entries, preamble) := input_entries s bibtexformat in
  match process_entries nouns entries bibtexformat inkeysd restrict keys with
  | (inl x, keys') => (inl x, keys')
  | (inr processed_records, keys') =>
    (inr (assemble processed_records preamble bibtexformat), keys')
  end.

End bibtools.

Import bibtools.

(** * Properties *)

(** ** Strings and dictionaries *)

Lemma eqb_eq (a b : pystr) : Str.eqb a b = true <-> a = b.
Proof.
  revert b; induction a as [|x a IH]; intros [|y b]; simpl; split;
    try discriminate; try reflexivity.
  - intros H. apply andb_prop in H as [H1 H2].
    apply N.eqb_eq in H1. apply IH in H2. congruence.
  - intros H. injection H as -> ->. rewrite N.eqb_refl. simpl.
    now apply IH.
Qed.

Lemma eqb_refl (a : pystr) : Str.eqb a a = true.
Proof. now apply eqb_eq. Qed.

Lemma eqb_neq (a b : pystr) : Str.eqb a b = false <-> a <> b.
Proof.
  split.
  - intros H E. apply eqb_eq in E. congruence.
  - intros H. destruct (Str.eqb a b) eqn:E; [|reflexivity].
    apply eqb_eq in E. contradiction.
Qed.

Lemma eqb_sym (a b : pystr) : Str.eqb a b = Str.eqb b a.
Proof.
  destruct (Str.eqb a b) eqn:E.
  - apply eqb_eq in E. subst. symmetry. apply eqb_refl.
  - destruct (Str.eqb b a) eqn:E'; [|reflexivity].
    apply eqb_eq in E'. subst. rewrite eqb_refl in E. discriminate.
Qed.

Lemma U_inj (a b : string) : U a = U b -> a = b.
Proof.
  revert b; induction a as [|x a IH]; intros [|y b]; simpl;
    try discriminate; try reflexivity.
  intros H. injection H as Hx Hs.
  apply (f_equal ascii_of_N) in Hx. rewrite !ascii_N_embedding in Hx.
  f_equal; auto.
Qed.

Section DictFacts.

Context {V : Type}.
Implicit Types (d : Dict.dict V) (k : pystr) (v : V).

Lemma get_set_same d k v : Dict.get k (Dict.set k v d) = Some v.
Proof.
  induction d as [|[k' v'] d IH]; simpl.
  - now rewrite eqb_refl.
  - destruct (Str.eqb k' k) eqn:E; simpl; rewrite E; auto.
Qed.

Lemma get_set_other d k k0 v :
  Str.eqb k0 k = false -> Dict.get k (Dict.set k0 v d) = Dict.get k d.
Proof.
  intros Hne. induction d as [|[k' v'] d IH]; simpl.
  - now rewrite Hne.
  - destruct (Str.eqb k' k0) eqn:E; simpl.
    + apply eqb_eq in E. subst k'. now rewrite Hne.
    + destruct (Str.eqb k' k); auto.
Qed.

Lemma get_del_same d k : Dict.get k (Dict.del k d) = None.
Proof.
  induction d as [|[k' v'] d IH]; simpl; auto.
  destruct (Str.eqb k' k) eqn:E; simpl; auto. now rewrite E.
Qed.

Lemma get_del_other d k k0 :
  Str.eqb k0 k = false -> Dict.get k (Dict.del k0 d) = Dict.get k d.
Proof.
  intros Hne. induction d as [|[k' v'] d IH]; simpl; auto.
  destruct (Str.eqb k' k0) eqn:E; simpl.
  - apply eqb_eq in E. subst k'. now rewrite Hne.
  - destruct (Str.eqb k' k); auto.
Qed.

Lemma get_In d k v : Dict.get k d = Some v -> In (k, v) d.
Proof.
  induction d as [|[k' v'] d IH]; simpl; [discriminate|].
  destruct (Str.eqb k' k) eqn:E.
  - apply eqb_eq in E. intros H. injection H as ->. subst. now left.
  - intros H. right. auto.
Qed.

End DictFacts.

(** ** Records: what a check may change *)

Lemma getf_setf_same k v r : getf k (setf k v r) = Some v.
Proof. unfold getf, setf. simpl. apply get_set_same. Qed.

Lemma getf_setf_other k k0 v r :
  k0 <> k -> getf k (setf k0 v r) = getf k r.
Proof.
  intros H. unfold getf, setf. simpl. apply get_set_other.
  apply eqb_neq. intros E. apply U_inj in E. contradiction.
Qed.

Lemma getf_delf_same k r : getf k (delf k r) = None.
Proof. unfold getf, delf. simpl. apply get_del_same. Qed.

Lemma getf_delf_other k k0 r :
  k0 <> k -> getf k (delf k0 r) = getf k r.
Proof.
  intros H. unfold getf, delf. simpl. apply get_del_other.
  apply eqb_neq. intros E. apply U_inj in E. contradiction.
Qed.

Lemma getf_err k e r : getf k (err e r) = getf k r.
Proof. reflexivity. Qed.

(** [touches K r r']: from [r] to [r'] only fields named in [K] may have
    changed, diagnostics were only appended, and the other attributes are
    the same. *)
Record touches (K : list string) (r r' : record) : Prop := mkTouches {
  t_raw : raw_entry r' = raw_entry r;
  t_failed : parsing_failed r' = parsing_failed r;
  t_typ : typ r' = typ r;
  t_key : key r' = key r;
  t_restrict : restrict r' = restrict r;
  t_inkeysd : inkeysd r' = inkeysd r;
  t_errors : exists l, errors r' = errors r ++ l;
  t_fields : forall k, ~ In k K -> getf k r' = getf k r
}.

Lemma touches_refl K r : touches K r r.
Proof. constructor; auto. exists []. now rewrite app_nil_r. Qed.

Lemma touches_trans K r1 r2 r3 :
  touches K r1 r2 -> touches K r2 r3 -> touches K r1 r3.
Proof.
  intros [a1 a2 a3 a4 a5 a6 [l1 a7] a8] [b1 b2 b3 b4 b5 b6 [l2 b7] b8].
  constructor; try congruence.
  - exists (l1 ++ l2). rewrite b7, a7. now rewrite app_assoc.
  - intros k Hk. rewrite b8, a8; auto.
Qed.

Lemma touches_weaken K K' r r' :
  incl K K' -> touches K r r' -> touches K' r r'.
Proof.
  intros Hi [a1 a2 a3 a4 a5 a6 a7 a8]. constructor; auto;
    intros k Hk; apply a8; intros Hin; apply Hk; now apply Hi.
Qed.

Lemma touches_setf K k v r0 r :
  In k K -> touches K r0 r -> touches K r0 (setf k v r).
Proof.
  intros Hin H. eapply touches_trans; [exact H|].
  constructor; auto.
  - exists []. simpl. now rewrite app_nil_r.
  - intros k' Hk'. apply getf_setf_other. intros ->. contradiction.
Qed.

Lemma touches_delf K k r0 r :
  In k K -> touches K r0 r -> touches K r0 (delf k r).
Proof.
  intros Hin H. eapply touches_trans; [exact H|].
  constructor; auto.
  - exists []. simpl. now rewrite app_nil_r.
  - intros k' Hk'. apply getf_delf_other. intros ->. contradiction.
Qed.

Lemma touches_err K e r0 r : touches K r0 r -> touches K r0 (err e r).
Proof.
  intros H. eapply touches_trans; [exact H|].
  constructor; auto. now exists [e].
Qed.

Lemma touches_step K K' (f : record -> record) r0 r :
  (forall x, touches K' x (f x)) -> incl K' K ->
  touches K r0 r -> touches K r0 (f r).
Proof.
  intros Hf Hi H. eapply touches_trans; [exact H|].
  eapply touches_weaken; [exact Hi|apply Hf].
Qed.

Ltac in_keys := simpl; repeat first [left; reflexivity | right].

Ltac incl_keys :=
  let a := fresh "a" in
  let H := fresh "H" in
  intros a H; simpl in H;
  repeat (destruct H as [H|H]; [subst a; in_keys|]);
  contradiction.

Create HintDb touch.

(** One step of a proof of [touches]: the last operation on the record.  A
    record bound by [let] is handled once and then stands for any record
    reached from the first one. *)
Ltac touch_step :=
  lazymatch goal with
  | |- touches ?K ?r0 ?t =>
    first
      [ constr_eq r0 t; apply touches_refl
      | lazymatch t with
        | (let x := ?X in @?b x) =>
          let g := eval cbv beta in (b X) in
          lazymatch type of X with
          | record =>
            let H := fresh "H" in
            let x' := fresh "r" in
            assert (H : touches K r0 X);
            [|change (touches K r0 g); set (x' := X) in *; clearbody x']
          | _ => change (touches K r0 g)
          end
        | setf _ _ _ => apply touches_setf; [in_keys|]
        | delf _ _ => apply touches_delf; [in_keys|]
        | err _ _ => apply touches_err
        | (if ?c then _ else _) => destruct c eqn:?
        | (match ?x with _ => _ end) => destruct x eqn:?
        | ?f ?r =>
          eapply (touches_step _ _ f); [solve [eauto with touch]|incl_keys|]
        end ]
  end.

Ltac touch_known :=
  match goal with
  | H : touches ?K ?a ?b |- touches ?K ?a ?b => exact H
  end.

Ltac touch := repeat first [touch_known | touch_step].

Lemma handleerror_touches m r : touches [m] r (handleerror m r).
Proof. cbv beta iota delta [handleerror]. touch. Qed.
#[export] Hint Resolve handleerror_touches : touch.

Lemma remap_alias_touches old new r :
  touches [old; new] r (remap_alias old new r).
Proof. cbv beta iota delta [remap_alias]. touch. Qed.
#[export] Hint Resolve remap_alias_touches : touch.

Lemma remap_fields_touches r :
  touches ["location"; "address"; "date"; "year"; "journaltitle"; "journal";
           "booktitle"]%string r (remap_fields r).
Proof. cbv beta iota delta [remap_fields]. touch. Qed.

Lemma checkpages_value_touches b r :
  touches ["page"; "pages"]%string r (checkpages_value b r).
Proof. cbv beta iota delta [checkpages_value]. touch. Qed.
#[export] Hint Resolve checkpages_value_touches : touch.

Lemma checkpages_touches r : touches ["page"; "pages"]%string r (checkpages r).
Proof. cbv beta iota delta [checkpages]. touch. Qed.

Lemma checkbooktitle_touches r :
  touches ["title"; "booktitle"]%string r (checkbooktitle r).
Proof. cbv beta iota delta [checkbooktitle]. touch. Qed.

Lemma move_volume_touches f r : touches [f; "volume"%string] r (move_volume f r).
Proof. cbv beta iota delta [move_volume]. touch. Qed.
#[export] Hint Resolve move_volume_touches : touch.

Lemma checkvolumenumber_touches r :
  touches ["title"; "booktitle"; "volume"]%string r (checkvolumenumber r).
Proof. cbv beta iota delta [checkvolumenumber]. touch. Qed.

Lemma checkinitials_field_touches t r :
  touches [t] r (checkinitials_field t r).
Proof. cbv beta iota delta [checkinitials_field]. touch. Qed.
#[export] Hint Resolve checkinitials_field_touches : touch.

Lemma checkinitials_touches r : touches name_fields r (checkinitials r).
Proof. cbv beta iota delta [checkinitials for_each name_fields fold_left]. touch. Qed.

Lemma checkampersand_name_touches t r :
  touches [t] r (checkampersand_name t r).
Proof. cbv beta iota delta [checkampersand_name]. touch. Qed.
#[export] Hint Resolve checkampersand_name_touches : touch.

Lemma checkampersand_other_touches t r :
  touches [t] r (checkampersand_other t r).
Proof. cbv beta iota delta [checkampersand_other]. touch. Qed.
#[export] Hint Resolve checkampersand_other_touches : touch.

Lemma checkampersand_touches r :
  touches (name_fields ++ ampersand_fields) r (checkampersand r).
Proof.
  cbv beta iota delta [checkampersand for_each name_fields ampersand_fields fold_left app]. touch.
Qed.

Lemma checketal_field_touches t r : touches [t] r (checketal_field t r).
Proof. cbv beta iota delta [checketal_field]. touch. Qed.
#[export] Hint Resolve checketal_field_touches : touch.

Lemma checketal_touches r : touches name_fields r (checketal r).
Proof. cbv beta iota delta [checketal for_each name_fields fold_left]. touch. Qed.

Lemma checkand_field_touches t r : touches [] r (checkand_field t r).
Proof. cbv beta iota delta [checkand_field]. touch. Qed.
#[export] Hint Resolve checkand_field_touches : touch.

Lemma checkand_touches r : touches [] r (checkand r).
Proof. cbv beta iota delta [checkand for_each name_fields fold_left]. touch. Qed.

Lemma checkedition_touches r : touches ["edition"]%string r (checkedition r).
Proof. cbv beta iota delta [checkedition]. touch. Qed.

Definition url_keys : list string :=
  ["url"; "handle"; "stableurl"; "opturl"; "urldate"; "doi"]%string.

(** Case analysis on the innermost scrutinee of the goal. *)
Ltac destruct_inner :=
  match goal with
  | |- context [match ?x with _ => _ end] =>
    lazymatch x with
    | context [match _ with _ => _ end] => fail
    | _ => destruct x eqn:?
    end
  end.

Lemma fold_err_touches {A : Type} (c : A -> bool) (e : A -> pystr)
      (l : list A) (r : record) :
  touches [] r (fold_left (fun r x => if c x then err (e x) r else r) l r).
Proof.
  revert r. induction l as [|x l IH]; intros r; simpl.
  - apply touches_refl.
  - eapply touches_trans; [|apply IH].
    destruct (c x); [apply touches_err|]; apply touches_refl.
Qed.

Lemma checkurl_find_touches r0 r :
  touches url_keys r0 r ->
  match checkurl_find r with
  | inl r' => touches url_keys r0 r'
  | inr r' => touches url_keys r0 r'
  end.
Proof.
  intros H. cbv beta iota delta [checkurl_find for_each url_keys fold_left].
  cbv zeta. repeat destruct_inner; touch; exact H.
Qed.

Lemma checkurl_space_touches r0 url r :
  touches url_keys r0 r ->
  match checkurl_space url r with
  | inl r' => touches url_keys r0 r'
  | inr (_, r') => touches url_keys r0 r'
  end.
Proof.
  intros H. cbv beta iota delta [checkurl_space url_keys].
  cbv zeta. repeat destruct_inner; touch; exact H.
Qed.

Lemma checkurl_whitelist_touches r0 url r :
  touches url_keys r0 r ->
  match checkurl_whitelist url r with
  | inl r' => touches url_keys r0 r'
  | inr r' => touches url_keys r0 r'
  end.
Proof.
  intros H. cbv beta iota delta [checkurl_whitelist url_keys].
  cbv zeta. repeat destruct_inner; touch; exact H.
Qed.

Lemma checkurl_tail_touches url r : touches url_keys r (checkurl_tail url r).
Proof.
  cbv beta iota delta [checkurl_tail].
  destruct (fullmatch bibpatterns.DOI_RE url); [unfold url_keys; touch|].
  cbv zeta. cbv beta iota delta [for_each].
  match goal with
  | |- context [fold_left ?f ?l ?x] =>
    assert (H : touches url_keys r (fold_left f l x))
  end.
  { eapply touches_weaken;
      [|apply (fold_err_touches (fun n => contains n url))].
    intros a []. }
  destruct (nonempty url); [|exact H].
  apply touches_setf; [unfold url_keys; in_keys|exact H].
Qed.
#[export] Hint Resolve checkurl_tail_touches : touch.

Lemma checkurl_value_touches b r : touches url_keys r (checkurl_value b r).
Proof.
  cbv beta iota delta [checkurl_value]. cbv zeta.
  set (url := if endswith (U ".") (trim_braces b)
              then drop_last (trim_braces b)
              else trim_braces b).
  destruct (negb (nonempty url)); [unfold url_keys; touch|].
  destruct (startswith (U "file:") url); [unfold url_keys; touch|].
  set (r1 := if negb (startswith (U "http") url) then _ else r).
  assert (H1 : touches url_keys r r1) by (subst r1; touch).
  pose proof (checkurl_space_touches r url r1 H1) as H2.
  destruct (checkurl_space url r1) as [r'|[url' r2]]; [exact H2|].
  set (r3 := if Nat.ltb 0 (count (U ",") url') then _ else r2).
  assert (H3 : touches url_keys r r3) by (subst r3; touch; exact H2).
  pose proof (checkurl_whitelist_touches r url' r3 H3) as H4.
  destruct (checkurl_whitelist url' r3) as [r'|r4]; [exact H4|].
  eapply touches_trans; [exact H4|]. apply checkurl_tail_touches.
Qed.
#[export] Hint Resolve checkurl_value_touches : touch.

Lemma checkurl_main_touches r : touches url_keys r (checkurl_main r).
Proof.
  cbv beta iota delta [checkurl_main].
  destruct (getf "url" r) as [[|c b]|]; try apply touches_refl.
  apply checkurl_value_touches.
Qed.
#[export] Hint Resolve checkurl_main_touches : touch.

Lemma checkurl_touches r : touches url_keys r (checkurl r).
Proof.
  cbv beta iota delta [checkurl].
  destruct (truthy (getf "url" r)); [apply checkurl_main_touches|].
  pose proof (checkurl_find_touches r r (touches_refl _ _)) as H.
  destruct (checkurl_find r) as [r'|r']; [exact H|].
  eapply touches_trans; [exact H|]. apply checkurl_main_touches.
Qed.

Lemma iso_date_in_touches field r : touches [] r (iso_date_in field r).
Proof. cbv beta iota delta [iso_date_in]. touch. Qed.
#[export] Hint Resolve iso_date_in_touches : touch.

Lemma checkurldate_touches r : touches ["urldate"]%string r (checkurldate r).
Proof.
  cbv beta iota delta [checkurldate]. cbv zeta.
  match goal with
  | |- context [if truthy (getf "urldate" r) then ?a else ?b] =>
    set (r2 := if truthy (getf "urldate" r) then a else b)
  end.
  assert (H : touches ["urldate"]%string r r2) by (subst r2; touch).
  destruct (_ && _ && _); [|exact H].
  cbv beta iota delta [for_each fold_left]. touch; exact H.
Qed.

Lemma checkdoi_handle_touches r0 raw r :
  touches ["doi"; "url"]%string r0 r ->
  match checkdoi_handle raw r with
  | inl r' => touches ["doi"; "url"]%string r0 r'
  | inr r' => touches ["doi"; "url"]%string r0 r'
  end.
Proof.
  intros H. cbv beta iota delta [checkdoi_handle]. cbv zeta.
  repeat destruct_inner; touch; exact H.
Qed.

Lemma checkdoi_value_touches b r :
  touches ["doi"; "url"]%string r (checkdoi_value b r).
Proof.
  cbv beta iota delta [checkdoi_value]. cbv zeta.
  match goal with
  | |- context [fullmatch bibpatterns.DOI_RE ?raw] =>
    set (raw' := raw); destruct (fullmatch bibpatterns.DOI_RE raw')
  end; [touch|].
  pose proof (checkdoi_handle_touches r raw' r (touches_refl _ _)) as H.
  destruct (checkdoi_handle raw' r) as [r'|r']; [exact H|].
  touch; exact H.
Qed.

Lemma checkdoi_touches r : touches ["doi"; "url"]%string r (checkdoi r).
Proof.
  cbv beta iota delta [checkdoi].
  destruct (getf "doi" r) as [[|c v]|]; try apply touches_refl.
  apply checkdoi_value_touches.
Qed.

Lemma checkquestionmarks_touches r : touches [] r (checkquestionmarks r).
Proof.
  cbv beta iota delta [checkquestionmarks].
  apply (fold_err_touches
           (fun fv => nonempty (snd fv) && contains (U "??") (snd fv))
           (fun fv => U "?? in " ++ fst fv)).
Qed.

Lemma checkbookisthesis_touches r : touches [] r (checkbookisthesis r).
Proof. cbv beta iota delta [checkbookisthesis]. touch. Qed.

Lemma checkmonth_touches r : touches ["month"]%string r (checkmonth r).
Proof. cbv beta iota delta [checkmonth]. touch. Qed.

Lemma decap_field_touches nouns f r :
  touches [f] r (decap_field nouns f r).
Proof. cbv beta iota delta [decap_field]. touch. Qed.
#[export] Hint Resolve decap_field_touches : touch.

Lemma checkdecapitalization_touches nouns r :
  touches title_fields r (checkdecapitalization nouns r).
Proof.
  cbv beta iota delta [checkdecapitalization for_each title_fields fold_left].
  touch.
Qed.

Lemma requirepages_touches r : touches ["pages"]%string r (requirepages r).
Proof. cbv beta iota delta [requirepages]. touch. Qed.
#[export] Hint Resolve requirepages_touches : touch.

Lemma checkpublisheraddress_touches r :
  touches ["publisher"; "address"]%string r (checkpublisheraddress r).
Proof.
  cbv beta iota delta [checkpublisheraddress]. cbv zeta.
  repeat destruct_inner; touch.
Qed.
#[export] Hint Resolve checkpublisheraddress_touches : touch.

Lemma checkarticle_touches r :
  touches ["volume"; "number"; "author"; "year"; "title"; "journal"; "pages"]%string
          r (checkarticle r).
Proof.
  cbv beta iota delta [checkarticle addsortname for_each fold_left]. touch.
Qed.

Lemma checkthesis_touches r :
  touches ["school"; "institution"; "address"; "author"; "title"; "year";
           "type"]%string r (checkthesis r).
Proof.
  cbv beta iota delta [checkthesis addsortname for_each fold_left]. touch.
Qed.

Lemma checkbook_touches r :
  touches ["publisher"; "address"; "year"; "title"; "number"; "volume";
           "author"]%string r (checkbook r).
Proof.
  cbv beta iota delta [checkbook addsortname for_each fold_left]. touch.
Qed.

Lemma checkincollection_touches r :
  touches ["publisher"; "address"; "author"; "title"; "pages"; "year";
           "editor"; "booktitle"]%string r (checkincollection r).
Proof.
  cbv beta iota delta [checkincollection addsortname for_each fold_left]. touch.
Qed.

Lemma checkinproceedings_touches r :
  touches ["publisher"; "address"; "author"; "title"; "pages"; "year";
           "booktitle"]%string r (checkinproceedings r).
Proof.
  cbv beta iota delta [checkinproceedings addsortname for_each fold_left]. touch.
Qed.

Lemma checkinbook_touches r :
  touches ["publisher"; "address"; "author"; "title"; "chapter"; "pages";
           "year"; "booktitle"; "bookauthor"]%string r (checkinbook r).
Proof.
  cbv beta iota delta [checkinbook addsortname for_each fold_left]. touch.
Qed.

Lemma checkmisc_touches r :
  touches ["author"; "title"; "year"]%string r (checkmisc r).
Proof. cbv beta iota delta [checkmisc for_each fold_left]. touch. Qed.

Lemma checkothertype_touches r :
  touches ["author"; "title"; "year"; "publisher"; "address"]%string r
          (checkothertype r).
Proof.
  cbv beta iota delta [checkothertype addsortname for_each fold_left]. touch.
Qed.

(** ** The page check on given values (claim C5) *)

Lemma set_set {V : Type} (d : Dict.dict V) k v v' :
  Dict.set k v' (Dict.set k v d) = Dict.set k v' d.
Proof.
  induction d as [|[k0 v0] d IH]; simpl.
  - now rewrite eqb_refl.
  - destruct (Str.eqb k0 k) eqn:E; simpl; rewrite E; [reflexivity|].
    now rewrite IH.
Qed.

Lemma setf_setf k v v' r : setf k v' (setf k v r) = setf k v' r.
Proof. unfold setf, set_fields. simpl. now rewrite set_set. Qed.

Lemma hasf_setf k v r : hasf k (setf k v r) = true.
Proof.
  unfold hasf, Dict.mem. fold (getf k (setf k v r)).
  now rewrite getf_setf_same.
Qed.

(** With a non-blank [pages] field the check is the body
    [checkpages_value] on that value. *)
Lemma checkpages_setf v r :
  nonempty (strip v) = true ->
  checkpages (setf "pages" v r) = checkpages_value v (setf "pages" v r).
Proof.
  intros H. cbv beta delta [checkpages]. rewrite hasf_setf.
  cbn [negb]. rewrite andb_false_r. cbv zeta.
  rewrite getf_setf_same, H. reflexivity.
Qed.

(** Appending the diagnostics [es] in turn. *)
Definition errs (es : list pystr) (r : record) : record :=
  fold_left (fun r e => err e r) es r.

Lemma errs_setf es k v r : errs es (setf k v r) = setf k v (errs es r).
Proof.
  revert r. induction es as [|e es IH]; intros r; simpl; [reflexivity|].
  unfold errs in *. simpl. now rewrite <- IH.
Qed.

Lemma checkpages_on v v' es r :
  nonempty (strip v) = true ->
  (forall x, checkpages_value v x = setf "pages" v' (errs es x)) ->
  checkpages (setf "pages" v r) = setf "pages" v' (errs es r).
Proof.
  intros Hv H. rewrite checkpages_setf by exact Hv.
  rewrite H, errs_setf. apply setf_setf.
Qed.

Ltac pages_example :=
  apply checkpages_on; [reflexivity|intros x; vm_compute; reflexivity].

(** C5, as the code has it.  For every entry whose [pages] field is
    [{12-14}], or the same with an en dash or an em dash, the page check
    stores [{12--14}] and records nothing.  The value [{pp. 12-14}] keeps its
    prefix: it becomes [{pp. 12--14}] and is flagged as non-standard.  The
    value [{12--12}] is flagged as a weird range, and [{II--IV}] is flagged
    for its capital Roman numerals (and as non-standard). *)
Theorem checkpages_examples (r : record) :
  checkpages (setf "pages" (U "{12-14}") r)
  = setf "pages" (U "{12--14}") r
  /\ checkpages (setf "pages" (U "{12" ++ [ENDASH] ++ U "14}") r)
     = setf "pages" (U "{12--14}") r
  /\ checkpages (setf "pages" (U "{12" ++ [EMDASH] ++ U "14}") r)
     = setf "pages" (U "{12--14}") r
  /\ checkpages (setf "pages" (U "{pp. 12-14}") r)
     = setf "pages" (U "{pp. 12--14}")
            (err (U "non-standard pages: pp. 12--14") r)
  /\ checkpages (setf "pages" (U "{12--12}") r)
     = setf "pages" (U "{12--12}") (err (U "weird range: 12--12") r)
  /\ checkpages (setf "pages" (U "{II--IV}") r)
     = setf "pages" (U "{II--IV}")
            (err (U "capital Roman numerals in pages: II--IV")
                 (err (U "non-standard pages: II--IV") r)).
Proof.
  repeat split.
  - apply (checkpages_on _ _ []); [reflexivity|].
    intros x; vm_compute; reflexivity.
  - apply (checkpages_on _ _ []); [reflexivity|].
    intros x; vm_compute; reflexivity.
  - apply (checkpages_on _ _ []); [reflexivity|].
    intros x; vm_compute; reflexivity.
  - apply (checkpages_on _ _ [U "non-standard pages: pp. 12--14"]);
      [reflexivity|].
    intros x; vm_compute; reflexivity.
  - apply (checkpages_on _ _ [U "weird range: 12--12"]); [reflexivity|].
    intros x; vm_compute; reflexivity.
  - apply (checkpages_on _ _ [U "non-standard pages: II--IV";
                              U "capital Roman numerals in pages: II--IV"]);
      [reflexivity|].
    intros x; vm_compute; reflexivity.
Qed.

(** An entry with nothing but a [pages] field. *)
Definition pages_only (v : pystr) : record :=
  setf "pages" v (new_record [] [] false).

(** The value [pp. 12-14] does not normalize to the value of [12-14]. *)
Lemma checkpages_pp_differs :
  getf "pages" (checkpages (pages_only (U "{12-14}")))
  = Some (U "{12--14}")
  /\ getf "pages" (checkpages (pages_only (U "{pp. 12-14}")))
     = Some (U "{pp. 12--14}")
  /\ getf "pages" (checkpages (pages_only (U "{pp. 12-14}")))
     <> getf "pages" (checkpages (pages_only (U "{12-14}"))).
Proof.
  split; [vm_compute; reflexivity|].
  split; [vm_compute; reflexivity|].
  vm_compute. discriminate.
Qed.

(** ** The order of the output (claim C9) *)

Lemma ltb_irrefl (a : pystr) : Str.ltb a a = false.
Proof.
  induction a as [|x a IH]; simpl; [reflexivity|].
  now rewrite N.ltb_irrefl, N.eqb_refl, IH.
Qed.

Lemma ltb_trans (a b c : pystr) :
  Str.ltb a b = true -> Str.ltb b c = true -> Str.ltb a c = true.
Proof.
  revert b c; induction a as [|x a IH]; intros [|y b] [|z c]; simpl;
    try discriminate; auto.
  intros H1 H2.
  apply orb_true_iff in H1. apply orb_true_iff in H2. apply orb_true_iff.
  destruct H1 as [H1|H1]; destruct H2 as [H2|H2].
  - left. apply N.ltb_lt in H1, H2. apply N.ltb_lt. lia.
  - apply andb_prop in H2 as [E _]. apply N.eqb_eq in E. subst. now left.
  - apply andb_prop in H1 as [E _]. apply N.eqb_eq in E. subst. now left.
  - apply andb_prop in H1 as [E1 L1]. apply andb_prop in H2 as [E2 L2].
    apply N.eqb_eq in E1, E2. subst. right. rewrite N.eqb_refl. simpl.
    eapply IH; eauto.
Qed.

Lemma ltb_total (a b : pystr) :
  Str.ltb a b = false -> Str.ltb b a = false -> a = b.
Proof.
  revert b; induction a as [|x a IH]; intros [|y b]; simpl;
    try discriminate; auto.
  intros H1 H2.
  apply orb_false_iff in H1 as [L1 R1]. apply orb_false_iff in H2 as [L2 R2].
  apply N.ltb_ge in L1, L2. assert (x = y) by lia. subst y.
  rewrite N.eqb_refl in R1, R2. simpl in R1, R2. f_equal. auto.
Qed.

(** [a <= b] on strings, as [not (b < a)], is transitive. *)
Lemma leb_trans (a b c : pystr) :
  Str.ltb b a = false -> Str.ltb c b = false -> Str.ltb c a = false.
Proof.
  intros H1 H2. destruct (Str.ltb c a) eqn:E; [|reflexivity].
  destruct (Str.ltb a b) eqn:E2.
  - rewrite (ltb_trans _ _ _ E E2) in H2. discriminate.
  - assert (a = b) by (apply ltb_total; assumption). subst.
    congruence.
Qed.

Section Sorting.

Context {A : Type}.
Variables (major minor : A -> pystr).

(** First pass: ascending by [minor].  Second pass: descending by [major];
    being stable, it leaves equal [major]s in the order of the first pass. *)
Definition by_minor (a b : A) : bool := Str.ltb (minor a) (minor b).
Definition by_major_rev (a b : A) : bool := Str.ltb (major b) (major a).

Definition minor_le (a b : A) : Prop := Str.ltb (minor b) (minor a) = false.

(** The order of the result: a larger [major] first, and for equal [major]s
    the smaller [minor] first. *)
Definition lex_le (a b : A) : Prop :=
  Str.ltb (major b) (major a) = true
  \/ (major a = major b /\ Str.ltb (minor b) (minor a) = false).

Lemma insert_by_perm (before : A -> A -> bool) x l :
  Permutation (x :: l) (insert_by before x l).
Proof.
  induction l as [|y l IH]; simpl; [reflexivity|].
  destruct (before y x); [|reflexivity].
  rewrite perm_swap. now apply perm_skip.
Qed.

Lemma sorted_by_perm (before : A -> A -> bool) l :
  Permutation l (sorted_by before l).
Proof.
  induction l as [|x l IH]; simpl; [reflexivity|].
  rewrite <- insert_by_perm. now apply perm_skip.
Qed.

Lemma insert_minor_sorted x l :
  StronglySorted minor_le l ->
  StronglySorted minor_le (insert_by by_minor x l).
Proof.
  induction 1 as [|y l Hs IH Hy]; simpl.
  - repeat constructor.
  - unfold by_minor at 1. destruct (Str.ltb (minor y) (minor x)) eqn:E.
    + constructor; [exact IH|].
      eapply Permutation_Forall; [apply insert_by_perm|].
      constructor; [|exact Hy].
      unfold minor_le. destruct (Str.ltb (minor x) (minor y)) eqn:E2; auto.
      pose proof (ltb_trans _ _ _ E E2) as C. rewrite ltb_irrefl in C.
      discriminate.
    + constructor; [constructor; assumption|].
      constructor; [exact E|].
      eapply Forall_impl; [|exact Hy].
      intros z Hz. unfold minor_le in *. eapply leb_trans; eauto.
Qed.

Lemma sorted_by_minor l : StronglySorted minor_le (sorted_by by_minor l).
Proof.
  induction l as [|x l IH]; simpl; [constructor|].
  now apply insert_minor_sorted.
Qed.

(** Inserting [x], which is [minor]-below everything in [l], keeps [l]
    sorted in the order of the result. *)
Lemma insert_major_sorted x l :
  Forall (minor_le x) l ->
  StronglySorted lex_le l ->
  StronglySorted lex_le (insert_by by_major_rev x l).
Proof.
  intros Hx Hs. induction Hs as [|y l Hs IH Hy]; simpl.
  - repeat constructor.
  - apply Forall_cons_iff in Hx as [Hxy Hxl].
    unfold by_major_rev at 1.
    destruct (Str.ltb (major x) (major y)) eqn:E.
    + constructor; [now apply IH|].
      eapply Permutation_Forall; [apply insert_by_perm|].
      constructor; [|exact Hy]. now left.
    + assert (Hxy' : lex_le x y).
      { unfold lex_le. destruct (Str.ltb (major y) (major x)) eqn:E2; auto.
        right. split; [|exact Hxy]. now apply ltb_total. }
      constructor; [constructor; assumption|].
      constructor; [exact Hxy'|].
      apply Forall_forall. intros z Hz.
      pose proof (proj1 (Forall_forall _ _) Hy z Hz) as Hyz.
      pose proof (proj1 (Forall_forall _ _) Hxl z Hz) as Hxz.
      unfold lex_le in *.
      assert (Hzy : Str.ltb (major y) (major z) = false).
      { destruct Hyz as [Hyz|[Hyz _]].
        - destruct (Str.ltb (major y) (major z)) eqn:E3; auto.
          pose proof (ltb_trans _ _ _ Hyz E3) as C.
          rewrite ltb_irrefl in C. discriminate.
        - rewrite Hyz. apply ltb_irrefl. }
      assert (Hzx : Str.ltb (major x) (major z) = false)
        by (eapply leb_trans; eauto).
      destruct (Str.ltb (major z) (major x)) eqn:E4; auto.
      right. split; [|exact Hxz]. now apply ltb_total.
Qed.

Lemma sorted_by_major l :
  StronglySorted minor_le l ->
  StronglySorted lex_le (sorted_by by_major_rev l).
Proof.
  induction 1 as [|x l Hs IH Hx]; simpl; [constructor|].
  apply insert_major_sorted; [|exact IH].
  eapply Permutation_Forall; [apply sorted_by_perm|exact Hx].
Qed.

(** The two passes together sort by [major] downwards, then by [minor]
    upwards, and keep every element. *)
Lemma two_pass_sorted l :
  StronglySorted lex_le (sorted_by by_major_rev (sorted_by by_minor l))
  /\ Permutation l (sorted_by by_major_rev (sorted_by by_minor l)).
Proof.
  split.
  - apply sorted_by_major, sorted_by_minor.
  - rewrite <- sorted_by_perm. apply sorted_by_perm.
Qed.

End Sorting.

(** The order of the entries in the output of [normalize]: the type tag
    downwards, and for the same type tag the key upwards. *)
Definition record_order : record -> record -> Prop :=
  lex_le typ key_or_empty.

Lemma sort_records_spec (l : list record) :
  StronglySorted record_order (sort_records l)
  /\ Permutation l (sort_records l).
Proof. apply (two_pass_sorted typ key_or_empty). Qed.

(** ** The pipeline as a whole *)

#[export] Hint Resolve remap_fields_touches checkpages_touches
  checkbooktitle_touches checkvolumenumber_touches checkinitials_touches
  checkampersand_touches checketal_touches checkand_touches
  checkedition_touches checkurl_touches checkurldate_touches
  checkdoi_touches checkquestionmarks_touches checkbookisthesis_touches
  checkmonth_touches checkdecapitalization_touches checkarticle_touches
  checkthesis_touches checkbook_touches checkincollection_touches
  checkinproceedings_touches checkinbook_touches checkmisc_touches
  checkothertype_touches : touch.

(** Every field name that some check may write. *)
Definition conform_keys : list string :=
  [ "location"; "address"; "date"; "year"; "journaltitle"; "journal";
    "booktitle"; "page"; "pages"; "title"; "volume"; "author"; "editor";
    "bookauthor"; "translator"; "publisher"; "school"; "institution";
    "series"; "maintitle"; "subtitle"; "number"; "note"; "howpublished";
    "addendum"; "edition"; "url"; "handle"; "stableurl"; "opturl"; "urldate";
    "doi"; "month"; "mainsubtitle"; "booksubtitle"; "type"; "chapter"
  ]%string.

Lemma serial_checks_touches nouns r :
  touches conform_keys r (serial_checks nouns r).
Proof.
  cbv beta delta [serial_checks conform_keys name_fields ampersand_fields
                  url_keys title_fields].
  touch.
Qed.

Lemma type_checks_touches r : touches conform_keys r (type_checks r).
Proof. cbv beta delta [type_checks conform_keys]. touch. Qed.

(** Normalization keeps the raw text, the failure flag, the type tag and the
    key, and only appends diagnostics. *)
Lemma conform_touches nouns r : touches conform_keys r (conform nouns r).
Proof.
  unfold conform. eapply touches_trans;
    [apply serial_checks_touches|apply type_checks_touches].
Qed.

Lemma parse_bibtex_restrict s r keys :
  restrict (fst (parse_bibtex s r keys)) = restrict r.
Proof.
  unfold parse_bibtex.
  destruct (rmatch_at bibpatterns.TYPKEYFIELDS s); [|reflexivity].
  cbv zeta. destruct (negb _); [reflexivity|].
  simpl. destruct (parse_lines _); destruct (Dict.mem _ _); reflexivity.
Qed.

Lemma parse_natural_restrict s r r' :
  parse_natural s r = inr r' -> restrict r' = restrict r.
Proof.
  unfold parse_natural. cbv zeta.
  destruct (negb _); [intros H; injection H as <-; reflexivity|].
  destruct (grammars _) as [e|[t d]]; [discriminate|].
  simpl. intros H; injection H as <-. reflexivity.
Qed.

Lemma Record_restrict nouns s bibtexformat inkeysd rs keys r keys' :
  Record nouns s bibtexformat inkeysd rs keys = (inr r, keys') ->
  restrict r = rs.
Proof.
  unfold Record. destruct bibtexformat.
  - pose proof (parse_bibtex_restrict s (new_record s inkeysd rs) keys) as H.
    destruct (parse_bibtex _ _ _) as [r0 k0]. simpl in H.
    intros E; injection E as <- _.
    destruct (parsing_failed r0); [exact H|].
    rewrite (t_restrict _ _ _ (conform_touches nouns r0)). exact H.
  - destruct (parse_natural _ _) as [e|r0] eqn:E0; [discriminate|].
    apply parse_natural_restrict in E0. simpl in E0.
    intros E; injection E as <- _.
    destruct (parsing_failed r0); [exact E0|].
    rewrite (t_restrict _ _ _ (conform_touches nouns r0)). exact E0.
Qed.

Lemma process_entries_restrict nouns entries bibtexformat inkeysd rs :
  forall keys processed keys',
    process_entries nouns entries bibtexformat inkeysd rs keys
    = (inr processed, keys') ->
    Forall (fun r => restrict r = rs) processed.
Proof.
  induction entries as [|e es IH]; intros keys processed keys'; simpl.
  - intros H; injection H as <- _. constructor.
  - destruct (Record _ _ _ _ _ _) as [[x|r] k1] eqn:E1; [discriminate|].
    destruct (process_entries _ _ _ _ _ _) as [[x|rs'] k2] eqn:E2;
      [discriminate|].
    intros H; injection H as <- _. constructor.
    + eapply Record_restrict; eauto.
    + eapply IH; eauto.
Qed.

(** A parsed entry that is not restricted away is rendered: its text starts
    with the [@] sign. *)
Lemma bibtex_nonempty r :
  parsing_failed r = false -> restrict r = false ->
  nonempty (bibtex r) = true.
Proof.
  intros H1 H2. unfold bibtex. rewrite H1, H2. simpl. reflexivity.
Qed.

Lemma filter_all {A : Type} (p : A -> bool) (l : list A) :
  Forall (fun x => p x = true) l -> filter p l = l.
Proof.
  induction 1 as [|x l Hx _ IH]; simpl; [reflexivity|].
  now rewrite Hx, IH.
Qed.

(** The block of the entries that failed to parse, and the preamble, as
    they stand in front of the output. *)
Definition failure_part (bibtexformat : bool) (nonparsed : list record)
  : pystr :=
  match nonparsed with
  | [] => []
  | _ =>
    join [NL; NL]
         (map (fun r => if bibtexformat then U "@" ++ raw_entry r
                        else raw_entry r) nonparsed)
    ++ [NL; NL]
  end.

Definition preamble_part (preamble : pystr) : pystr :=
  if nonempty preamble then preamble ++ [NL; NL] else [].

(** C9.  Whenever [normalize] returns, its output is the block of the
    failed raw entries (if any), then the preamble (if any), then the
    rendered parsed entries joined by blank lines; the parsed entries are all
    there, in the order of [record_order]: type tag downwards, then key
    upwards.  Without [restrict] none of them is left out. *)
Theorem normalize_output nouns s inkeysd rs bibtexformat keys out keys' :
  normalize nouns s inkeysd rs bibtexformat keys = (inr out, keys') ->
  exists processed sorted_records,
    process_entries nouns (fst (input_entries (strip s) bibtexformat))
                    bibtexformat inkeysd rs keys = (inr processed, keys')
    /\ Permutation (filter (fun r => negb (parsing_failed r)) processed)
                   sorted_records
    /\ StronglySorted record_order sorted_records
    /\ out = failure_part bibtexformat (filter parsing_failed processed)
             ++ preamble_part (snd (input_entries (strip s) bibtexformat))
             ++ join [NL; NL] (filter nonempty (map bibtex sorted_records))
    /\ (rs = false ->
        filter nonempty (map bibtex sorted_records)
        = map bibtex sorted_records).
Proof.
  unfold normalize. cbv zeta.
  destruct (input_entries (strip s) bibtexformat) as [entries preamble].
  simpl fst; simpl snd.
  destruct (process_entries _ _ _ _ _ _) as [[x|processed] k1] eqn:E;
    [discriminate|].
  intros H; injection H as <- <-.
  exists processed,
    (sort_records (filter (fun r => negb (parsing_failed r)) processed)).
  destruct (sort_records_spec
              (filter (fun r => negb (parsing_failed r)) processed))
    as [Hs Hp].
  split; [reflexivity|]. split; [exact Hp|]. split; [exact Hs|]. split.
  - unfold assemble, failure_part, preamble_part. cbv zeta.
    destruct (filter parsing_failed processed);
      destruct (nonempty preamble); simpl;
      rewrite <- ?app_assoc; reflexivity.
  - intros ->. apply filter_all. apply Forall_map.
    eapply Permutation_Forall; [exact Hp|].
    apply Forall_forall. intros r Hr. apply filter_In in Hr as [Hin Hf].
    apply bibtex_nonempty.
    + now destruct (parsing_failed r).
    + pose proof (process_entries_restrict _ _ _ _ _ _ _ _ E) as HF.
      exact (proj1 (Forall_forall _ _) HF r Hin).
Qed.

(** ** Exceptions and the batch (claim C8) *)

(** A stand-in for the proper nouns of [langsci.bib.bibnouns], for the
    examples that run the whole pipeline on a given input. *)
Definition sample_nouns : list pystr :=
  [ U "English"; U "German"; U "Africa"; U "Berlin" ].

Definition smith_line : pystr :=
  U "Smith, Jane (2020). A Study of Syntax. Journal of Linguistics 12(3), 45-67.".

(** An article reference with a bare volume and no pages: the article
    grammar takes it with [number = None], and [get_hyphen(None)] raises. *)
Definition bare_volume_line : pystr :=
  U "Smith, Jane (2020). A Study of Syntax. Journal of Linguistics 12.".

(** In natural mode [Record] raises exactly when [parse_natural] does. *)
Definition parses (inkeysd : list pystr) (rs : bool) (e : pystr) : Prop :=
  exists r, parse_natural e (new_record e inkeysd rs) = inr r.

Lemma Record_bibtex_returns nouns e inkeysd rs keys :
  exists r keys', Record nouns e true inkeysd rs keys = (inr r, keys').
Proof.
  unfold Record. destruct (parse_bibtex _ _ _) as [r0 k0]. eauto.
Qed.

Lemma process_bibtex_returns nouns entries inkeysd rs :
  forall keys, exists processed keys',
    process_entries nouns entries true inkeysd rs keys = (inr processed, keys').
Proof.
  induction entries as [|e es IH]; intros keys; cbn [process_entries]; [eauto|].
  destruct (Record_bibtex_returns nouns e inkeysd rs keys) as (r & k1 & ->).
  destruct (IH k1) as (rs' & k2 & ->). eauto.
Qed.

Lemma Record_natural_parses nouns e inkeysd rs keys :
  parses inkeysd rs e ->
  exists r, Record nouns e false inkeysd rs keys = (inr r, keys).
Proof. intros [r H]. unfold Record. rewrite H. eauto. Qed.

Lemma process_natural_returns nouns entries inkeysd rs keys :
  Forall (parses inkeysd rs) entries ->
  exists processed,
    process_entries nouns entries false inkeysd rs keys = (inr processed, keys).
Proof.
  induction 1 as [|e es He _ IH]; cbn [process_entries]; [eauto|].
  destruct (Record_natural_parses nouns e inkeysd rs keys He) as (r & ->).
  destruct IH as (rs' & ->). eauto.
Qed.

Lemma process_natural_raises nouns es1 e es2 inkeysd rs keys x :
  Forall (parses inkeysd rs) es1 ->
  parse_natural e (new_record e inkeysd rs) = inl x ->
  process_entries nouns (es1 ++ e :: es2) false inkeysd rs keys = (inl x, keys).
Proof.
  intros H1 H2. induction H1 as [|e1 es He _ IH]; cbn [process_entries app].
  - unfold Record. now rewrite H2.
  - destruct (Record_natural_parses nouns e1 inkeysd rs keys He) as (r & ->).
    now rewrite IH.
Qed.

(** C8, as the code has it.  [normalize] does not isolate the failure of an
    entry: the exception is raised again, the batch ends, and there is no
    output.  In structured mode no entry raises, so every document has an
    output.  In natural mode there is an output when every entry parses
    without raising, and otherwise [normalize] raises what the first raising
    entry raised. *)
Theorem normalize_raise_policy nouns s inkeysd rs keys :
  (exists out keys', normalize nouns s inkeysd rs true keys = (inr out, keys'))
  /\ (Forall (parses inkeysd rs) (fst (input_entries (strip s) false)) ->
      exists out, normalize nouns s inkeysd rs false keys = (inr out, keys))
  /\ (forall es1 e es2 x,
        fst (input_entries (strip s) false) = es1 ++ e :: es2 ->
        Forall (parses inkeysd rs) es1 ->
        parse_natural e (new_record e inkeysd rs) = inl x ->
        normalize nouns s inkeysd rs false keys = (inl x, keys)).
Proof.
  unfold normalize. cbv zeta. repeat split.
  - destruct (input_entries (strip s) true) as [entries preamble].
    destruct (process_bibtex_returns nouns entries inkeysd rs keys)
      as (p & k & ->). eauto.
  - destruct (input_entries (strip s) false) as [entries preamble].
    simpl. intros H.
    destruct (process_natural_returns nouns entries inkeysd rs keys H)
      as (p & ->). eauto.
  - destruct (input_entries (strip s) false) as [entries preamble].
    simpl. intros es1 e es2 x -> H1 H2.
    now rewrite (process_natural_raises nouns es1 e es2 inkeysd rs keys x H1 H2).
Qed.

(** A document of two references.  The second one raises; [normalize]
    raises with it, and the first reference is not emitted. *)
Definition two_references : pystr :=
  smith_line ++ [NL] ++ bare_volume_line.

Lemma normalize_aborts_batch :
  parses [] false smith_line
  /\ normalize sample_nouns two_references [] false false []
     = (inl TypeError, []).
Proof.
  split.
  - eexists. vm_compute. reflexivity.
  - vm_compute. reflexivity.
Qed.

Lemma normalize_raise_policy_witness :
  fst (input_entries (strip two_references) false)
  = [smith_line] ++ bare_volume_line :: []
  /\ Forall (parses [] false) [smith_line]
  /\ parse_natural bare_volume_line (new_record bare_volume_line [] false)
     = inl TypeError
  /\ normalize sample_nouns two_references [] false false []
     = (inl TypeError, []).
Proof.
  assert (H1 : fst (input_entries (strip two_references) false)
               = [smith_line] ++ bare_volume_line :: [])
    by (vm_compute; reflexivity).
  assert (H2 : Forall (parses [] false) [smith_line])
    by (constructor; [eexists; vm_compute; reflexivity|constructor]).
  assert (H3 : parse_natural bare_volume_line
                             (new_record bare_volume_line [] false)
               = inl TypeError)
    by (vm_compute; reflexivity).
  split; [exact H1|]. split; [exact H2|]. split; [exact H3|].
  exact (proj2 (proj2 (normalize_raise_policy sample_nouns two_references
                                              [] false []))
               [smith_line] bare_volume_line [] TypeError H1 H2 H3).
Defined.

(** A document in structured mode: a preamble, an entry that does not parse,
    and three entries that do. *)
Definition sample_document : pystr :=
  U "% my references" ++ [NL]
  ++ U "@article{b," ++ [NL] ++ U "  title = {T}," ++ [NL] ++ U "  year = 2001" ++ [NL] ++ U "}" ++ [NL]
  ++ U "@broken" ++ [NL]
  ++ U "@book{c," ++ [NL] ++ U "  title = {U}" ++ [NL] ++ U "}" ++ [NL]
  ++ U "@article{a," ++ [NL] ++ U "  title = {V}" ++ [NL] ++ U "}".

Lemma normalize_output_witness :
  exists out keys',
    normalize sample_nouns sample_document [] false true [] = (inr out, keys')
    /\ exists processed sorted_records,
         process_entries sample_nouns
                         (fst (input_entries (strip sample_document) true))
                         true [] false [] = (inr processed, keys')
         /\ Permutation (filter (fun r => negb (parsing_failed r)) processed)
                        sorted_records
         /\ StronglySorted record_order sorted_records
         /\ out = failure_part true (filter parsing_failed processed)
                  ++ preamble_part
                       (snd (input_entries (strip sample_document) true))
                  ++ join [NL; NL]
                          (filter nonempty (map bibtex sorted_records))
         /\ (false = false ->
             filter nonempty (map bibtex sorted_records)
             = map bibtex sorted_records).
Proof.
  eexists. eexists.
  assert (H : normalize sample_nouns sample_document [] false true []
              = (inr _, _)) by (vm_compute; reflexivity).
  split; [exact H|].
  exact (normalize_output sample_nouns sample_document [] false true [] _ _ H).
Defined.

(** ** The parse-failure flag of the natural-text parser (claim C3) *)

(** [parse_natural] sets the flag for the empty input and for nothing
    else. *)
Lemma parse_natural_failed_iff_empty s r r' :
  parse_natural s r = inr r' ->
  (parsing_failed r' = true <-> strip s = []).
Proof.
  unfold parse_natural. cbv zeta.
  destruct (strip s) as [|c s'] eqn:E; simpl.
  - intros H; injection H as <-. simpl. tauto.
  - destruct (grammars (c :: s')) as [e|[t d]]; [discriminate|].
    simpl. intros H; injection H as <-. simpl.
    split; [discriminate|discriminate].
Qed.

(** No grammar takes the text [s]: none of them matches, or the book
    grammar matches without an editor marker and without an
    [address: publisher] pair, and the catch-all does not match either. *)
Definition no_grammar_accepts (s : pystr) : Prop :=
  search bibpatterns.MASTERSTHESIS s = None
  /\ search bibpatterns.PHDTHESIS s = None
  /\ search bibpatterns.EDITOR s = None
  /\ search bibpatterns.ARTICLE s = None
  /\ rmatch_at bibpatterns.BOOK s = None
  /\ search bibpatterns.MISC s = None.

(** The book grammar matches [s] but is rejected, and the catch-all would
    take [s]. *)
Definition only_misc_accepts (s : pystr) : Prop :=
  search bibpatterns.MASTERSTHESIS s = None
  /\ search bibpatterns.PHDTHESIS s = None
  /\ search bibpatterns.EDITOR s = None
  /\ search bibpatterns.ARTICLE s = None
  /\ (exists m, rmatch_at bibpatterns.BOOK s = Some m
                /\ gname bibpatterns.BOOK m "ed" = None)
  /\ search bibpatterns.PUBADDR s = None
  /\ (exists m, search bibpatterns.MISC s = Some m).

(** What [parse_natural] returns when no branch of the cascade fills the
    dictionary. *)
Definition empty_misc (r r' : record) : Prop :=
  parsing_failed r' = false
  /\ typ r' = U "misc"
  /\ key r' = Some (U "Anonymous9999")
  /\ fields r' = []
  /\ errors r' = errors r.

(** C3 on the code.  No grammar accepts [hello], and the parse-failure flag
    stays unset: the result is an entry of type misc with the key
    [Anonymous9999] and no field.  The text [Smith, Jane (2020). A Study of
    Syntax.] is taken by the catch-all grammar alone, but the rejected book
    match keeps the catch-all from being tried, and the result is the same
    empty entry. *)
Theorem parse_natural_unmatched (r : record) :
  (no_grammar_accepts (U "hello")
   /\ exists r', parse_natural (U "hello") r = inr r' /\ empty_misc r r')
  /\ (only_misc_accepts (U "Smith, Jane (2020). A Study of Syntax.")
      /\ exists r',
          parse_natural (U "Smith, Jane (2020). A Study of Syntax.") r = inr r'
          /\ empty_misc r r').
Proof.
  split; split.
  - repeat split; vm_compute; reflexivity.
  - eexists. split; [vm_compute; reflexivity|].
    repeat split.
  - unfold only_misc_accepts.
    repeat match goal with
           | |- _ /\ _ => split
           | |- exists _, _ => eexists
           end; vm_compute; reflexivity.
  - eexists. split; [vm_compute; reflexivity|].
    repeat split.
Qed.

(** ** An empty braced value in the structured-entry parser (claim C10) *)

(** The position and the last code point after the code points [w]. *)
Fixpoint advance (pos : N) (w : pystr) : N :=
  match w with [] => pos | _ :: w' => advance (pos + 1) w' end.
Fixpoint last_seen (prev : option N) (w : pystr) : option N :=
  match w with [] => prev | c :: w' => last_seen (Some c) w' end.

Definition word_set : re := RSet false [CWord].

Lemma rep_greedy_0 body k f pos prev s cs :
  rep_loop body true k (S f) 0 None pos prev s cs
  = match body pos prev s cs (rep_loop body true k f 0 None) with
    | Some x => Some x
    | None => k pos prev s cs
    end.
Proof. reflexivity. Qed.

Lemma rep_greedy_1 body k f pos prev s cs :
  rep_loop body true k (S f) 1 None pos prev s cs
  = body pos prev s cs (rep_loop body true k f 0 None).
Proof. reflexivity. Qed.

Lemma run_word_cons bound c pos prev s cs k :
  run false bound word_set pos prev (c :: s) cs k
  = if is_word c then k (pos + 1) (Some c) s cs else None.
Proof.
  unfold word_set. cbn [run]. unfold set_match. cbn [existsb item_match andb orb xorb].
  destruct (is_word c); reflexivity.
Qed.

Lemma run_word_nil bound pos prev cs k :
  run false bound word_set pos prev [] cs k = None.
Proof. reflexivity. Qed.

Lemma star_word bound (K : cont) w : forall rest fuel pos prev cs x,
  Forall (fun c => is_word c = true) w ->
  is_word_o (hd_error rest) = false ->
  (List.length w < fuel)%nat ->
  K (advance pos w) (last_seen prev w) rest cs = Some x ->
  rep_loop (run false bound word_set) true K fuel 0 None pos prev (w ++ rest) cs = Some x.
Proof.
  induction w as [|c w IH]; intros rest fuel pos prev cs x Hw Hr Hf HK.
  - destruct fuel as [|f]; [simpl in Hf; lia|].
    rewrite rep_greedy_0. cbn [app].
    destruct rest as [|d rest].
    + rewrite run_word_nil. exact HK.
    + rewrite run_word_cons. cbn in Hr. rewrite Hr. exact HK.
  - destruct fuel as [|f]; [simpl in Hf; lia|].
    apply Forall_cons_iff in Hw as [Hc Hw].
    rewrite rep_greedy_0. cbn [app]. rewrite run_word_cons, Hc.
    rewrite (IH rest f (pos + 1) (Some c) cs x); auto.
    simpl in Hf. lia.
Qed.

Definition braced_tail : re :=
  Eval vm_compute in
    match rx_ast braced_value_re with
    | RSeq _ (RSeq _ (RSeq _ t)) => t
    | _ => REps
    end.

Lemma braced_shape :
  rx_ast braced_value_re
  = RSeq RBol (RSeq (RRep (RSet false [CSpace]) 0 None true)
                    (RSeq (RGroup 1 (RRep word_set 1 None true)) braced_tail)).
Proof. reflexivity. Qed.

Lemma braced_tail_run n P prev cs :
  run false (5 + n) braced_tail P prev (U " = {}") cs accept
  = Some (P + 1 + 1 + 1 + 1 + 1, Some (ch "}"), [],
          (2%nat, (P + 1 + 1 + 1 + 1, P + 1 + 1 + 1 + 1)) :: cs).
Proof. vm_compute. reflexivity. Qed.

Lemma is_word_bounds c : is_word c = true -> 48 <= c <= 122.
Proof.
  unfold is_word, is_digit, is_upper, is_lower. intros H.
  repeat match type of H with
         | context [?a <=? ?b] => destruct (N.leb_spec a b)
         | context [?a =? ?b] => destruct (N.eqb_spec a b)
         end; simpl in H; try discriminate; lia.
Qed.

Lemma word_not_space c : is_word c = true -> is_space c = false.
Proof.
  intros H. apply is_word_bounds in H. unfold is_space.
  repeat match goal with
         | |- context [?a <=? ?b] => destruct (N.leb_spec a b); try lia
         | |- context [?a =? ?b] => destruct (N.eqb_spec a b); try lia
         end;
    reflexivity.
Qed.

Lemma run_space_cons bound c pos prev s cs k :
  is_space c = false ->
  run false bound (RSet false [CSpace]) pos prev (c :: s) cs k = None.
Proof.
  intros H. cbn [run]. unfold set_match. cbn [existsb item_match andb orb xorb].
  now rewrite H.
Qed.

Definition braced_empty (f : pystr) : rmatch :=
  let P := advance 0 f in
  mkMatch 0 (P + 1 + 1 + 1 + 1 + 1)
          [(2%nat, (P + 1 + 1 + 1 + 1, P + 1 + 1 + 1 + 1)); (1%nat, (0, P))]
          (f ++ U " = {}").

Lemma run_seq i b x y pos prev s cs k :
  run i b (RSeq x y) pos prev s cs k
  = run i b x pos prev s cs (fun pos' prev' s' cs' => run i b y pos' prev' s' cs' k).
Proof. reflexivity. Qed.

Lemma run_rep i b r mn mx g pos prev s cs k :
  run i b (RRep r mn mx g) pos prev s cs k
  = rep_loop (run i b r) g k (S (mn + b)) mn mx pos prev s cs.
Proof. reflexivity. Qed.

Lemma run_group i b n r pos prev s cs k :
  run i b (RGroup n r) pos prev s cs k
  = run i b r pos prev s cs
        (fun pos' prev' s' cs' => k pos' prev' s' ((n, (pos, pos')) :: cs')).
Proof. reflexivity. Qed.

Lemma run_bol i b prev s cs k :
  run i b RBol 0 prev s cs k = k 0 prev s cs.
Proof. reflexivity. Qed.

Lemma braced_empty_match f :
  f <> [] -> Forall (fun c => is_word c = true) f ->
  rmatch_at braced_value_re (f ++ U " = {}") = Some (braced_empty f).
Proof.
  intros Hne Hw. destruct f as [|c f]; [contradiction|].
  pose proof Hw as Hw'. apply Forall_cons_iff in Hw' as [Hc Hf].
  unfold rmatch_at. rewrite braced_shape.
  change (rx_icase braced_value_re) with false.
  rewrite length_app. change (List.length (U " = {}")) with 5%nat.
  rewrite Nat.add_comm.
  set (bound := (5 + List.length (c :: f))%nat).
  rewrite run_seq, run_bol. cbv beta.
  rewrite run_seq, run_rep. change (S (0 + bound)) with (S bound).
  rewrite rep_greedy_0. cbn [app].
  rewrite run_space_cons by (now apply word_not_space).
  rewrite run_seq, run_group, run_rep.
  change (S (1 + bound)) with (S (S bound)).
  rewrite rep_greedy_1. rewrite run_word_cons, Hc.
  set (P := advance (0 + 1) f).
  rewrite (star_word bound _ f (U " = {}") (S bound) (0 + 1) (Some c) []
             (P + 1 + 1 + 1 + 1 + 1, Some (ch "}"), [],
              [(2%nat, (P + 1 + 1 + 1 + 1, P + 1 + 1 + 1 + 1));
               (1%nat, (0, P))])).
  - reflexivity.
  - exact Hf.
  - reflexivity.
  - subst bound. simpl. lia.
  - cbv beta. subst bound. rewrite braced_tail_run. reflexivity.
Qed.

Lemma slice_same a s : slice a a s = [].
Proof. unfold slice. now rewrite N.sub_diag. Qed.

Lemma parse_line_empty_braces f fs :
  f <> [] -> Forall (fun c => is_word c = true) f ->
  parse_line (S (List.length (f ++ U " = {}"))) (f ++ U " = {}") fs = fs.
Proof.
  intros Hne Hw. cbn [parse_line].
  destruct (negb (nonempty (f ++ U " = {}"))); [reflexivity|].
  rewrite (braced_empty_match f Hne Hw). cbv zeta.
  replace (group_s (braced_empty f) 2) with (@nil N); [reflexivity|].
  unfold group_s, group, braced_empty. cbn [m_caps cap_find Nat.eqb m_subject].
  now rewrite slice_same.
Qed.

Lemma parse_lines_app l1 l2 :
  parse_lines (l1 ++ l2)
  = fold_left (fun fs line => parse_line (S (List.length line)) line fs)
              l2 (parse_lines l1).
Proof. unfold parse_lines. apply fold_left_app. Qed.

(** C10.  A line [field = {}], for any field name made of word characters,
    leaves the field map as it is; the loop over the lines has no access to
    the diagnostics, so none is recorded.  The fields parsed from the lines
    of an entry are the same with and without such a line. *)
Theorem empty_braced_value_omitted (f : pystr) (l1 l2 : list pystr)
        (fs : Dict.dict pystr) :
  f <> [] -> Forall (fun c => is_word c = true) f ->
  parse_line (S (List.length (f ++ U " = {}"))) (f ++ U " = {}") fs = fs
  /\ parse_lines (l1 ++ (f ++ U " = {}") :: l2) = parse_lines (l1 ++ l2).
Proof.
  intros Hne Hw. split.
  - now apply parse_line_empty_braces.
  - rewrite !parse_lines_app. cbn [fold_left].
    now rewrite parse_line_empty_braces.
Qed.

Lemma empty_braced_value_omitted_witness :
  U "title" <> []
  /\ Forall (fun c => is_word c = true) (U "title")
  /\ parse_line (S (List.length (U "title" ++ U " = {}")))
                (U "title" ++ U " = {}") [(U "year", U "2019")]
     = [(U "year", U "2019")]
  /\ parse_lines ([U "author = {Doe, John}"]
                  ++ (U "title" ++ U " = {}") :: [U "year = 2019"])
     = parse_lines ([U "author = {Doe, John}"] ++ [U "year = 2019"]).
Proof.
  assert (H1 : U "title" <> []) by discriminate.
  assert (H2 : Forall (fun c => is_word c = true) (U "title"))
    by (repeat constructor).
  split; [exact H1|]. split; [exact H2|].
  exact (empty_braced_value_omitted (U "title") [U "author = {Doe, John}"]
           [U "year = 2019"] [(U "year", U "2019")] H1 H2).
Defined.

(** The whole of [parse_bibtex] on an entry with the line [title = {}]:
    the field map has no [title], and nothing is recorded. *)
Definition entry_with_empty_title : pystr :=
  U "book{Doe2019," ++ [NL] ++ U "  author = {Doe, John}," ++ [NL]
  ++ U "  title = {}," ++ [NL] ++ U "  year = 2019" ++ [NL] ++ U "}".

Lemma parse_bibtex_empty_title :
  let r := fst (parse_bibtex entry_with_empty_title
                             (new_record entry_with_empty_title [] false) []) in
  parsing_failed r = false
  /\ fields r = [(U "author", U "{Doe, John}"); (U "year", U "2019")]
  /\ errors r = [].
Proof. vm_compute. repeat split. Qed.

(** ** A missing mandatory field (claim C6) *)

Lemma not_in_by_eqb (k : string) (K : list string) :
  existsb (String.eqb k) K = false -> ~ In k K.
Proof.
  intros H Hin. assert (E : existsb (String.eqb k) K = true).
  { apply existsb_exists. exists k. split; [exact Hin|apply String.eqb_refl]. }
  congruence.
Qed.

Ltac not_in_keys := apply not_in_by_eqb; reflexivity.

(** Move a [getf] across the last check applied to the record. *)
Ltac frame_with k H := rewrite (t_fields _ _ _ H k) by not_in_keys.

Ltac frame1 :=
  match goal with
  | |- context [getf ?k (checkdecapitalization ?n ?r)] =>
    frame_with k (checkdecapitalization_touches n r)
  | |- context [getf ?k (checkmonth ?r)] => frame_with k (checkmonth_touches r)
  | |- context [getf ?k (checkbookisthesis ?r)] =>
    frame_with k (checkbookisthesis_touches r)
  | |- context [getf ?k (checkquestionmarks ?r)] =>
    frame_with k (checkquestionmarks_touches r)
  | |- context [getf ?k (checkdoi ?r)] => frame_with k (checkdoi_touches r)
  | |- context [getf ?k (checkurldate ?r)] =>
    frame_with k (checkurldate_touches r)
  | |- context [getf ?k (checkurl ?r)] => frame_with k (checkurl_touches r)
  | |- context [getf ?k (checkedition ?r)] =>
    frame_with k (checkedition_touches r)
  | |- context [getf ?k (checkand ?r)] => frame_with k (checkand_touches r)
  | |- context [getf ?k (checketal ?r)] => frame_with k (checketal_touches r)
  | |- context [getf ?k (checkampersand ?r)] =>
    frame_with k (checkampersand_touches r)
  | |- context [getf ?k (checkinitials ?r)] =>
    frame_with k (checkinitials_touches r)
  | |- context [getf ?k (checkvolumenumber ?r)] =>
    frame_with k (checkvolumenumber_touches r)
  | |- context [getf ?k (checkbooktitle ?r)] =>
    frame_with k (checkbooktitle_touches r)
  | |- context [getf ?k (checkpages ?r)] => frame_with k (checkpages_touches r)
  | |- context [getf ?k (remap_fields ?r)] =>
    frame_with k (remap_fields_touches r)
  | |- context [getf ?k (checkothertype ?r)] =>
    frame_with k (checkothertype_touches r)
  | |- context [getf ?k (checkmisc ?r)] => frame_with k (checkmisc_touches r)
  | |- context [getf ?k (checkinbook ?r)] =>
    frame_with k (checkinbook_touches r)
  | |- context [getf ?k (checkinproceedings ?r)] =>
    frame_with k (checkinproceedings_touches r)
  | |- context [getf ?k (checkincollection ?r)] =>
    frame_with k (checkincollection_touches r)
  | |- context [getf ?k (checkbook ?r)] => frame_with k (checkbook_touches r)
  | |- context [getf ?k (checkthesis ?r)] =>
    frame_with k (checkthesis_touches r)
  | |- context [getf ?k (checkarticle ?r)] =>
    frame_with k (checkarticle_touches r)
  | |- context [getf ?k (requirepages ?r)] =>
    frame_with k (requirepages_touches r)
  | |- context [getf ?k (handleerror ?m ?r)] =>
    frame_with k (handleerror_touches m r)
  | |- context [getf ?k (remap_alias ?o ?n ?r)] =>
    frame_with k (remap_alias_touches o n r)
  | |- context [getf ?k (checkampersand_name ?t ?r)] =>
    frame_with k (checkampersand_name_touches t r)
  | |- context [getf ?k (checkampersand_other ?t ?r)] =>
    frame_with k (checkampersand_other_touches t r)
  end.

Ltac frame := repeat frame1.

Lemma real_truthy x : is_real_value x = true -> truthy x = true.
Proof. destruct x as [[|c s]|]; simpl; auto. Qed.

Lemma remap_alias_skip old new r :
  is_real_value (getf old r) = false -> remap_alias old new r = r.
Proof. intros H. unfold remap_alias. now rewrite H. Qed.

Lemma remap_fields_journal r :
  is_real_value (getf "journaltitle" r) = false ->
  getf "journal" (remap_fields r) = getf "journal" r.
Proof.
  intros H. cbv beta delta [remap_fields]. cbv zeta.
  rewrite (remap_alias_skip "journaltitle" "journal").
  - destruct (Str.eqb _ _); [|frame; reflexivity].
    destruct (_ && _); [|frame; reflexivity].
    rewrite getf_err, getf_setf_other by discriminate. frame. reflexivity.
  - frame. exact H.
Qed.

Lemma checkampersand_other_skip t r :
  is_real_value (getf t r) = false -> checkampersand_other t r = r.
Proof. intros H. unfold checkampersand_other. now rewrite H. Qed.

Lemma checkampersand_journal r :
  is_real_value (getf "journal" r) = false ->
  getf "journal" (checkampersand r) = getf "journal" r.
Proof.
  intros H.
  cbv beta iota delta [checkampersand for_each fold_left name_fields ampersand_fields].
  frame.
  rewrite checkampersand_other_skip; frame; auto.
Qed.

Lemma serial_checks_journal nouns r :
  is_real_value (getf "journaltitle" r) = false ->
  is_real_value (getf "journal" r) = false ->
  getf "journal" (serial_checks nouns r) = getf "journal" r.
Proof.
  intros H1 H2. cbv beta delta [serial_checks]. cbv zeta.
  frame. rewrite checkampersand_journal; frame.
  - now apply remap_fields_journal.
  - now rewrite remap_fields_journal.
Qed.

Lemma handleerror_missing m r :
  truthy (getf m r) = false ->
  handleerror m r
  = err (U "missing " ++ U m) (setf m (U "{\biberror{no " ++ U m ++ U "}}") r).
Proof. intros H. unfold handleerror. now rewrite H. Qed.

Lemma touches_In K r r' e :
  touches K r r' -> In e (errors r) -> In e (errors r').
Proof.
  intros H Hin. destruct (t_errors _ _ _ H) as [l ->].
  apply in_or_app. now left.
Qed.

Definition no_journal : pystr := U "{\biberror{no journal}}".

Lemma checkarticle_journal r :
  typ r = U "article" ->
  truthy (getf "journal" r) = false ->
  getf "journal" (checkarticle r) = Some no_journal
  /\ In (U "missing journal") (errors (checkarticle r)).
Proof.
  intros Ht Hj.
  cbv beta iota delta [checkarticle for_each fold_left addsortname].
  rewrite Ht. change (negb (Str.eqb (U "article") (U "article"))) with false.
  cbv iota zeta.
  match goal with
  | |- context [handleerror "journal" ?x] => set (x0 := x)
  end.
  assert (Hx : getf "journal" x0 = getf "journal" r).
  { subst x0. frame.
    destruct (getf "volume" r); [reflexivity|].
    destruct (getf "number" r); [|reflexivity].
    now rewrite getf_delf_other, getf_setf_other by discriminate. }
  rewrite (handleerror_missing "journal" x0) by (now rewrite Hx).
  split.
  - frame. now rewrite getf_err, getf_setf_same.
  - match goal with
    | |- In _ (errors (requirepages (handleerror "volume" ?y))) =>
      apply (touches_In ["volume"; "pages"]%string y); [touch|]
    end.
    simpl. apply in_or_app. right. now left.
Qed.

Lemma after_checkarticle_touches x :
  touches conform_keys x
          (checkothertype
             (checkmisc
                (checkinbook
                   (checkinproceedings
                      (checkincollection (checkbook (checkthesis x))))))).
Proof. unfold conform_keys. touch. Qed.

Lemma type_checks_journal r1 :
  typ r1 = U "article" ->
  truthy (getf "journal" r1) = false ->
  getf "journal" (type_checks r1) = Some no_journal
  /\ In (U "missing journal") (errors (type_checks r1)).
Proof.
  intros Ht1 Hj1.
  destruct (checkarticle_journal r1 Ht1 Hj1) as [Ha1 Ha2].
  cbv beta delta [type_checks]. cbv zeta. split.
  - frame. exact Ha1.
  - apply (touches_In conform_keys (checkarticle r1)); [|exact Ha2].
    apply after_checkarticle_touches.
Qed.

Lemma rendered_field_of k v r :
  getf k r = Some v ->
  existsb (Str.eqb (U k)) excludefields = false ->
  In (U k, v) (rendered_fields r).
Proof.
  intros Hg He. unfold rendered_fields. apply filter_In. split.
  - eapply Permutation_in; [apply sorted_by_perm|].
    apply get_In. exact Hg.
  - cbn [fst]. now rewrite He.
Qed.

Lemma conform_eq nouns r :
  conform nouns r = type_checks (serial_checks nouns r).
Proof. reflexivity. Qed.

Lemma type_checks_marks_journal r1 :
  typ r1 = U "article" ->
  parsing_failed r1 = false ->
  restrict r1 = false ->
  truthy (getf "journal" r1) = false ->
  getf "journal" (type_checks r1) = Some no_journal
  /\ In (U "missing journal") (errors (type_checks r1))
  /\ In (U "journal", no_journal) (rendered_fields (type_checks r1))
  /\ nonempty (bibtex (type_checks r1)) = true.
Proof.
  intros Ht Hf Hr Hj.
  destruct (type_checks_journal r1 Ht Hj) as [Hg Hi].
  pose proof (type_checks_touches r1) as Hc.
  split; [exact Hg|]. split; [exact Hi|]. split.
  - apply rendered_field_of; [exact Hg|reflexivity].
  - apply bibtex_nonempty.
    + rewrite (t_failed _ _ _ Hc). exact Hf.
    + rewrite (t_restrict _ _ _ Hc). exact Hr.
Qed.


(** * Further properties of the code *)

(** ** Braces *)

Lemma startswith_app p s : startswith p (p ++ s) = true.
Proof. induction p as [|x p IH]; simpl; [reflexivity|]. now rewrite N.eqb_refl. Qed.

Lemma endswith_app p s : endswith p (s ++ p) = true.
Proof. unfold endswith. rewrite rev_app_distr. apply startswith_app. Qed.

Lemma trim_braces_add_braces s : trim_braces (add_braces s) = s.
Proof.
  unfold trim_braces, add_braces.
  rewrite startswith_app.
  rewrite (app_assoc (U "{") s (U "}")), endswith_app. simpl.
  unfold drop_last. now rewrite removelast_last.
Qed.

(** X1.  Bracing and unbracing are a round trip: [trim_braces] undoes
    [add_braces] on every string, and [add_braces] gives back a string from
    which [trim_braces] took a pair of braces. *)
Theorem trim_add_braces s :
  trim_braces (add_braces s) = s
  /\ add_braces (trim_braces s)
     = if startswith (U "{") s && endswith (U "}") s then s else add_braces s.
Proof.
  split; [apply trim_braces_add_braces|].
  unfold trim_braces.
  destruct (startswith (U "{") s && endswith (U "}") s) eqn:H; [|reflexivity].
  unfold add_braces.
  apply andb_prop in H as [H1 H2].
  destruct s as [|x s]; [discriminate|]. cbn -[N.eqb] in H1.
  rewrite andb_true_r in H1. apply N.eqb_eq in H1. subst x.
  destruct s as [|y s]; [discriminate|].
  simpl drop. unfold endswith in H2.
  destruct (exists_last (l := y :: s) ltac:(discriminate)) as (s' & z & E).
  rewrite E in *. change (123 :: s' ++ [z]) with ((123 :: s') ++ [z]) in H2.
  rewrite rev_app_distr in H2. cbn -[N.eqb] in H2.
  rewrite andb_true_r in H2. apply N.eqb_eq in H2. subst z.
  unfold drop_last. rewrite removelast_last. reflexivity.
Qed.

(** ** What normalization keeps *)

(** X2.  [conform] keeps the raw text, the failure flag, the type tag, the
    key and the output restriction of a record, and it only appends to the
    list of diagnostics: no check removes or rewrites a diagnostic. *)
Theorem conform_keeps_attributes nouns r :
  raw_entry (conform nouns r) = raw_entry r
  /\ parsing_failed (conform nouns r) = parsing_failed r
  /\ typ (conform nouns r) = typ r
  /\ key (conform nouns r) = key r
  /\ restrict (conform nouns r) = restrict r
  /\ inkeysd (conform nouns r) = inkeysd r
  /\ exists l, errors (conform nouns r) = errors r ++ l.
Proof.
  destruct (conform_touches nouns r) as [a1 a2 a3 a4 a5 a6 a7 a8].
  repeat split; assumption.
Qed.

(** X3.  [conform] changes no field outside the list [conform_keys]: a field
    such as [isbn], [crossref] or [langid] has after normalization the value
    it had before (or is absent as before). *)
Theorem conform_leaves_other_fields nouns r k :
  ~ In k conform_keys -> getf k (conform nouns r) = getf k r.
Proof. intros H. exact (t_fields _ _ _ (conform_touches nouns r) k H). Qed.

Definition isbn_entry : record :=
  setf "isbn" (U "{978-3-16-148410-0}")
       (setf "title" (U "{on the syntax of Berlin german}")
             (set_typ (U "book") (new_record [] [] false))).

Lemma conform_leaves_other_fields_witness :
  ~ In "isbn"%string conform_keys
  /\ getf "isbn" (conform sample_nouns isbn_entry) = getf "isbn" isbn_entry.
Proof.
  assert (H : ~ In "isbn"%string conform_keys) by not_in_keys.
  split; [exact H|].
  exact (conform_leaves_other_fields sample_nouns isbn_entry "isbn" H).
Defined.

(** ** The natural-text parser *)

Lemma clean_and_brace_braced d f v :
  In (f, v) (clean_and_brace_natural d) ->
  exists body, v = add_braces body /\ nonempty body = true.
Proof.
  induction d as [|[k o] d IH]; simpl; [contradiction|].
  destruct o as [[|c w]|]; auto.
  destruct (join _ (split_ws (strip (c :: w)))) as [|x body] eqn:E; auto.
  intros H. destruct H as [H|H]; auto.
  injection H as _ <-. now exists (x :: body).
Qed.

Lemma clean_and_brace_del k d :
  Dict.get k (clean_and_brace_natural (Dict.del k d)) = None.
Proof.
  induction d as [|[k' o] d IH]; simpl; [reflexivity|].
  destruct (Str.eqb k' k) eqn:E; [exact IH|]. simpl.
  destruct o as [[|c w]|]; auto.
  destruct (join _ (split_ws (strip (c :: w)))); auto.
  simpl. now rewrite E.
Qed.

Lemma make_key_nonempty d : nonempty (make_key d) = true.
Proof.
  unfold make_key.
  destruct (match nget "author" d with
            | Some (c :: a) => _
            | _ => _
            end) as [creator creatorpart].
  cbv zeta.
  match goal with
  | |- nonempty (?a ++ ?y) = true =>
    assert (Hy : nonempty y = true);
      [|destruct y; [discriminate|]; now destruct a]
  end.
  destruct (nget "year" d) as [[|c y]|]; try reflexivity.
  destruct (Dict.get (U "extrayear") d) as [[e|]|]; reflexivity.
Qed.

Definition natural_types : list pystr :=
  [ U "mastersthesis"; U "phdthesis"; U "incollection"; U "article";
    U "book"; U "misc" ].

Lemma grammars_type s t d :
  grammars s = inr (t, d) -> In t natural_types.
Proof.
  unfold grammars.
  repeat match goal with
         | |- context [match ?x with _ => _ end] =>
           lazymatch x with
           | context [match _ with _ => _ end] => fail
           | _ => destruct x
           end
         end;
    intros H; try discriminate; injection H as <- _; simpl; tauto.
Qed.

(** X4.  What [parse_natural] returns for a text that is not blank: the
    failure flag is unset, the type is one of the six that the grammars
    assign, the key is not empty, no diagnostic is recorded, every field
    value is a brace pair around a non-empty text, and the helper field
    [extrayear] is not among the fields. *)
Theorem parse_natural_result s r r' :
  parse_natural s r = inr r' ->
  strip s <> [] ->
  parsing_failed r' = false
  /\ In (typ r') natural_types
  /\ (exists k, key r' = Some k /\ nonempty k = true)
  /\ errors r' = errors r
  /\ (forall f v, In (f, v) (fields r') ->
                  exists body, v = add_braces body /\ nonempty body = true)
  /\ getf "extrayear" r' = None.
Proof.
  unfold parse_natural. cbv zeta.
  destruct (strip s) as [|c s'] eqn:E; [congruence|]. simpl negb. cbv iota.
  destruct (grammars (c :: s')) as [e|[t d]] eqn:G; [discriminate|].
  simpl. intros H _. injection H as <-. simpl.
  split; [reflexivity|]. split; [eapply grammars_type; eauto|].
  split; [eexists; split; [reflexivity|apply make_key_nonempty]|].
  split; [reflexivity|]. split.
  - intros f v. apply clean_and_brace_braced.
  - unfold getf. simpl. apply clean_and_brace_del.
Qed.

Lemma parse_natural_result_witness :
  exists r',
    parse_natural smith_line (new_record smith_line [] false) = inr r'
    /\ strip smith_line <> []
    /\ parsing_failed r' = false
    /\ In (typ r') natural_types
    /\ (exists k, key r' = Some k /\ nonempty k = true)
    /\ errors r' = errors (new_record smith_line [] false)
    /\ (forall f v, In (f, v) (fields r') ->
                    exists body, v = add_braces body /\ nonempty body = true)
    /\ getf "extrayear" r' = None.
Proof.
  eexists.
  assert (H : parse_natural smith_line (new_record smith_line [] false)
              = inr _) by (vm_compute; reflexivity).
  assert (H0 : strip smith_line <> []) by (vm_compute; discriminate).
  split; [exact H|]. split; [exact H0|].
  exact (parse_natural_result smith_line _ _ H H0).
Defined.

(** ** The registry of keys *)

Lemma process_natural_registry nouns entries inkeysd rs :
  forall keys,
    snd (process_entries nouns entries false inkeysd rs keys) = keys.
Proof.
  induction entries as [|e es IH]; intros keys; cbn [process_entries];
    [reflexivity|].
  unfold Record.
  destruct (parse_natural e (new_record e inkeysd rs)) as [x|r];
    [reflexivity|].
  specialize (IH keys).
  destruct (process_entries nouns es false inkeysd rs keys) as [[x|rs'] k2];
    exact IH.
Qed.

(** X5.  In natural mode nothing is written to the registry of keys: neither
    [Record] nor a whole run of [normalize] changes it, whether the run
    returns or raises.  Two references that get the same generated key are
    therefore never reported as duplicates of each other. *)
Theorem natural_mode_keeps_registry nouns s inkeysd rs keys :
  snd (Record nouns s false inkeysd rs keys) = keys
  /\ snd (normalize nouns s inkeysd rs false keys) = keys.
Proof.
  split.
  - unfold Record. destruct (parse_natural _ _); reflexivity.
  - unfold normalize. cbv zeta.
    destruct (input_entries (strip s) false) as [entries preamble].
    pose proof (process_natural_registry nouns entries inkeysd rs keys) as H.
    destruct (process_entries _ _ _ _ _ _) as [[x|p] k]; exact H.
Qed.

(** The key under which the structured parser registers an entry: the key
    of its header, when the header matches and the body has a line. *)
Definition entry_key (s : pystr) : option pystr :=
  match rmatch_at bibpatterns.TYPKEYFIELDS s with
  | Some m =>
    if existsb nonempty (entry_lines (group_s m 3))
    then Some (group_s m 2) else None
  | None => None
  end.

Definition duplicate_of (k : pystr) : pystr := U "duplicate key " ++ k.

Lemma parse_bibtex_entry_key s r keys :
  match entry_key s with
  | None =>
    parsing_failed (fst (parse_bibtex s r keys)) = true
    /\ snd (parse_bibtex s r keys) = keys
  | Some k =>
    key (fst (parse_bibtex s r keys)) = Some k
    /\ snd (parse_bibtex s r keys) = Dict.set k true keys
    /\ (Dict.mem k keys = true ->
        exists l, errors (fst (parse_bibtex s r keys))
                  = errors r ++ l ++ [duplicate_of k])
    /\ (Dict.mem k keys = false ->
        ~ In (duplicate_of k) (errors r) ->
        ~ In (duplicate_of k) (errors (fst (parse_bibtex s r keys))))
  end.
Proof.
  unfold entry_key, parse_bibtex.
  destruct (rmatch_at bibpatterns.TYPKEYFIELDS s) as [m|]; [|split; reflexivity].
  cbv zeta.
  destruct (existsb nonempty (entry_lines (group_s m 3))); simpl negb; cbv iota;
    [|split; reflexivity].
  cbn [set_fields fields].
  set (k := group_s m 2). fold (duplicate_of k).
  destruct (parse_lines (entry_lines (group_s m 3))) as [|fv fs];
    destruct (Dict.mem k keys) eqn:Hm;
    cbn [fst snd key errors parsing_failed set_failed err set_typ set_key
         raw_entry typ fields restrict inkeysd];
    (split; [reflexivity|]); (split; [reflexivity|]); split; intros H;
    try discriminate.
  - exists [U "No fields parsed from BibTeX entry"]. now rewrite app_assoc.
  - intros Hn Hin. apply in_app_or in Hin as [Hin|[Hin|[]]]; [auto|].
    apply (f_equal (fun l => hd 0 l)) in Hin. discriminate.
  - exists []. reflexivity.
  - intros Hn. exact Hn.
Qed.


Definition entry_a : pystr :=
  U "article{a," ++ [NL] ++ U "  title = {V}" ++ [NL] ++ U "}".


Lemma mem_set_mono (keys : registry) k k' v :
  Dict.mem k keys = true -> Dict.mem k (Dict.set k' v keys) = true.
Proof.
  unfold Dict.mem. intros H.
  destruct (Str.eqb k' k) eqn:E.
  - apply eqb_eq in E. subst k'. now rewrite get_set_same.
  - now rewrite get_set_other.
Qed.

Lemma Record_registry nouns e inkeysd rs keys :
  snd (Record nouns e true inkeysd rs keys)
  = match entry_key e with
    | Some k => Dict.set k true keys
    | None => keys
    end.
Proof.
  unfold Record.
  pose proof (parse_bibtex_entry_key e (new_record e inkeysd rs) keys) as H.
  destruct (parse_bibtex e (new_record e inkeysd rs) keys) as [r0 k0].
  simpl in *. destruct (entry_key e); tauto.
Qed.

Lemma Record_duplicate nouns e inkeysd rs keys r keys' :
  Record nouns e true inkeysd rs keys = (inr r, keys') ->
  parsing_failed r = false ->
  exists k, entry_key e = Some k /\ key r = Some k
            /\ (Dict.mem k keys = true -> In (duplicate_of k) (errors r)).
Proof.
  unfold Record.
  pose proof (parse_bibtex_entry_key e (new_record e inkeysd rs) keys) as H.
  destruct (parse_bibtex e (new_record e inkeysd rs) keys) as [r0 k0].
  simpl in H. intros E Hf. injection E as <- _.
  destruct (parsing_failed r0) eqn:F0; [congruence|].
  destruct (entry_key e) as [k|]; [|destruct H; congruence].
  destruct H as (H1 & _ & H3 & _). exists k. split; [reflexivity|].
  pose proof (conform_touches nouns r0) as Hc.
  split; [rewrite (t_key _ _ _ Hc); exact H1|].
  intros Hm. destruct (H3 Hm) as [l Hl].
  apply (touches_In conform_keys r0); [exact Hc|].
  rewrite Hl. apply in_or_app. right. now left.
Qed.

(** Every entry of [entries] that registers a key finds it in [keys]. *)
Definition all_registered (entries : list pystr) (keys : registry) : Prop :=
  forall e k, In e entries -> entry_key e = Some k -> Dict.mem k keys = true.

Lemma process_registry nouns entries inkeysd rs :
  forall keys,
    (forall k, Dict.mem k keys = true ->
               Dict.mem k (snd (process_entries nouns entries true inkeysd rs
                                                keys)) = true)
    /\ all_registered entries
                      (snd (process_entries nouns entries true inkeysd rs keys)).
Proof.
  induction entries as [|e es IH]; intros keys; cbn [process_entries].
  - split; [auto|]. intros e k [].
  - pose proof (Record_registry nouns e inkeysd rs keys) as HR.
    destruct (Record_bibtex_returns nouns e inkeysd rs keys) as (r & k1 & E1).
    rewrite E1 in *. cbn [snd] in HR.
    destruct (IH k1) as [IH1 IH2].
    destruct (process_entries nouns es true inkeysd rs k1) as [[x|rs'] k2];
      cbn [snd] in *.
    + split.
      * intros k Hk. apply IH1. rewrite HR.
        destruct (entry_key e); [now apply mem_set_mono|exact Hk].
      * intros e' k [<-|Hin] Hk; [|eapply IH2; eauto].
        apply IH1. rewrite HR, Hk. unfold Dict.mem. now rewrite get_set_same.
    + split.
      * intros k Hk. apply IH1. rewrite HR.
        destruct (entry_key e); [now apply mem_set_mono|exact Hk].
      * intros e' k [<-|Hin] Hk; [|eapply IH2; eauto].
        apply IH1. rewrite HR, Hk. unfold Dict.mem. now rewrite get_set_same.
Qed.

(** The record of an entry carries the diagnostic of a duplicate key. *)
Definition flagged_duplicate (r : record) : Prop :=
  parsing_failed r = false ->
  exists k, key r = Some k /\ In (duplicate_of k) (errors r).

Lemma process_all_registered nouns entries inkeysd rs :
  forall keys processed keys',
    all_registered entries keys ->
    process_entries nouns entries true inkeysd rs keys = (inr processed, keys') ->
    Forall flagged_duplicate processed.
Proof.
  induction entries as [|e es IH]; intros keys processed keys' Ha;
    cbn [process_entries].
  - intros H; injection H as <- _. constructor.
  - destruct (Record nouns e true inkeysd rs keys) as [[x|r] k1] eqn:E1;
      [discriminate|].
    destruct (process_entries nouns es true inkeysd rs k1) as [[x|rs'] k2] eqn:E2;
      [discriminate|].
    intros H; injection H as <- _. constructor.
    + intros Hf.
      destruct (Record_duplicate _ _ _ _ _ _ _ E1 Hf) as (k & Hk & Hkey & Hd).
      exists k. split; [exact Hkey|]. apply Hd.
      apply (Ha e k); [now left|exact Hk].
    + apply (IH k1 rs' k2); [|exact E2].
      intros e' k Hin Hk.
      pose proof (Record_registry nouns e inkeysd rs keys) as HR.
      rewrite E1 in HR. cbn [snd] in HR. rewrite HR.
      assert (Hm : Dict.mem k keys = true) by (apply (Ha e' k); [now right|exact Hk]).
      destruct (entry_key e); [now apply mem_set_mono|exact Hm].
Qed.

(** X7.  The registry is never reset.  When the structured entries of a
    document are processed a second time with the registry that the first
    run left (as in a second call of [normalize] in the same process), every
    entry that parses is flagged with [duplicate key]. *)
Theorem second_run_flags_duplicates nouns entries inkeysd rs keys
        first keys1 second keys2 :
  process_entries nouns entries true inkeysd rs keys = (inr first, keys1) ->
  process_entries nouns entries true inkeysd rs keys1 = (inr second, keys2) ->
  Forall flagged_duplicate second.
Proof.
  intros E1 E2.
  apply (process_all_registered nouns entries inkeysd rs keys1 second keys2);
    [|exact E2].
  pose proof (proj2 (process_registry nouns entries inkeysd rs keys)) as H.
  rewrite E1 in H. exact H.
Qed.

Lemma second_run_flags_duplicates_witness :
  exists first keys1 second keys2,
    process_entries sample_nouns [entry_a] true [] false []
    = (inr first, keys1)
    /\ process_entries sample_nouns [entry_a] true [] false keys1
       = (inr second, keys2)
    /\ Forall flagged_duplicate second.
Proof.
  do 4 eexists.
  assert (H1 : process_entries sample_nouns [entry_a] true [] false []
               = (inr _, _)) by (vm_compute; reflexivity).
  assert (H2 : process_entries sample_nouns [entry_a] true [] false
                               [(U "a", true)]
               = (inr _, _)) by (vm_compute; reflexivity).
  split; [exact H1|]. split; [exact H2|].
  exact (second_run_flags_duplicates sample_nouns [entry_a] [] false []
                                     _ _ _ _ H1 H2).
Defined.

(** ** Mandatory fields *)

Lemma handleerror_sets m r : truthy (getf m (handleerror m r)) = true.
Proof.
  unfold handleerror. destruct (truthy (getf m r)) eqn:E; simpl; [exact E|].
  rewrite getf_err, getf_setf_same. reflexivity.
Qed.

(** X8.  [handleerror]: afterwards the field holds something; when it held
    nothing before, it holds the marker [{\biberror{no m}}], which is not a
    real value, and [missing m] is the last diagnostic; when it held
    something, the record is left as it was.  A second call changes
    nothing. *)
Theorem handleerror_spec m r :
  truthy (getf m (handleerror m r)) = true
  /\ handleerror m (handleerror m r) = handleerror m r
  /\ (if truthy (getf m r)
      then handleerror m r = r
      else getf m (handleerror m r)
           = Some (U "{\biberror{no " ++ U m ++ U "}}")
           /\ is_real_value (getf m (handleerror m r)) = false
           /\ errors (handleerror m r) = errors r ++ [U "missing " ++ U m]).
Proof.
  pose proof (handleerror_sets m r) as H.
  split; [exact H|]. split.
  - unfold handleerror at 1. now rewrite H.
  - unfold handleerror. destruct (truthy (getf m r)); simpl; [reflexivity|].
    rewrite getf_err, getf_setf_same. repeat split.
Qed.

Lemma handleerror_keeps_truthy m k r :
  truthy (getf k r) = true -> truthy (getf k (handleerror m r)) = true.
Proof.
  intros H. unfold handleerror. destruct (truthy (getf m r)); simpl; [exact H|].
  rewrite getf_err.
  destruct (string_dec m k) as [->|Hne].
  - now rewrite getf_setf_same.
  - now rewrite getf_setf_other.
Qed.

Lemma for_each_handleerror ms : forall r k,
  In k ms \/ truthy (getf k r) = true ->
  truthy (getf k (for_each ms handleerror r)) = true.
Proof.
  unfold for_each.
  induction ms as [|m ms IH]; intros r k H; simpl.
  - destruct H as [[]|H]. exact H.
  - apply IH. destruct H as [[->|H]|H].
    + right. apply handleerror_sets.
    + now left.
    + right. now apply handleerror_keeps_truthy.
Qed.

(** The result of the checks by type is that of the check for the type of
    the record. *)
Lemma type_checks_by_type r :
  type_checks r
  = if Str.eqb (typ r) (U "article") then checkarticle r
    else if is_thesis_type (typ r) then checkthesis r
    else if Str.eqb (typ r) (U "book") then checkbook r
    else if Str.eqb (typ r) (U "incollection") then checkincollection r
    else if Str.eqb (typ r) (U "inproceedings") then checkinproceedings r
    else if Str.eqb (typ r) (U "inbook") then checkinbook r
    else if Str.eqb (typ r) (U "misc") then checkmisc r
    else checkothertype r.
Proof.
  assert (Hart : forall x, Str.eqb (typ x) (U "article") = false -> checkarticle x = x)
    by (intros x E; unfold checkarticle; now rewrite E).
  assert (Hth : forall x, is_thesis_type (typ x) = false -> checkthesis x = x)
    by (intros x E; unfold checkthesis; now rewrite E).
  assert (Hbook : forall x, Str.eqb (typ x) (U "book") = false -> checkbook x = x)
    by (intros x E; unfold checkbook; now rewrite E).
  assert (Hinc : forall x, Str.eqb (typ x) (U "incollection") = false ->
                           checkincollection x = x)
    by (intros x E; unfold checkincollection; now rewrite E).
  assert (Hinp : forall x, Str.eqb (typ x) (U "inproceedings") = false ->
                           checkinproceedings x = x)
    by (intros x E; unfold checkinproceedings; now rewrite E).
  assert (Hinb : forall x, Str.eqb (typ x) (U "inbook") = false -> checkinbook x = x)
    by (intros x E; unfold checkinbook; now rewrite E).
  assert (Hmisc : forall x, Str.eqb (typ x) (U "misc") = false -> checkmisc x = x)
    by (intros x E; unfold checkmisc; now rewrite E).
  assert (Hoth : forall x, existsb (Str.eqb (typ x)) known_types = true ->
                           checkothertype x = x)
    by (intros x E; unfold checkothertype; now rewrite E).
  cbv beta delta [type_checks]. cbv zeta.
  destruct (Str.eqb (typ r) (U "article")) eqn:E1.
  { apply eqb_eq in E1.
    pose proof (t_typ _ _ _ (checkarticle_touches r)) as T. rewrite E1 in T.
    rewrite (Hth (checkarticle r)) by (now rewrite T).
    rewrite Hbook by (now rewrite T). rewrite Hinc by (now rewrite T).
    rewrite Hinp by (now rewrite T). rewrite Hinb by (now rewrite T).
    rewrite Hmisc by (now rewrite T). rewrite Hoth by (now rewrite T).
    reflexivity. }
  rewrite (Hart r E1).
  destruct (is_thesis_type (typ r)) eqn:E2.
  { pose proof (t_typ _ _ _ (checkthesis_touches r)) as T.
    assert (E2' := E2). unfold is_thesis_type in E2'.
    apply orb_prop in E2' as [E2'|E2']; [apply orb_prop in E2' as [E2'|E2']|];
      apply eqb_eq in E2'; rewrite E2' in T;
      rewrite (Hbook (checkthesis r)) by (now rewrite T);
      rewrite Hinc by (now rewrite T);
      rewrite Hinp by (now rewrite T); rewrite Hinb by (now rewrite T);
      rewrite Hmisc by (now rewrite T); rewrite Hoth by (now rewrite T);
      reflexivity. }
  rewrite (Hth r E2).
  destruct (Str.eqb (typ r) (U "book")) eqn:E3.
  { apply eqb_eq in E3.
    pose proof (t_typ _ _ _ (checkbook_touches r)) as T. rewrite E3 in T.
    rewrite (Hinc (checkbook r)) by (now rewrite T).
    rewrite Hinp by (now rewrite T). rewrite Hinb by (now rewrite T).
    rewrite Hmisc by (now rewrite T). rewrite Hoth by (now rewrite T).
    reflexivity. }
  rewrite (Hbook r E3).
  destruct (Str.eqb (typ r) (U "incollection")) eqn:E4.
  { apply eqb_eq in E4.
    pose proof (t_typ _ _ _ (checkincollection_touches r)) as T.
    rewrite E4 in T.
    rewrite (Hinp (checkincollection r)) by (now rewrite T).
    rewrite Hinb by (now rewrite T).
    rewrite Hmisc by (now rewrite T). rewrite Hoth by (now rewrite T).
    reflexivity. }
  rewrite (Hinc r E4).
  destruct (Str.eqb (typ r) (U "inproceedings")) eqn:E5.
  { apply eqb_eq in E5.
    pose proof (t_typ _ _ _ (checkinproceedings_touches r)) as T.
    rewrite E5 in T.
    rewrite (Hinb (checkinproceedings r)) by (now rewrite T).
    rewrite Hmisc by (now rewrite T). rewrite Hoth by (now rewrite T).
    reflexivity. }
  rewrite (Hinp r E5).
  destruct (Str.eqb (typ r) (U "inbook")) eqn:E6.
  { apply eqb_eq in E6.
    pose proof (t_typ _ _ _ (checkinbook_touches r)) as T. rewrite E6 in T.
    rewrite (Hmisc (checkinbook r)) by (now rewrite T).
    rewrite Hoth by (now rewrite T). reflexivity. }
  rewrite (Hinb r E6).
  destruct (Str.eqb (typ r) (U "misc")) eqn:E7.
  { apply eqb_eq in E7.
    pose proof (t_typ _ _ _ (checkmisc_touches r)) as T. rewrite E7 in T.
    rewrite (Hoth (checkmisc r)) by (now rewrite T). reflexivity. }
  rewrite (Hmisc r E7). reflexivity.
Qed.

(** X9.  The checks by type exclude each other: of the eight checks that
    [conform] runs one after the other, only the one for the type of the
    record acts; [checkothertype] acts on the types that are not in the
    list of known types. *)
Theorem type_checks_dispatch r :
  type_checks r
  = if Str.eqb (typ r) (U "article") then checkarticle r
    else if is_thesis_type (typ r) then checkthesis r
    else if Str.eqb (typ r) (U "book") then checkbook r
    else if Str.eqb (typ r) (U "incollection") then checkincollection r
    else if Str.eqb (typ r) (U "inproceedings") then checkinproceedings r
    else if Str.eqb (typ r) (U "inbook") then checkinbook r
    else if Str.eqb (typ r) (U "misc") then checkmisc r
    else checkothertype r.
Proof. apply type_checks_by_type. Qed.

(** The fields that the check of a type demands without condition, as
    pairs of a type and a field name. *)
Definition required_fields : list (pystr * string) :=
  [ (U "article", "author"); (U "article", "year"); (U "article", "title");
    (U "article", "journal"); (U "article", "volume");
    (U "phdthesis", "author"); (U "phdthesis", "title");
    (U "phdthesis", "address"); (U "phdthesis", "school");
    (U "phdthesis", "year");
    (U "mastersthesis", "author"); (U "mastersthesis", "title");
    (U "mastersthesis", "address"); (U "mastersthesis", "school");
    (U "mastersthesis", "year");
    (U "thesis", "author"); (U "thesis", "title"); (U "thesis", "address");
    (U "thesis", "school"); (U "thesis", "year"); (U "thesis", "type");
    (U "book", "year"); (U "book", "title"); (U "book", "address");
    (U "book", "publisher");
    (U "incollection", "author"); (U "incollection", "title");
    (U "inproceedings", "author"); (U "inproceedings", "title");
    (U "inbook", "author"); (U "inbook", "title");
    (U "misc", "author"); (U "misc", "title"); (U "misc", "year")
  ]%string.

Lemma touches_truthy K r r' k :
  touches K r r' -> ~ In k K ->
  truthy (getf k r) = true -> truthy (getf k r') = true.
Proof. intros H Hk Ht. now rewrite (t_fields _ _ _ H k Hk). Qed.

Lemma requirepages_keeps_truthy k r :
  truthy (getf k r) = true -> truthy (getf k (requirepages r)) = true.
Proof.
  intros H. unfold requirepages.
  destruct (negb (truthy (getf "pages" r))); [|exact H].
  destruct (_ && _); [now apply handleerror_keeps_truthy|exact H].
Qed.

Lemma checkarticle_required r k :
  typ r = U "article" ->
  In k ["author"; "year"; "title"; "journal"; "volume"]%string ->
  truthy (getf k (checkarticle r)) = true.
Proof.
  intros Ht Hk.
  cbv beta iota delta [checkarticle addsortname].
  rewrite Ht. change (negb (Str.eqb (U "article") (U "article"))) with false.
  cbv iota zeta.
  apply requirepages_keeps_truthy, for_each_handleerror. now left.
Qed.

Lemma checkthesis_required r k :
  is_thesis_type (typ r) = true ->
  In k ["author"; "title"; "address"; "school"; "year"]%string
  \/ (typ r = U "thesis" /\ k = "type"%string) ->
  truthy (getf k (checkthesis r)) = true.
Proof.
  intros Ht Hk.
  cbv beta iota delta [checkthesis addsortname].
  rewrite Ht. cbn [negb]. cbv iota zeta.
  match goal with
  | |- context [for_each ?ms handleerror ?x] =>
    set (x1 := for_each ms handleerror x);
      assert (H1 : In k ms -> truthy (getf k x1) = true)
        by (intros Hin; apply for_each_handleerror; now left)
  end.
  assert (Hty : typ x1 = typ r).
  { subst x1. cbv beta iota delta [for_each fold_left].
    match goal with
    | |- typ ?y = typ ?x =>
      assert (Hto : touches ["school"; "institution"; "address"; "author";
                             "title"; "year"]%string x y) by touch
    end.
    exact (t_typ _ _ _ Hto). }
  clearbody x1.
  assert (H2 : truthy (getf k (if Str.eqb (typ x1) (U "thesis")
                               then handleerror "type" x1 else x1)) = true).
  { destruct Hk as [Hk|[Hk ->]].
    - destruct (Str.eqb (typ x1) (U "thesis")); auto.
      apply handleerror_keeps_truthy; auto.
    - rewrite Hty, Hk. change (Str.eqb (U "thesis") (U "thesis")) with true.
      cbv iota. apply handleerror_sets. }
  destruct (getf "type" _) as [[|c t]|]; try exact H2.
  destruct (is_some _); exact H2.
Qed.

Lemma checkbook_required r k :
  typ r = U "book" ->
  In k ["year"; "title"; "address"; "publisher"]%string ->
  truthy (getf k (checkbook r)) = true.
Proof.
  intros Ht Hk.
  cbv beta iota delta [checkbook addsortname].
  rewrite Ht. change (negb (Str.eqb (U "book") (U "book"))) with false.
  cbv iota zeta.
  match goal with
  | |- context [for_each ?ms handleerror ?x] =>
    set (x1 := for_each ms handleerror x);
      assert (H1 : truthy (getf k x1) = true)
        by (apply for_each_handleerror; now left);
      clearbody x1
  end.
  match goal with
  | |- context [match getf "series" x1 with _ => _ end] =>
    set (x2 := match getf "series" x1 with Some _ => _ | None => _ end)
  end.
  assert (H2 : truthy (getf k x2) = true).
  { apply (touches_truthy ["volume"; "number"]%string x1); [| |exact H1].
    - subst x2. touch.
    - simpl in Hk. intros [E|[E|[]]];
        repeat (destruct Hk as [Hk|Hk]; [congruence|]); exact Hk. }
  clearbody x2.
  match goal with
  | |- context [if truthy ?a && truthy ?e then ?p else ?q] =>
    set (x3 := if truthy a && truthy e then p else q)
  end.
  assert (H3 : truthy (getf k x3) = true).
  { subst x3. destruct (_ && _); [exact H2|].
    destruct (_ || _); [exact H2|].
    apply handleerror_keeps_truthy. exact H2. }
  clearbody x3.
  destruct (is_real_value _); exact H3.
Qed.

Lemma checkpublisheraddress_keeps r k :
  ~ In k ["publisher"; "address"]%string ->
  getf k (checkpublisheraddress r) = getf k r.
Proof. intros H. exact (t_fields _ _ _ (checkpublisheraddress_touches r) k H). Qed.

Lemma author_title_after (x : record) k :
  In k ["author"; "title"]%string ->
  truthy (getf k (handleerror "title" (handleerror "author" x))) = true.
Proof.
  intros [<-|[<-|[]]].
  - apply handleerror_keeps_truthy, handleerror_sets.
  - apply handleerror_sets.
Qed.

Lemma fold_handleerror_keeps ms : forall r k,
  truthy (getf k r) = true ->
  truthy (getf k (for_each ms handleerror r)) = true.
Proof. intros r k H. apply for_each_handleerror. now right. Qed.

Lemma checkincollection_required r k :
  typ r = U "incollection" ->
  In k ["author"; "title"]%string ->
  truthy (getf k (checkincollection r)) = true.
Proof.
  intros Ht Hk.
  cbv beta iota delta [checkincollection addsortname].
  rewrite Ht.
  change (negb (Str.eqb (U "incollection") (U "incollection"))) with false.
  cbv iota zeta.
  pose proof (author_title_after (checkpublisheraddress r) k Hk) as H0.
  apply requirepages_keeps_truthy in H0.
  set (x := requirepages _) in *. clearbody x.
  assert (H1 : forall c e, truthy (getf k (if c : bool then err e x else x)) = true)
    by (intros [|] e; exact H0).
  set (y := if is_some _ then err _ x else x) in *.
  assert (Hy : truthy (getf k y) = true) by apply H1.
  clearbody y.
  destruct (hasf "crossref" x); [exact Hy|].
  apply (handleerror_keeps_truthy "year") in Hy.
  destruct (nonempty _); [destruct (negb _)|];
    try apply fold_handleerror_keeps; exact Hy.
Qed.

Lemma checkinproceedings_required r k :
  typ r = U "inproceedings" ->
  In k ["author"; "title"]%string ->
  truthy (getf k (checkinproceedings r)) = true.
Proof.
  intros Ht Hk.
  cbv beta iota delta [checkinproceedings addsortname].
  rewrite Ht.
  change (negb (Str.eqb (U "inproceedings") (U "inproceedings"))) with false.
  cbv iota zeta.
  pose proof (author_title_after (checkpublisheraddress r) k Hk) as H0.
  apply requirepages_keeps_truthy in H0.
  set (x := requirepages _) in *. clearbody x.
  destruct (negb _); [|exact H0].
  now apply handleerror_keeps_truthy, handleerror_keeps_truthy.
Qed.

Lemma checkinbook_required r k :
  typ r = U "inbook" ->
  In k ["author"; "title"]%string ->
  truthy (getf k (checkinbook r)) = true.
Proof.
  intros Ht Hk.
  cbv beta iota delta [checkinbook addsortname].
  rewrite Ht. change (negb (Str.eqb (U "inbook") (U "inbook"))) with false.
  cbv iota zeta.
  pose proof (author_title_after (checkpublisheraddress r) k Hk) as H0.
  set (x := handleerror "title" _) in *. clearbody x.
  match goal with
  | |- context [if ?c then handleerror "pages" ?p else x] =>
    set (y := if c then handleerror "pages" p else x)
  end.
  assert (Hy : truthy (getf k y) = true).
  { subst y. destruct (_ && _); [|exact H0].
    now apply handleerror_keeps_truthy, handleerror_keeps_truthy. }
  clearbody y.
  destruct (hasf "crossref" y); [exact Hy|].
  apply fold_handleerror_keeps.
  apply (handleerror_keeps_truthy "year") in Hy.
  apply (handleerror_keeps_truthy "booktitle") in Hy.
  set (z := handleerror "booktitle" _) in *. clearbody z.
  destruct (_ && _); [exact Hy|].
  destruct (_ && _); [exact Hy|].
  destruct (_ && _); [|exact Hy].
  now apply handleerror_keeps_truthy.
Qed.

Lemma checkmisc_required r k :
  typ r = U "misc" ->
  In k ["author"; "title"; "year"]%string ->
  truthy (getf k (checkmisc r)) = true.
Proof.
  intros Ht Hk.
  cbv beta iota delta [checkmisc].
  rewrite Ht. change (negb (Str.eqb (U "misc") (U "misc"))) with false.
  cbv iota zeta.
  assert (H : truthy (getf k (for_each ["author"; "title"; "year"]%string
                                       handleerror r)) = true)
    by (apply for_each_handleerror; now left).
  set (x := for_each _ handleerror r) in *. clearbody x.
  destruct (getf "note" x); [exact H|].
  destruct (getf "howpublished" x); exact H.
Qed.

Lemma checkothertype_required r k :
  existsb (Str.eqb (typ r)) known_types = false ->
  In k ["author"; "title"; "year"]%string ->
  truthy (getf k (checkothertype r)) = true.
Proof.
  intros Ht Hk.
  cbv beta iota delta [checkothertype addsortname].
  rewrite Ht. cbv iota zeta.
  rewrite checkpublisheraddress_keeps.
  - apply for_each_handleerror. now left.
  - simpl in Hk. intros [E|[E|[]]];
      repeat (destruct Hk as [Hk|Hk]; [congruence|]); exact Hk.
Qed.

Lemma serial_checks_typ nouns r : typ (serial_checks nouns r) = typ r.
Proof. exact (t_typ _ _ _ (serial_checks_touches nouns r)). Qed.

(** X10.  After [conform] no mandatory field is empty: for every pair of
    [required_fields] whose type is the type of the record, the field holds
    a value or the marker of [handleerror]; a record of a type outside the
    known ones has [author], [title] and [year]. *)
Theorem conform_fills_required nouns r k :
  In (typ r, k) required_fields
  \/ (existsb (Str.eqb (typ r)) known_types = false
      /\ In k ["author"; "title"; "year"]%string) ->
  truthy (getf k (conform nouns r)) = true.
Proof.
  intros H. rewrite conform_eq, type_checks_by_type.
  rewrite serial_checks_typ.
  set (x := serial_checks nouns r).
  assert (Hx : typ x = typ r) by apply serial_checks_typ.
  clearbody x.
  destruct H as [H|[H1 H2]].
  - unfold required_fields in H. cbn [In] in H.
    repeat (destruct H as [H|H];
            [injection H as Ht <-; rewrite <- Ht;
             rewrite <- Ht in Hx; unfold is_thesis_type;
             repeat match goal with
                    | |- context [Str.eqb (U ?a) (U ?b)] =>
                      let v := eval vm_compute in (Str.eqb (U a) (U b)) in
                      change (Str.eqb (U a) (U b)) with v
                    end;
             cbv iota; cbn [orb]; cbv iota;
             first [ apply checkarticle_required; [exact Hx|in_keys]
                   | apply checkthesis_required;
                     [rewrite Hx; reflexivity
                     |first [solve [left; in_keys]|right; split; [exact Hx|reflexivity]]]
                   | apply checkbook_required; [exact Hx|in_keys]
                   | apply checkincollection_required; [exact Hx|in_keys]
                   | apply checkinproceedings_required; [exact Hx|in_keys]
                   | apply checkinbook_required; [exact Hx|in_keys]
                   | apply checkmisc_required; [exact Hx|in_keys] ]|]).
    contradiction.
  - assert (E : forall t, In t known_types -> Str.eqb (typ r) t = false).
    { intros t Ht. destruct (Str.eqb (typ r) t) eqn:E; [|reflexivity].
      rewrite <- H1. symmetry. apply existsb_exists. eauto. }
    unfold is_thesis_type.
    rewrite !E by (unfold known_types; in_keys). cbn [orb].
    apply checkothertype_required; [now rewrite Hx|exact H2].
Qed.

Lemma conform_fills_required_witness :
  (In (typ isbn_entry, "publisher"%string) required_fields
   \/ (existsb (Str.eqb (typ isbn_entry)) known_types = false
       /\ In "publisher"%string ["author"; "title"; "year"]%string))
  /\ truthy (getf "publisher" (conform sample_nouns isbn_entry)) = true.
Proof.
  assert (H : In (typ isbn_entry, "publisher"%string) required_fields
              \/ (existsb (Str.eqb (typ isbn_entry)) known_types = false
                  /\ In "publisher"%string ["author"; "title"; "year"]%string)).
  { left. unfold required_fields. cbn [typ isbn_entry setf set_fields set_typ].
    in_keys. }
  split; [exact H|].
  exact (conform_fills_required sample_nouns isbn_entry "publisher" H).
Defined.

(** ** The rendered entry *)

Lemma StronglySorted_filter {A : Type} (R : A -> A -> Prop) (p : A -> bool) l :
  StronglySorted R l -> StronglySorted R (filter p l).
Proof.
  induction 1 as [|x l Hs IH Hx]; simpl; [constructor|].
  destruct (p x); [|exact IH].
  constructor; [exact IH|].
  apply Forall_forall. intros y Hy. apply filter_In in Hy as [Hy _].
  exact (proj1 (Forall_forall _ _) Hx y Hy).
Qed.

(** The names of two field lines are in order: the second one is not
    before the first. *)
Definition name_le (a b : pystr * pystr) : Prop :=
  Str.ltb (fst b) (fst a) = false.


(** The key of the record is among the keys to include. *)
Definition key_included (r : record) : bool :=
  match key r with
  | Some k => existsb (Str.eqb k) (inkeysd r)
  | None => false
  end.

(** X12.  [bibtex] returns the empty text for a record that failed to
    parse and for a record that the restriction to [inkeysd] leaves out, and
    for no other record. *)
Theorem bibtex_empty_iff r :
  bibtex r = []
  <-> parsing_failed r = true \/ (restrict r = true /\ key_included r = false).
Proof.
  unfold bibtex, key_included.
  destruct (parsing_failed r); [tauto|].
  destruct (restrict r); cbn [andb].
  - destruct (match key r with Some k => _ | None => false end); cbn [negb].
    + split; [discriminate|]. intros [H|[_ H]]; discriminate.
    + tauto.
  - split; [discriminate|]. intros [H|[H _]]; discriminate.
Qed.

(** ** The batch *)

(** X13.  A document that is blank gives the empty output in both modes
    and leaves the registry alone. *)
Theorem normalize_blank nouns s inkeysd rs bibtexformat keys :
  strip s = [] ->
  normalize nouns s inkeysd rs bibtexformat keys = (inr [], keys).
Proof.
  intros H. unfold normalize. rewrite H. destruct bibtexformat; reflexivity.
Qed.

Lemma normalize_blank_witness :
  strip (U "  " ++ [NL; TAB] ++ U " ") = []
  /\ normalize sample_nouns (U "  " ++ [NL; TAB] ++ U " ") [] false true []
     = (inr [], []).
Proof.
  assert (H : strip (U "  " ++ [NL; TAB] ++ U " ") = []) by reflexivity.
  split; [exact H|].
  exact (normalize_blank sample_nouns _ [] false true [] H).
Defined.

Lemma parse_bibtex_raw s r keys :
  raw_entry (fst (parse_bibtex s r keys)) = raw_entry r.
Proof.
  unfold parse_bibtex.
  destruct (rmatch_at bibpatterns.TYPKEYFIELDS s); [|reflexivity].
  cbv zeta. destruct (negb _); [reflexivity|].
  simpl. destruct (parse_lines _); destruct (Dict.mem _ _); reflexivity.
Qed.

Lemma parse_natural_raw s r r' :
  parse_natural s r = inr r' -> raw_entry r' = raw_entry r.
Proof.
  unfold parse_natural. cbv zeta.
  destruct (negb _); [intros H; injection H as <-; reflexivity|].
  destruct (grammars _) as [e|[t d]]; [discriminate|].
  simpl. intros H; injection H as <-. reflexivity.
Qed.

Lemma Record_raw nouns s bibtexformat inkeysd rs keys r keys' :
  Record nouns s bibtexformat inkeysd rs keys = (inr r, keys') ->
  raw_entry r = s.
Proof.
  unfold Record. destruct bibtexformat.
  - pose proof (parse_bibtex_raw s (new_record s inkeysd rs) keys) as H.
    destruct (parse_bibtex _ _ _) as [r0 k0]. simpl in H.
    intros E; injection E as <- _.
    destruct (parsing_failed r0); [exact H|].
    rewrite (t_raw _ _ _ (conform_touches nouns r0)). exact H.
  - destruct (parse_natural _ _) as [e|r0] eqn:E0; [discriminate|].
    apply parse_natural_raw in E0. simpl in E0.
    intros E; injection E as <- _.
    destruct (parsing_failed r0); [exact E0|].
    rewrite (t_raw _ _ _ (conform_touches nouns r0)). exact E0.
Qed.

(** X14.  When the loop over the entries ends without an exception, it has
    made one record per entry, in the order of the input, and each record
    holds the text of its entry as it was read: the block of the entries
    that failed to parse shows them unchanged. *)
Theorem process_entries_raw nouns entries bibtexformat inkeysd rs keys
        processed keys' :
  process_entries nouns entries bibtexformat inkeysd rs keys
  = (inr processed, keys') ->
  map raw_entry processed = entries.
Proof.
  revert keys processed keys'.
  induction entries as [|e es IH]; intros keys processed keys'; simpl.
  - intros H; injection H as <- _. reflexivity.
  - destruct (Record _ _ _ _ _ _) as [[x|r] k1] eqn:E1; [discriminate|].
    destruct (process_entries _ _ _ _ _ _) as [[x|rs'] k2] eqn:E2;
      [discriminate|].
    intros H; injection H as <- _. simpl. f_equal.
    + eapply Record_raw; eauto.
    + eapply IH; eauto.
Qed.

Lemma process_entries_raw_witness :
  exists processed keys',
    process_entries sample_nouns [entry_a; U "broken"] true [] false []
    = (inr processed, keys')
    /\ map raw_entry processed = [entry_a; U "broken"].
Proof.
  do 2 eexists.
  assert (H : process_entries sample_nouns [entry_a; U "broken"] true []
                              false []
              = (inr _, _)) by (vm_compute; reflexivity).
  split; [exact H|].
  exact (process_entries_raw sample_nouns _ true [] false [] _ _ H).
Defined.

(** ** Months and editions *)

Lemma eqb_add_braces_empty s :
  Str.eqb (add_braces s) (U "{}") = Str.eqb s [].
Proof.
  destruct s as [|c s]; [reflexivity|].
  unfold add_braces. cbn -[N.eqb].
  destruct s; cbn -[N.eqb]; now rewrite andb_false_r.
Qed.

Lemma contains_brace_add_braces s : contains (U "{") (add_braces s) = true.
Proof. reflexivity. Qed.

(** X15.  The month check leaves the field [month] absent, or empty as it
    was, or holding a brace pair around a text that [int] reads as a number
    from 1 to 12. *)
Theorem checkmonth_result r :
  getf "month" (checkmonth r) = None
  \/ getf "month" (checkmonth r) = Some []
  \/ exists c n,
       getf "month" (checkmonth r) = Some (add_braces c)
       /\ py_int c = Some n /\ (1 <= n <= 12)%Z.
Proof.
  unfold checkmonth.
  destruct (getf "month" r) as [[|c v]|] eqn:E; [right; left; exact E| |now left].
  destruct (Str.eqb (c :: v) (U "{}")); [left; apply getf_delf_same|].
  cbv zeta.
  match goal with
  | |- context [py_int ?x] => set (cleaned := x)
  end.
  destruct (py_int cleaned) as [n|] eqn:P; [|left; apply getf_delf_same].
  destruct ((1 <=? n) && (n <=? 12))%Z eqn:R; [|left; apply getf_delf_same].
  right. right. exists cleaned, n. rewrite getf_setf_same.
  apply andb_prop in R as [R1 R2]. apply Z.leb_le in R1, R2. auto.
Qed.

(** X16.  The table of month names: a [month] field that holds, in braces
    and in any letter case, a name or an abbreviation of [month_map] is
    rewritten to the number of the month in braces, with no diagnostic. *)
Theorem checkmonth_names r v name n :
  In (name, n) month_map ->
  lower v = name ->
  getf "month" r = Some (add_braces v) ->
  checkmonth r = setf "month" (add_braces (str_of_N n)) r.
Proof.
  intros Hin Hl Hg. unfold checkmonth. rewrite Hg.
  assert (Hv : Str.eqb v [] = false).
  { destruct v; [|reflexivity]. subst name. exfalso.
    unfold month_map in Hin. cbn [In] in Hin.
    repeat (destruct Hin as [Hin|Hin]; [discriminate|]). exact Hin. }
  pose proof (eqb_add_braces_empty v) as He. rewrite Hv in He.
  remember (add_braces v) as raw eqn:Hr.
  destruct raw as [|c raw']; [discriminate Hr|].
  cbv beta iota zeta. rewrite He, Hr.
  rewrite contains_brace_add_braces, trim_braces_add_braces, Hl.
  unfold month_map in Hin. cbn [In] in Hin.
  repeat (destruct Hin as [Hin|Hin];
          [injection Hin as <- <-; vm_compute; reflexivity|]).
  contradiction.
Qed.

Lemma checkmonth_names_witness :
  In (U "march", 3) month_map
  /\ lower (U "March") = U "march"
  /\ getf "month" (setf "month" (U "{March}") isbn_entry)
     = Some (add_braces (U "March"))
  /\ checkmonth (setf "month" (U "{March}") isbn_entry)
     = setf "month" (add_braces (str_of_N 3))
            (setf "month" (U "{March}") isbn_entry).
Proof.
  assert (H1 : In (U "march", 3) month_map)
    by (unfold month_map; cbn [In]; repeat first [left; reflexivity|right]).
  assert (H2 : lower (U "March") = U "march") by reflexivity.
  assert (H3 : getf "month" (setf "month" (U "{March}") isbn_entry)
               = Some (add_braces (U "March"))) by reflexivity.
  split; [exact H1|]. split; [exact H2|]. split; [exact H3|].
  exact (checkmonth_names _ _ _ _ H1 H2 H3).
Defined.

(** X17.  The table of ordinals: an [edition] field that holds, in braces
    and in any letter case, an ordinal of [ordinal_map], alone or followed
    by one of the words of [edition_keywords], is rewritten to its numeral
    in braces, with no diagnostic. *)
Theorem checkedition_ordinals r v w n suffix :
  In (w, n) ordinal_map ->
  suffix = [] \/ (exists kw, In kw edition_keywords /\ suffix = U " " ++ kw) ->
  lower v = w ++ suffix ->
  getf "edition" r = Some (add_braces v) ->
  checkedition r = setf "edition" (add_braces n) r.
Proof.
  intros Hin Hs Hl Hg. unfold checkedition. rewrite Hg.
  remember (add_braces v) as raw eqn:Hr.
  destruct raw as [|c raw']; [discriminate Hr|].
  cbv beta iota zeta. rewrite Hr, trim_braces_add_braces, Hl.
  unfold ordinal_map in Hin. cbn [In] in Hin.
  destruct Hs as [->|(kw & Hk & ->)].
  - repeat (destruct Hin as [Hin|Hin];
            [injection Hin as <- <-; vm_compute; reflexivity|]).
    contradiction.
  - unfold edition_keywords in Hk. cbn [In] in Hk.
    repeat (destruct Hk as [Hk|Hk];
            [subst kw;
             repeat (destruct Hin as [Hin|Hin];
                     [injection Hin as <- <-; vm_compute; reflexivity|]);
             contradiction|]).
    contradiction.
Qed.

Lemma checkedition_ordinals_witness :
  In (U "2nd", U "2") ordinal_map
  /\ (U " edn." = []
      \/ exists kw, In kw edition_keywords /\ U " edn." = U " " ++ kw)
  /\ lower (U "2nd Edn.") = U "2nd" ++ U " edn."
  /\ getf "edition" (setf "edition" (U "{2nd Edn.}") isbn_entry)
     = Some (add_braces (U "2nd Edn."))
  /\ checkedition (setf "edition" (U "{2nd Edn.}") isbn_entry)
     = setf "edition" (add_braces (U "2"))
            (setf "edition" (U "{2nd Edn.}") isbn_entry).
Proof.
  assert (H1 : In (U "2nd", U "2") ordinal_map)
    by (unfold ordinal_map; cbn [In]; repeat first [left; reflexivity|right]).
  assert (H2 : U " edn." = []
               \/ exists kw, In kw edition_keywords /\ U " edn." = U " " ++ kw).
  { right. exists (U "edn."). split; [|reflexivity].
    unfold edition_keywords; cbn [In]; repeat first [left; reflexivity|right]. }
  assert (H3 : lower (U "2nd Edn.") = U "2nd" ++ U " edn.") by reflexivity.
  assert (H4 : getf "edition" (setf "edition" (U "{2nd Edn.}") isbn_entry)
               = Some (add_braces (U "2nd Edn."))) by reflexivity.
  split; [exact H1|]. split; [exact H2|]. split; [exact H3|]. split; [exact H4|].
  exact (checkedition_ordinals _ _ _ _ _ H1 H2 H3 H4).
Defined.

(** ** The month check is idempotent *)

Lemma lower_c_idem c : lower_c (lower_c c) = lower_c c.
Proof.
  unfold lower_c. destruct (is_upper c) eqn:E; [|now rewrite E].
  unfold is_upper in *. apply andb_prop in E as [E1 E2].
  apply N.leb_le in E1, E2.
  destruct ((65 <=? c + 32) && (c + 32 <=? 90)) eqn:F; [|reflexivity].
  apply andb_prop in F as [F1 F2]. apply N.leb_le in F1, F2. lia.
Qed.

Lemma lower_idem s : lower (lower s) = lower s.
Proof.
  unfold lower. rewrite map_map. apply map_ext. intros c. apply lower_c_idem.
Qed.

Lemma lower_drop1 s : lower (drop 1 (lower s)) = drop 1 (lower s).
Proof.
  destruct s as [|c s]; [reflexivity|]. simpl drop.
  change (lower (c :: s)) with (lower_c c :: lower s). simpl drop.
  apply lower_idem.
Qed.

Lemma checkmonth_absent r :
  truthy (getf "month" r) = false -> checkmonth r = r.
Proof.
  intros H. unfold checkmonth. now destruct (getf "month" r) as [[|c v]|].
Qed.

(** The text that the month check stores: lower case, no leading zero of
    a two-digit month, no name of a month. *)
Definition month_text (c : pystr) : Prop :=
  lower c = c
  /\ startswith (U "0") c && Nat.eqb (List.length c) 2 = false
  /\ Dict.get c month_map = None.

Lemma month_text_number k c :
  In (c, k) month_map -> month_text (str_of_N k).
Proof.
  intros H. unfold month_map in H. cbn [In] in H.
  repeat (destruct H as [H|H];
          [injection H as <- <-; repeat split; vm_compute; reflexivity|]).
  contradiction.
Qed.

Lemma checkmonth_stored r c n :
  month_text c -> py_int c = Some n -> (1 <=? n)%Z && (n <=? 12)%Z = true ->
  checkmonth (setf "month" (add_braces c) r) = setf "month" (add_braces c) r.
Proof.
  intros (L1 & L2 & L3) P R.
  assert (Hc : Str.eqb c [] = false) by (destruct c; [discriminate P|reflexivity]).
  unfold checkmonth. rewrite getf_setf_same.
  pose proof (eqb_add_braces_empty c) as He. rewrite Hc in He.
  remember (add_braces c) as raw eqn:Hr.
  destruct raw as [|x raw']; [discriminate Hr|].
  cbv beta iota zeta. rewrite He, Hr.
  rewrite contains_brace_add_braces, trim_braces_add_braces, L1, L2, L3, P, R.
  apply setf_setf.
Qed.

(** X18.  The month check is idempotent: checking the month of a checked
    record changes nothing, neither the field nor the diagnostics. *)
Theorem checkmonth_idempotent r : checkmonth (checkmonth r) = checkmonth r.
Proof.
  destruct (truthy (getf "month" r)) eqn:T;
    [|now rewrite !(checkmonth_absent r T)].
  unfold checkmonth at 2 3.
  destruct (getf "month" r) as [[|c v]|]; try discriminate T.
  destruct (Str.eqb (c :: v) (U "{}"));
    [apply checkmonth_absent; now rewrite getf_delf_same|].
  cbv zeta.
  set (c0 := lower (if contains (U "{") (c :: v) then trim_braces (c :: v)
                    else c :: v)).
  set (c1 := if startswith (U "0") c0 && Nat.eqb (List.length c0) 2
             then drop 1 c0 else c0).
  set (cleaned := match Dict.get c1 month_map with
                  | Some n => str_of_N n
                  | None => c1
                  end).
  assert (M : month_text cleaned).
  { subst cleaned. destruct (Dict.get c1 month_map) as [k|] eqn:G.
    - apply get_In in G. eapply month_text_number; eauto.
    - split; [|split; [|exact G]].
      + subst c1 c0. destruct (_ && _); [apply lower_drop1|apply lower_idem].
      + subst c1.
        destruct (startswith (U "0") c0 && Nat.eqb (List.length c0) 2) eqn:E;
          [|exact E].
        apply andb_prop in E as [_ E]. apply Nat.eqb_eq in E.
        destruct c0 as [|a [|b [|? ?]]]; try discriminate E.
        simpl. apply andb_false_r. }
  clearbody cleaned.
  destruct (py_int cleaned) as [n|] eqn:P;
    [|apply checkmonth_absent; now rewrite getf_delf_same].
  destruct ((1 <=? n)%Z && (n <=? 12)%Z) eqn:R;
    [|apply checkmonth_absent; now rewrite getf_delf_same].
  eapply checkmonth_stored; eauto.
Qed.

(** ** Groups of a match, and the access date of a URL *)

(** The highest group number of a pattern. *)
Fixpoint max_group (r : re) : nat :=
  match r with
  | RSeq a b | RAlt a b => Nat.max (max_group a) (max_group b)
  | RRep r0 _ _ _ | RLookahead _ r0 => max_group r0
  | RGroup n r0 => Nat.max n (max_group r0)
  | _ => O
  end.

Definition caps_le (n : nat) (cs : caps) : Prop :=
  Forall (fun c => (fst c <= n)%nat) cs.

Definition result_le (n : nat) (x : option result) : Prop :=
  match x with
  | Some (_, _, _, cs) => caps_le n cs
  | None => True
  end.

Definition cont_le (n : nat) (k : cont) : Prop :=
  forall p q t c, caps_le n c -> result_le n (k p q t c).

Lemma rep_loop_le n body greedy k :
  (forall p q t c k', cont_le n k' -> caps_le n c ->
                      result_le n (body p q t c k')) ->
  cont_le n k ->
  forall fuel mn mx, cont_le n (rep_loop body greedy k fuel mn mx).
Proof.
  intros Hb Hk. induction fuel as [|f IH]; intros mn mx p q t c Hc.
  - exact I.
  - cbn [rep_loop].
    assert (Hmore : result_le n
              match mx with
              | Some O => None
              | _ => body p q t c
                          (rep_loop body greedy k f (Nat.pred mn)
                                    (option_map Nat.pred mx))
              end).
    { destruct mx as [[|m]|]; [exact I| |]; apply Hb; auto. }
    destruct mn; [|exact Hmore].
    destruct greedy.
    + destruct (match mx with Some O => None | _ => _ end); [exact Hmore|].
      now apply Hk.
    + pose proof (Hk p q t c Hc) as Hk'.
      destruct (k p q t c); [exact Hk'|exact Hmore].
Qed.

Lemma run_le icase bound n r :
  (max_group r <= n)%nat ->
  forall p q t c k, cont_le n k -> caps_le n c ->
                    result_le n (run icase bound r p q t c k).
Proof.
  induction r as [|neg items|a IHa b IHb|a IHa b IHb|r0 IH mn mx g|m r0 IH
                  | | | |neg r0 IH|neg sn items];
    intros Hm p q t c k Hk Hc; cbn [run]; cbn [max_group] in Hm.
  - now apply Hk.
  - destruct t as [|x t]; [exact I|]. destruct (set_match _ _ _ _); [|exact I].
    now apply Hk.
  - apply IHa; [lia| |exact Hc]. intros p' q' t' c' Hc'. apply IHb; auto. lia.
  - pose proof (IHa ltac:(lia) p q t c k Hk Hc) as Ha.
    destruct (run icase bound a p q t c k); [exact Ha|].
    apply IHb; auto. lia.
  - apply rep_loop_le; [|exact Hk|exact Hc].
    intros p' q' t' c' k' Hk' Hc'. now apply IH.
  - apply IH; [lia| |exact Hc]. intros p' q' t' c' Hc'. apply Hk.
    constructor; [simpl; lia|exact Hc'].
  - destruct (p =? 0); [now apply Hk|exact I].
  - destruct t as [|x [|y t]]; [now apply Hk| |exact I].
    destruct (x =? NL); [now apply Hk|exact I].
  - destruct (xorb _ _); [now apply Hk|exact I].
  - pose proof (IH Hm p q t c (fun p q t c => Some (p, q, t, c))
                   ltac:(intros ? ? ? ? H; exact H) Hc) as Hl.
    destruct (run icase bound r0 p q t c _) as [[[[? ?] ?] cs']|].
    + destruct neg; [exact I|now apply Hk].
    + destruct neg; [now apply Hk|exact I].
  - cbv zeta. destruct (xorb _ _); [now apply Hk|exact I].
Qed.

Lemma scan_le rx bound subject s : forall pos prev m,
  scan rx bound subject pos prev s = Some m ->
  caps_le (max_group (rx_ast rx)) (m_caps m).
Proof.
  induction s as [|x s IH]; intros pos prev m; cbn [scan];
    pose proof (run_le (rx_icase rx) bound (max_group (rx_ast rx)) (rx_ast rx)
                       (Nat.le_refl _) pos prev) as Hr.
  - specialize (Hr [] [] accept ltac:(intros ? ? ? ? H; exact H)
                   ltac:(constructor)).
    destruct (run _ _ _ _ _ _ _ _) as [[[[e ?] ?] cs]|]; [|discriminate].
    intros H; injection H as <-. exact Hr.
  - specialize (Hr (x :: s) [] accept ltac:(intros ? ? ? ? H; exact H)
                   ltac:(constructor)).
    destruct (run _ _ _ _ _ _ _ _) as [[[[e ?] ?] cs]|]; [|apply IH].
    intros H; injection H as <-. exact Hr.
Qed.

Lemma lastindex_le n cs :
  caps_le n cs -> forall a, (a <= n)%nat ->
  (fold_left (fun acc c => Nat.max acc (fst c)) cs a <= n)%nat.
Proof.
  induction 1 as [|c cs Hc _ IH]; intros a Ha; simpl; [exact Ha|].
  apply IH. lia.
Qed.

(** No match has a group beyond the groups of its pattern:
    [lastindex] of a match found by [search] is at most the highest group
    number of the pattern. *)
Lemma search_lastindex rx s m :
  search rx s = Some m -> (lastindex m <= max_group (rx_ast rx))%nat.
Proof.
  intros H. unfold lastindex. apply lastindex_le; [|lia].
  exact (scan_le rx _ s s 0 None m H).
Qed.

(** The fields that [checkurl] may write. *)
Definition url_written : list string :=
  ["url"; "handle"; "stableurl"; "opturl"; "doi"]%string.

Lemma checkurl_space_written r0 url r :
  touches url_written r0 r ->
  match checkurl_space url r with
  | inl r' => touches url_written r0 r'
  | inr (_, r') => touches url_written r0 r'
  end.
Proof.
  intros H. cbv beta iota delta [checkurl_space]. cbv zeta.
  destruct (Nat.ltb 0 (count (U " ") url)); [|exact H].
  assert (H1 : touches url_written r0 (err (U "space in url") r))
    by (apply touches_err; exact H).
  assert (H2 : match search bibpatterns.URL_RE url with
               | Some m' => touches url_written r0 (err (U "space in url") r)
               | None =>
                 touches url_written r0
                   (setf "url" (U "{\biberror{remove space and check url: "
                                ++ url ++ U "}}")
                         (err (U "url has space and nothing url-like: " ++ url)
                              (err (U "space in url") r)))
               end).
  { destruct (search bibpatterns.URL_RE url); [exact H1|].
    apply touches_setf; [unfold url_written; in_keys|].
    apply touches_err. exact H1. }
  destruct (search bibpatterns.URL_URLDATE_RE url) as [m|] eqn:E.
  - pose proof (search_lastindex _ _ _ E) as Hl.
    change (max_group (rx_ast bibpatterns.URL_URLDATE_RE)) with 1%nat in Hl.
    destruct (Nat.leb 2 (lastindex m)) eqn:L; [apply Nat.leb_le in L; lia|].
    destruct (search bibpatterns.URL_RE url); exact H2.
  - destruct (search bibpatterns.URL_RE url); exact H2.
Qed.

Lemma checkurl_find_written r0 r :
  touches url_written r0 r ->
  match checkurl_find r with
  | inl r' => touches url_written r0 r'
  | inr r' => touches url_written r0 r'
  end.
Proof.
  intros H. cbv beta iota delta [checkurl_find for_each url_written fold_left].
  cbv zeta. repeat destruct_inner; touch; exact H.
Qed.

Lemma checkurl_whitelist_written r0 url r :
  touches url_written r0 r ->
  match checkurl_whitelist url r with
  | inl r' => touches url_written r0 r'
  | inr r' => touches url_written r0 r'
  end.
Proof.
  intros H. cbv beta iota delta [checkurl_whitelist url_written].
  cbv zeta. repeat destruct_inner; touch; exact H.
Qed.

Lemma checkurl_tail_written url r : touches url_written r (checkurl_tail url r).
Proof.
  cbv beta iota delta [checkurl_tail].
  destruct (fullmatch bibpatterns.DOI_RE url); [unfold url_written; touch|].
  cbv zeta. cbv beta iota delta [for_each].
  match goal with
  | |- context [fold_left ?f ?l ?x] =>
    assert (H : touches url_written r (fold_left f l x))
  end.
  { eapply touches_weaken;
      [|apply (fold_err_touches (fun n => contains n url))].
    intros a []. }
  destruct (nonempty url); [|exact H].
  apply touches_setf; [unfold url_written; in_keys|exact H].
Qed.

Lemma checkurl_value_written b r : touches url_written r (checkurl_value b r).
Proof.
  cbv beta iota delta [checkurl_value]. cbv zeta.
  set (url := if endswith (U ".") (trim_braces b)
              then drop_last (trim_braces b)
              else trim_braces b).
  destruct (negb (nonempty url)); [unfold url_written; touch|].
  destruct (startswith (U "file:") url); [unfold url_written; touch|].
  set (r1 := if negb (startswith (U "http") url) then _ else r).
  assert (H1 : touches url_written r r1) by (subst r1; touch).
  pose proof (checkurl_space_written r url r1 H1) as H2.
  destruct (checkurl_space url r1) as [r'|[url' r2]]; [exact H2|].
  set (r3 := if Nat.ltb 0 (count (U ",") url') then _ else r2).
  assert (H3 : touches url_written r r3) by (subst r3; touch; exact H2).
  pose proof (checkurl_whitelist_written r url' r3 H3) as H4.
  destruct (checkurl_whitelist url' r3) as [r'|r4]; [exact H4|].
  eapply touches_trans; [exact H4|]. apply checkurl_tail_written.
Qed.

Lemma checkurl_main_written r : touches url_written r (checkurl_main r).
Proof.
  cbv beta iota delta [checkurl_main].
  destruct (getf "url" r) as [[|c b]|]; try apply touches_refl.
  apply checkurl_value_written.
Qed.

Lemma checkurl_written r : touches url_written r (checkurl r).
Proof.
  cbv beta iota delta [checkurl].
  destruct (truthy (getf "url" r)); [apply checkurl_main_written|].
  pose proof (checkurl_find_written r r (touches_refl _ _)) as H.
  destruct (checkurl_find r) as [r'|r']; [exact H|].
  eapply touches_trans; [exact H|]. apply checkurl_main_written.
Qed.

(** X19.  The URL check never writes the access date.  Its branch that
    splits a date off a URL with a space asks for a second group of a match
    of [URL_URLDATE_RE], and the pattern has one group: for every record,
    [urldate] is after [checkurl] what it was before. *)
Theorem checkurl_keeps_urldate r :
  getf "urldate" (checkurl r) = getf "urldate" r.
Proof.
  apply (t_fields _ _ _ (checkurl_written r)). unfold url_written.
  not_in_keys.
Qed.

(** ** Aliases, page fields, volume and number *)

(** The field aliases of [remap_fields], old name first. *)
Definition alias_pairs : list (string * string) :=
  [ ("location", "address"); ("date", "year"); ("journaltitle", "journal")
  ]%string.

Lemma remap_alias_new old new r :
  old <> new ->
  getf new (remap_alias old new r)
  = if is_real_value (getf new r) then getf new r
    else if is_real_value (getf old r) then getf old r
         else getf new r.
Proof.
  intros Hne. unfold remap_alias.
  destruct (is_real_value (getf old r)) eqn:Ho;
    destruct (is_real_value (getf new r)) eqn:Hn; cbn [negb]; try reflexivity.
  rewrite getf_delf_other, getf_err, getf_setf_same by exact Hne.
  destruct (getf old r); [reflexivity|discriminate].
Qed.

Lemma remap_alias_old old new r :
  old <> new ->
  getf old (remap_alias old new r)
  = if is_real_value (getf old r) && negb (is_real_value (getf new r))
    then None else getf old r.
Proof.
  intros Hne. unfold remap_alias.
  destruct (is_real_value (getf old r)) eqn:Ho;
    destruct (is_real_value (getf new r)) eqn:Hn; cbn [negb andb];
    try reflexivity.
  apply getf_delf_same.
Qed.

Lemma remap_alias_other old new k r :
  k <> old -> k <> new -> getf k (remap_alias old new r) = getf k r.
Proof.
  intros H1 H2. apply (t_fields _ _ _ (remap_alias_touches old new r)).
  intros [E|[E|[]]]; congruence.
Qed.

Lemma remap_fields_tail k (x : record) :
  k <> "booktitle"%string ->
  getf k (if Str.eqb (typ x) (U "inproceedings")
          then if is_real_value (getf "eventtitle" x)
                  && negb (is_real_value (getf "booktitle" x))
               then err (U "Remapped 'eventtitle' to 'booktitle'")
                        (setf "booktitle" (or_empty (getf "eventtitle" x)) x)
               else x
          else x)
  = getf k x.
Proof.
  intros H. destruct (Str.eqb _ _); [|reflexivity].
  destruct (_ && _); [|reflexivity].
  rewrite getf_err. apply getf_setf_other. congruence.
Qed.

(** X20.  The aliases of [remap_fields]: for each of the pairs
    location/address, date/year and journaltitle/journal, a real value of
    the new name is never overwritten; the value of the old name moves to
    the new name only when the new name holds no real value, and then the
    old name is removed; when both hold real values both stay. *)
Theorem remap_fields_aliases r old new :
  In (old, new) alias_pairs ->
  getf new (remap_fields r)
  = (if is_real_value (getf new r) then getf new r
     else if is_real_value (getf old r) then getf old r
          else getf new r)
  /\ getf old (remap_fields r)
     = (if is_real_value (getf old r) && negb (is_real_value (getf new r))
        then None else getf old r).
Proof.
  intros H. unfold alias_pairs in H. cbn [In] in H.
  cbv beta delta [remap_fields]. cbv zeta.
  destruct H as [H|[H|[H|[]]]]; injection H as <- <-;
    rewrite !remap_fields_tail by discriminate.
  - rewrite !(remap_alias_other "journaltitle" "journal") by discriminate.
    rewrite !(remap_alias_other "date" "year") by discriminate.
    split; [apply remap_alias_new|apply remap_alias_old]; discriminate.
  - rewrite !(remap_alias_other "journaltitle" "journal") by discriminate.
    rewrite remap_alias_new, remap_alias_old by discriminate.
    rewrite !(remap_alias_other "location" "address") by discriminate.
    split; reflexivity.
  - rewrite remap_alias_new, remap_alias_old by discriminate.
    rewrite !(remap_alias_other "date" "year") by discriminate.
    rewrite !(remap_alias_other "location" "address") by discriminate.
    split; reflexivity.
Qed.

Lemma remap_fields_aliases_witness :
  In ("journaltitle"%string, "journal"%string) alias_pairs
  /\ getf "journal"
          (remap_fields (setf "journaltitle" (U "{Lingua}") isbn_entry))
     = (if is_real_value
             (getf "journal" (setf "journaltitle" (U "{Lingua}") isbn_entry))
        then getf "journal" (setf "journaltitle" (U "{Lingua}") isbn_entry)
        else if is_real_value
                  (getf "journaltitle"
                        (setf "journaltitle" (U "{Lingua}") isbn_entry))
             then getf "journaltitle"
                       (setf "journaltitle" (U "{Lingua}") isbn_entry)
             else getf "journal"
                       (setf "journaltitle" (U "{Lingua}") isbn_entry))
  /\ getf "journaltitle"
          (remap_fields (setf "journaltitle" (U "{Lingua}") isbn_entry))
     = (if is_real_value
             (getf "journaltitle"
                   (setf "journaltitle" (U "{Lingua}") isbn_entry))
           && negb (is_real_value
                      (getf "journal"
                            (setf "journaltitle" (U "{Lingua}") isbn_entry)))
        then None
        else getf "journaltitle"
                  (setf "journaltitle" (U "{Lingua}") isbn_entry)).
Proof.
  assert (H : In ("journaltitle"%string, "journal"%string) alias_pairs)
    by (unfold alias_pairs; cbn [In]; repeat first [left; reflexivity|right]).
  split; [exact H|].
  exact (remap_fields_aliases (setf "journaltitle" (U "{Lingua}") isbn_entry)
                              "journaltitle" "journal" H).
Defined.

Lemma checkpages_value_page b r :
  getf "page" (checkpages_value b r) = getf "page" r.
Proof.
  assert (H : touches ["pages"]%string r (checkpages_value b r))
    by (cbv beta iota delta [checkpages_value]; touch).
  apply (t_fields _ _ _ H). not_in_keys.
Qed.

(** X21.  The misspelt field [page]: the page check removes it exactly when
    the record has no [pages] field (its value is then checked as [pages]);
    when the record has both fields, [page] stays as it is. *)
Theorem checkpages_page r :
  getf "page" (checkpages r)
  = if hasf "pages" r then getf "page" r else None.
Proof.
  cbv beta delta [checkpages]. cbv zeta.
  assert (Hp : forall x, hasf "page" x = false -> getf "page" x = None).
  { intros x. unfold hasf, Dict.mem, getf. now destruct (Dict.get _ _). }
  assert (Hk : forall x,
             getf "page" match getf "pages" x with
                         | Some braced =>
                           if negb (nonempty (strip braced)) then x
                           else checkpages_value braced x
                         | None => x
                         end = getf "page" x).
  { intros x. destruct (getf "pages" x); [|reflexivity].
    destruct (negb _); [reflexivity|apply checkpages_value_page]. }
  rewrite Hk.
  destruct (hasf "page" r) eqn:E1; destruct (hasf "pages" r) eqn:E2;
    cbn [andb negb]; try reflexivity.
  - apply getf_delf_same.
  - now apply Hp.
Qed.

(** ** Volume and number *)

Lemma handleerror_skip m r : truthy (getf m r) = true -> handleerror m r = r.
Proof. intros H. unfold handleerror. now rewrite H. Qed.

Lemma handleerror_other m k r :
  m <> k -> getf k (handleerror m r) = getf k r.
Proof.
  intros H. apply (t_fields _ _ _ (handleerror_touches m r)).
  intros [E|[]]. contradiction.
Qed.

(** X22.  A lone issue number is taken for the volume, and a lone volume
    of a book in a series for the number.  An article with a [number] and no
    [volume] leaves [checkarticle] with the number as its [volume] and no
    [number]; a book with a [series] and a [volume] but no [number] leaves
    [checkbook] with the volume as its [number] and no [volume]. *)
Theorem lone_number_or_volume_moves r v :
  (typ r = U "article" ->
   getf "volume" r = None -> getf "number" r = Some v ->
   truthy (Some v) = true ->
   getf "volume" (checkarticle r) = Some v
   /\ getf "number" (checkarticle r) = None)
  /\ (typ r = U "book" ->
      getf "series" r <> None ->
      getf "volume" r = Some v -> getf "number" r = None ->
      getf "number" (checkbook r) = Some v
      /\ getf "volume" (checkbook r) = None).
Proof.
  split.
  - intros Ht Hv Hn Hr.
    cbv beta iota delta [checkarticle addsortname for_each fold_left].
    rewrite Ht. change (negb (Str.eqb (U "article") (U "article"))) with false.
    cbv iota zeta. rewrite Hv, Hn.
    set (x := delf "number" (setf "volume" v r)).
    assert (Hxv : getf "volume" x = Some v)
      by (subst x; rewrite getf_delf_other by discriminate;
          apply getf_setf_same).
    assert (Hxn : getf "number" x = None) by (subst x; apply getf_delf_same).
    clearbody x.
    set (y := handleerror "journal" _).
    assert (Hyv : getf "volume" y = Some v)
      by (subst y; rewrite !handleerror_other by discriminate; exact Hxv).
    assert (Hyn : getf "number" y = None)
      by (subst y; rewrite !handleerror_other by discriminate; exact Hxn).
    clearbody y.
    rewrite (handleerror_skip "volume" y) by (rewrite Hyv; exact Hr).
    split.
    + rewrite (t_fields _ _ _ (requirepages_touches y)) by not_in_keys.
      exact Hyv.
    + rewrite (t_fields _ _ _ (requirepages_touches y)) by not_in_keys.
      exact Hyn.
  - intros Ht Hs Hv Hn.
    cbv beta iota delta [checkbook addsortname].
    rewrite Ht. change (negb (Str.eqb (U "book") (U "book"))) with false.
    cbv iota zeta.
    set (x := for_each _ handleerror (checkpublisheraddress r)).
    assert (Hx : forall k, ~ In k ["year"; "title"; "address"; "publisher"]%string ->
                           getf k x = getf k r).
    { intros k Hk.
      assert (T : touches ["year"; "title"; "address"; "publisher"]%string r x)
        by (subst x; cbv beta iota delta [for_each fold_left]; touch).
      exact (t_fields _ _ _ T k Hk). }
    clearbody x.
    rewrite !Hx by not_in_keys. rewrite Hv, Hn.
    destruct (getf "series" r) as [s|] eqn:Es; [|congruence].
    set (y := delf "volume" (setf "number" v x)).
    assert (Hyn : getf "number" y = Some v)
      by (subst y; rewrite getf_delf_other by discriminate;
          apply getf_setf_same).
    assert (Hyv : getf "volume" y = None) by (subst y; apply getf_delf_same).
    clearbody y.
    set (z := if truthy (getf "author" y) && truthy (getf "editor" y)
              then _ else _).
    assert (Hz : forall k, k <> "author"%string -> getf k z = getf k y).
    { intros k Hk. subst z. destruct (_ && _); [reflexivity|].
      destruct (_ || _); [reflexivity|].
      rewrite handleerror_other by congruence. reflexivity. }
    clearbody z.
    destruct (is_real_value (getf "pages" z)); rewrite ?getf_err;
      rewrite !Hz by discriminate; auto.
Qed.

Definition issue_only : record :=
  setf "number" (U "{3}") (set_typ (U "article") (new_record [] [] false)).

Lemma lone_number_or_volume_moves_witness :
  typ issue_only = U "article"
  /\ getf "volume" issue_only = None
  /\ getf "number" issue_only = Some (U "{3}")
  /\ truthy (Some (U "{3}")) = true
  /\ getf "volume" (checkarticle issue_only) = Some (U "{3}")
  /\ getf "number" (checkarticle issue_only) = None.
Proof.
  assert (H1 : typ issue_only = U "article") by reflexivity.
  assert (H2 : getf "volume" issue_only = None) by reflexivity.
  assert (H3 : getf "number" issue_only = Some (U "{3}")) by reflexivity.
  assert (H4 : truthy (Some (U "{3}")) = true) by reflexivity.
  split; [exact H1|]. split; [exact H2|]. split; [exact H3|].
  split; [exact H4|].
  exact (proj1 (lone_number_or_volume_moves issue_only (U "{3}"))
               H1 H2 H3 H4).
Defined.

(** ** LaTeX diacritics *)

Definition BACKSLASH : N := 92.

Lemma set_match_backslash c :
  c <> BACKSLASH -> set_match false false [CRange 92 92] c = false.
Proof.
  intros H. unfold set_match, BACKSLASH in *. cbn [existsb item_match andb orb xorb].
  destruct (92 <=? c) eqn:E1; destruct (c <=? 92) eqn:E2; try reflexivity.
  apply N.leb_le in E1, E2. lia.
Qed.

Lemma run_set i b neg items pos prev s cs k :
  run i b (RSet neg items) pos prev s cs k
  = match s with
    | [] => None
    | c :: s' =>
      if set_match i neg items c then k (pos + 1) (Some c) s' cs else None
    end.
Proof. reflexivity. Qed.

(** A pattern that cannot start a match in a text without a backslash. *)
Definition needs_backslash (rx : regex) : Prop :=
  forall bound pos prev s k,
    ~ In BACKSLASH s ->
    run (rx_icase rx) bound (rx_ast rx) pos prev s [] k = None.

Lemma command_needs_backslash x icase bound pos prev s cs k :
  ~ In BACKSLASH s ->
  run icase bound (RSeq (RSet false [CRange 92 92]) x) pos prev s cs k = None.
Proof.
  intros H. rewrite run_seq, run_set. destruct s as [|c s]; [reflexivity|].
  destruct icase.
  - unfold set_match. cbn [existsb item_match andb orb xorb].
    assert (Hc : c <> 92) by (intros ->; apply H; now left).
    assert (E : forall y, y <> 92 -> (92 <=? y) && (y <=? 92) = false).
    { intros y Hy. destruct (92 <=? y) eqn:E1; destruct (y <=? 92) eqn:E2;
        try reflexivity. apply N.leb_le in E1, E2. lia. }
    rewrite (E c Hc).
    assert (Hl : lower_c c <> 92).
    { unfold lower_c, is_upper. destruct (_ && _) eqn:U; [|exact Hc].
      apply andb_prop in U as [U1 U2]. apply N.leb_le in U1, U2. lia. }
    assert (Hu : upper_c c <> 92).
    { unfold upper_c, is_lower. destruct (_ && _) eqn:U; [|exact Hc].
      apply andb_prop in U as [U1 U2]. apply N.leb_le in U1, U2. lia. }
    now rewrite (E _ Hl), (E _ Hu).
  - rewrite set_match_backslash; [reflexivity|].
    intros ->. apply H. now left.
Qed.

Lemma three_patterns_need_backslash :
  needs_backslash braced_command_re
  /\ needs_backslash command_braced_re
  /\ needs_backslash command_re.
Proof.
  repeat split; intros bound pos prev s k H.
  - unfold braced_command_re. cbn [rx_ast rx_icase].
    rewrite run_seq, run_set. destruct s as [|c s]; [reflexivity|].
    destruct (set_match false false [CRange 123 123] c); [|reflexivity].
    apply (command_needs_backslash _ false bound).
    intros Hin. apply H. now right.
  - unfold command_braced_re. cbn [rx_ast rx_icase].
    now apply command_needs_backslash.
  - unfold command_re. cbn [rx_ast rx_icase].
    now apply command_needs_backslash.
Qed.

Lemma find_all_needs_backslash rx bound subject :
  needs_backslash rx ->
  forall fuel s pos prev adv,
    ~ In BACKSLASH s ->
    find_all fuel rx bound subject pos prev s adv = [].
Proof.
  intros Hrx. induction fuel as [|f IH]; intros s pos prev adv H;
    [reflexivity|].
  cbn [find_all]. cbv zeta. rewrite Hrx by exact H.
  destruct s as [|c s]; [reflexivity|].
  apply IH. intros Hin. apply H. now right.
Qed.

Lemma sub_needs_backslash rx repl s :
  needs_backslash rx -> ~ In BACKSLASH s -> sub rx repl s = s.
Proof.
  intros Hrx H. unfold sub, finditer.
  rewrite (find_all_needs_backslash rx _ _ Hrx) by exact H.
  reflexivity.
Qed.

(** X23.  [dediacriticize] leaves a text without a backslash as it is,
    with and without [stripbraces]. *)
Theorem dediacriticize_plain s stripbraces :
  ~ In BACKSLASH s -> dediacriticize s stripbraces = s.
Proof.
  intros H. unfold dediacriticize. cbv zeta.
  destruct three_patterns_need_backslash as (H1 & H2 & H3).
  destruct stripbraces;
    rewrite ?(sub_needs_backslash braced_command_re) by assumption;
    rewrite (sub_needs_backslash command_braced_re) by assumption;
    now rewrite (sub_needs_backslash command_re).
Qed.

Lemma dediacriticize_plain_witness :
  ~ In BACKSLASH (U "Smith {and} Jones")
  /\ dediacriticize (U "Smith {and} Jones") true = U "Smith {and} Jones".
Proof.
  assert (H : ~ In BACKSLASH (U "Smith {and} Jones")).
  { vm_compute. intuition discriminate. }
  split; [exact H|].
  exact (dediacriticize_plain _ true H).
Defined.

(** The ASCII letters. *)
Definition letters : list N :=
  map N.of_nat (seq 65 26 ++ seq 97 26).

Lemma letter_in_letters c :
  is_upper c || is_lower c = true -> In c letters.
Proof.
  intros H. unfold letters.
  rewrite <- (N2Nat.id c). apply in_map. apply in_or_app.
  apply orb_prop in H as [H|H]; apply andb_prop in H as [H1 H2];
    apply N.leb_le in H1, H2; [left|right]; apply in_seq; lia.
Qed.

(** The three ways of writing the diacritic [d] on the letter [c]. *)
Definition braced_command (d c : N) : pystr :=
  U "{\" ++ [d] ++ U "{" ++ [c] ++ U "}}".
Definition command_braced (d c : N) : pystr :=
  U "\" ++ [d] ++ U "{" ++ [c] ++ U "}".
Definition command (d c : N) : pystr := U "\" ++ [d; c].

Definition strips (d c : N) : bool :=
  Str.eqb (dediacriticize (braced_command d c) true) [c]
  && Str.eqb (dediacriticize (command_braced d c) true) [c]
  && Str.eqb (dediacriticize (command d c) true) [c]
  && Str.eqb (dediacriticize (braced_command d c) false) (U "{" ++ [c] ++ U "}")
  && Str.eqb (dediacriticize (command_braced d c) false) [c]
  && Str.eqb (dediacriticize (command d c) false) [c].

Lemma strips_all :
  forallb (fun d => forallb (strips d) letters) LATEXDIACRITICS = true.
Proof. vm_compute. reflexivity. Qed.

(** X24.  The table of diacritics: for each of the fifteen accent
    commands of [LATEXDIACRITICS] and each ASCII letter, the three ways of
    writing the accent ([{\d{c}}], [\d{c}] and [\dc]) are all reduced to the
    bare letter; without [stripbraces] the first form keeps a pair of
    braces. *)
Theorem dediacriticize_table d c :
  In d LATEXDIACRITICS ->
  is_upper c || is_lower c = true ->
  dediacriticize (braced_command d c) true = [c]
  /\ dediacriticize (command_braced d c) true = [c]
  /\ dediacriticize (command d c) true = [c]
  /\ dediacriticize (braced_command d c) false = U "{" ++ [c] ++ U "}"
  /\ dediacriticize (command_braced d c) false = [c]
  /\ dediacriticize (command d c) false = [c].
Proof.
  intros Hd Hc. apply letter_in_letters in Hc.
  pose proof strips_all as H.
  rewrite forallb_forall in H. specialize (H d Hd).
  rewrite forallb_forall in H. specialize (H c Hc).
  unfold strips in H.
  repeat (apply andb_prop in H as [H ?]).
  repeat split; now apply eqb_eq.
Qed.

Lemma dediacriticize_table_witness :
  In (ch "c") LATEXDIACRITICS
  /\ is_upper (ch "c") || is_lower (ch "c") = true
  /\ dediacriticize (braced_command (ch "c") (ch "c")) true = [ch "c"]
  /\ dediacriticize (command_braced (ch "c") (ch "c")) true = [ch "c"]
  /\ dediacriticize (command (ch "c") (ch "c")) true = [ch "c"]
  /\ dediacriticize (braced_command (ch "c") (ch "c")) false
     = U "{" ++ [ch "c"] ++ U "}"
  /\ dediacriticize (command_braced (ch "c") (ch "c")) false = [ch "c"]
  /\ dediacriticize (command (ch "c") (ch "c")) false = [ch "c"].
Proof.
  assert (H1 : In (ch "c") LATEXDIACRITICS)
    by (vm_compute; repeat first [left; reflexivity|right]).
  assert (H2 : is_upper (ch "c") || is_lower (ch "c") = true) by reflexivity.
  split; [exact H1|]. split; [exact H2|].
  exact (dediacriticize_table (ch "c") (ch "c") H1 H2).
Defined.

(** ** Normalizing twice *)

(** An entry whose title has a word with an inner capital. *)
Definition camel_entry : record :=
  setf "title" (U "{The OpenAI story}")
       (set_typ (U "misc") (new_record [] [] false)).

(** X25.  [conform] is not idempotent.  The protection of words with inner
    capitals does not look for braces that are already there: each pass
    wraps the word [OpenAI] of the title in one more pair of braces, so the
    second normalization of an entry differs from the first. *)
Theorem conform_not_idempotent :
  getf "title" (conform sample_nouns camel_entry)
  = Some (U "{The {OpenAI} story}")
  /\ getf "title" (conform sample_nouns (conform sample_nouns camel_entry))
     = Some (U "{The {{OpenAI}} story}")
  /\ conform sample_nouns (conform sample_nouns camel_entry)
     <> conform sample_nouns camel_entry.
Proof.
  assert (H1 : getf "title" (conform sample_nouns camel_entry)
               = Some (U "{The {OpenAI} story}")) by (vm_compute; reflexivity).
  assert (H2 : getf "title"
                    (conform sample_nouns (conform sample_nouns camel_entry))
               = Some (U "{The {{OpenAI}} story}"))
    by (vm_compute; reflexivity).
  split; [exact H1|]. split; [exact H2|].
  intros E. rewrite E, H1 in H2. discriminate H2.
Qed.

Lemma parse_natural_failed_iff_empty_witness :
  exists r',
    parse_natural (U "   ") (new_record (U "   ") [] false) = inr r'
    /\ (parsing_failed r' = true <-> strip (U "   ") = []).
Proof.
  eexists.
  assert (H : parse_natural (U "   ") (new_record (U "   ") [] false) = inr _)
    by (vm_compute; reflexivity).
  split; [exact H|].
  exact (parse_natural_failed_iff_empty _ _ _ H).
Defined.

(** An article without a journal. *)
Definition no_journal_entry : record :=
  setf "title" (U "{A study of syntax}")
       (set_typ (U "article") (new_record [] [] false)).

